(** * keras_transformer/transformer.py: a shallow embedding

    The file has two halves: the definitions, translated from the source,
    and the statements proved about them.

    - [Tensor]: tensors as nested lists (a tensor of shape (B, S) is a list
      of B rows of length S) and the operations that do not depend on the
      number type.
    - [ACT]: the adaptive-computation-time layer [TransformerACT].  Its
      control state only needs [+], [-], [*], [/] and comparisons, so the
      tensors hold exact rationals ([Q]) and every definition runs.  The
      logistic function [K.sigmoid] belongs to the tensor backend; it is a
      section variable.
    - [Block]: [gelu], [LayerNormalization], [TransformerTransition] and the
      pseudo-layer [TransformerBlock], over the reals (square root, tanh).
    - [ACTProofs], [BlockProofs]: the properties of the two.
    - [ACTRuns]: sequences of calls of the ACT layer, its output shapes and
      its config.
    - [BlockLayers]: [gelu], the two layers position by position, and what
      calls do to a block.
    - [HaltingUnit]: the halting value of a token.
    - [CallEffects]: what one call of the ACT layer does to the state the
      layer has stored, given the tokens it gets. *)

From Stdlib Require Import ZArith QArith Qabs Lqa Lia Reals Lra.
From stdpp Require Import base option list strings gmap.

Set Warnings "-register-all".

(** ** Python outcomes *)

Inductive exn : Type :=
  | ValueError
  | TypeError
  | AttributeError
  | NotImplementedError.

Inductive result (A : Type) : Type :=
  | Ok (a : A)
  | Raise (e : exn).
Arguments Ok {A} a.
Arguments Raise {A} e.

#[global] Instance result_ret : MRet result := fun _ a => Ok a.
#[global] Instance result_bind : MBind result := fun _ _ k m =>
  match m with
  | Ok a => k a
  | Raise e => Raise e
  end.

(** ** Tensors as nested lists *)

Module Tensor.

(** Elementwise unary operation on a rank-2 tensor. *)
Definition ew1 {A B} (f : A -> B) (t : list (list A)) : list (list B) :=
  (fun row : list A => f <$> row) <$> t.

(** Elementwise binary operation on two tensors of the same shape. *)
Definition ew2 {A B C} (f : A -> B -> C)
    (a : list (list A)) (b : list (list B)) : list (list C) :=
  zip_with (zip_with f) a b.
Definition ew3 {A B C} (f : A -> B -> C)
    (a : list (list (list A))) (b : list (list (list B)))
    : list (list (list C)) :=
  zip_with (ew2 f) a b.

Definition K_int_shape2 {A} (t : list (list A)) : nat * nat :=
  (length t, length (default [] (head t))).

Definition K_int_shape3 {A} (t : list (list (list A))) : nat * nat * nat :=
  (length t, length (default [] (head t)),
   length (default [] (head (default [] (head t))))).

(** The exact nested shape; on rectangular tensors two of them are equal
    exactly when the [.shape] attributes are. *)
Definition shape_of3 {A} (t : list (list (list A))) : list (list nat) :=
  ew1 length t.

(** [K.switch] with a condition tensor of the shape of both branches. *)
Definition K_switch {A} (cond : list (list bool))
    (then_ else_ : list (list A)) : list (list A) :=
  ew2 (fun (c : bool) (te : A * A) => if c then te.1 else te.2)
      cond (ew2 pair then_ else_).

(** [K.reshape(a, [-1, n])]: the elements of [a] in row-major order, cut into
    rows of length [n]. *)
Definition K_reshape_rows {A} (a : list (list A)) (n : nat) : list (list A) :=
  let flat := concat a in
  (fun i => take n (drop (i * n) flat)) <$> seq 0 (length flat / n).

(** [K.squeeze(t, 1)] of a (B, 1, n) tensor. *)
Definition K_squeeze1 {A} (t : list (list (list A))) : list (list A) :=
  (fun m : list (list A) => concat m) <$> t.

(** Entry (b, j) of a rank-2 tensor, [None] outside of it. *)
Definition at2 {A} (t : list (list A)) (b j : nat) : option A :=
  t !! b ≫= fun row => row !! j.

Definition has_shape2 {A} (B S : nat) (t : list (list A)) : Prop :=
  length t = B /\ Forall (fun row => length row = S) t.

Definition has_shape3 {A} (B S D : nat) (t : list (list (list A))) : Prop :=
  length t = B /\ Forall (has_shape2 S D) t.

End Tensor.

(** ** TransformerACT *)

Module ACT.

Import Tensor.

#[local] Open Scope Q_scope.

Abbreviation tensor1 := (list Q).
Abbreviation tensor2 := (list (list Q)).
Abbreviation tensor3 := (list (list (list Q))).

(** A value returned by [call]: the layer returns a Python list of tensors of
    different ranks. *)
Inductive anytensor : Type :=
  | Rank1 (t : tensor1)
  | Rank2 (t : tensor2)
  | Rank3 (t : tensor3).

(** ** The backend operations the layer uses ([K.*], [tf.*]) *)

Definition K_zeros_like2 {A} (t : list (list A)) : tensor2 :=
  ew1 (fun _ => 0) t.
Definition K_ones_like2 {A} (t : list (list A)) : tensor2 :=
  ew1 (fun _ => 1) t.
Definition K_zeros_like3 {A} (t : list (list (list A))) : tensor3 :=
  ew1 (fun v : list A => (fun _ => 0) <$> v) t.

Definition t2_add : tensor2 -> tensor2 -> tensor2 := ew2 Qplus.
Definition t2_sub : tensor2 -> tensor2 -> tensor2 := ew2 Qminus.
Definition t2_mul : tensor2 -> tensor2 -> tensor2 := ew2 Qmult.
Definition t3_add : tensor3 -> tensor3 -> tensor3 := ew3 Qplus.
Definition t2_sub_scalar (a : tensor2) (c : Q) : tensor2 :=
  ew1 (fun x => x - c) a.
Definition t1_scale (c : Q) (a : tensor1) : tensor1 := Qmult c <$> a.

Definition Qgtb (x y : Q) : bool := negb (Qle_bool x y).

Definition K_greater (a : tensor2) (c : Q) : list (list bool) :=
  ew1 (fun x => Qgtb x c) a.
Definition K_less_equal (a : tensor2) (c : Q) : list (list bool) :=
  ew1 (fun x => Qle_bool x c) a.

Definition Qsum (l : list Q) : Q := foldr Qplus 0 l.

(** [K.mean(t, axis=1)]: one mean per row. *)
Definition K_mean_axis1 (t : tensor2) : tensor1 :=
  (fun row => Qsum row / inject_Z (Z.of_nat (length row))) <$> t.

Definition K_cast_int32 (t : list (list bool)) : list (list Z) :=
  ew1 (fun c : bool => if c then 1%Z else 0%Z) t.
Definition K_sum_int (t : list (list Z)) : Z :=
  foldr Z.add 0%Z (foldr Z.add 0%Z <$> t).
Definition K_cast_float32 (t : list (list bool)) : tensor2 :=
  ew1 (fun c : bool => if c then 1 else 0) t.

(** [K.expand_dims(w, -1) * x]: the weight of a token scales its features. *)
Definition K_expand_mul (w : tensor2) (x : tensor3) : tensor3 :=
  ew2 (fun wi xi => Qmult wi <$> xi) w x.

(** [K.reshape(x, [-1, d_model])] of a (B, S, d_model) tensor: the B*S token
    vectors in row-major order. *)
Definition K_reshape_tokens (x : tensor3) (d_model : nat) : tensor2 :=
  concat x.

Definition dot_vec (u v : list Q) : Q := Qsum (zip_with Qmult u v).

(** Column [c] of a matrix given by rows. *)
Definition column (m : tensor2) (c : nat) : list Q :=
  (fun row : list Q => default 0 (row !! c)) <$> m.

(** [K.dot(a, w)] for a : (N, d) and w : (d, k). *)
Definition K_dot (a w : tensor2) : tensor2 :=
  (fun row : list Q =>
     (fun c => dot_vec row (column w c))
       <$> seq 0 (length (default [] (head w)))) <$> a.

(** [K.bias_add(a, b, data_format='channels_last')]. *)
Definition K_bias_add (a : tensor2) (b : tensor1) : tensor2 :=
  (fun row => zip_with Qplus row b) <$> a.

(** [tf.sequence_mask(lengths, maxlen)] for a lengths tensor of shape (B, 1):
    shape (B, 1, maxlen), entry j true when j < length. *)
Definition tf_sequence_mask (lengths : list (list Z)) (maxlen : nat)
    : list (list (list bool)) :=
  ew1 (fun len => (fun j => (Z.of_nat j <? len)%Z) <$> seq 0 maxlen) lengths.

(** ** The layer object *)

(** The six attributes [initialize_control_tensors] assigns together; they are
    all [None] until the first call. *)
Record control_tensors : Type := {
  zeros_like_halting : tensor2;
  ones_like_halting : tensor2;
  remainder : tensor2;
  active_steps : tensor2;
  halt_budget : tensor2;
  batch_size : nat
}.

(** The attributes [build] creates. *)
Record halting_weights : Type := {
  halting_kernel : tensor2;       (* shape (d_model, 1) *)
  halting_biases : tensor1;       (* shape (1,) *)
  time_penalty_t : Q
}.

Record TransformerACT : Type := {
  halt_epsilon : Q;
  time_penalty : Q;
  return_step : bool;
  ponder_cost : option tensor1;
  weighted_output : option tensor3;
  zeros_like_input : option tensor3;
  control : option control_tensors;
  weights : option halting_weights;
  losses : list (option tensor1)  (* what [add_loss] has registered *)
}.

(** What the layer can be called with: a list of two tensors (input of shape
    (B, S, d_model) and lengths of shape (B, 1)), a single rank-3 tensor, or
    anything else. *)
Inductive call_arg : Type :=
  | ArgList2 (input : tensor3) (lengths : list (list Z))
  | ArgTensor3 (input : tensor3)
  | ArgOther.

Definition default_halt_epsilon : Q := 1 # 100.
Definition default_time_penalty : Q := 1 # 100.

Definition __init__ (halt_epsilon time_penalty : Q) (return_step : bool)
    : TransformerACT :=
  {| halt_epsilon := halt_epsilon;
     time_penalty := time_penalty;
     return_step := return_step;
     ponder_cost := None;
     weighted_output := None;
     zeros_like_input := None;
     control := None;
     weights := None;
     losses := [] |}.

(** The argument of [build]: the shape of the input tensor, or the list of
    the shapes of the input and the lengths tensors. *)
Inductive build_arg : Type :=
  | TwoShapes (input_shape lengths_shape : list nat)
  | OneShape (shape : list nat).

(** [build]: the kernel of shape (d_model, 1) gets the values its initialiser
    draws (the function [glorot_uniform] of the shape), the bias starts at
    0.1. *)
Definition build (self : TransformerACT) (_input_shape : build_arg)
    (glorot_uniform : nat -> nat -> tensor2) : result TransformerACT :=
  input_shape ← match _input_shape with
                | TwoShapes input_shape _ => Ok input_shape
                | OneShape shape =>
                    if decide (length shape = 3%nat) then Ok shape
                    else Raise ValueError
                end;
  match input_shape with
  | [batch_size; sequence_length; d_model] =>
      Ok {| halt_epsilon := halt_epsilon self;
            time_penalty := time_penalty self;
            return_step := return_step self;
            ponder_cost := ponder_cost self;
            weighted_output := weighted_output self;
            zeros_like_input := zeros_like_input self;
            control := control self;
            weights := Some {| halting_kernel := glorot_uniform d_model 1%nat;
                               halting_biases := [1 # 10];
                               time_penalty_t := time_penalty self |};
            losses := losses self |}
  | _ => Raise ValueError
  end.

Definition initialize_control_tensors (self : TransformerACT)
    (halting : tensor2) (batch_size : nat) : control_tensors :=
  {| zeros_like_halting := K_zeros_like2 halting;
     ones_like_halting := K_ones_like2 halting;
     remainder := K_ones_like2 halting;
     active_steps := K_zeros_like2 halting;
     halt_budget := t2_sub_scalar (K_ones_like2 halting) (halt_epsilon self);
     batch_size := batch_size |}.

Definition mask_length_if_provided (input : tensor2)
    (lengths : option (list (list Z))) : tensor2 :=
  match lengths with
  | None => input
  | Some lengths =>
      let '(_, sequence_length) := K_int_shape2 input in
      let mask := K_squeeze1 (tf_sequence_mask lengths sequence_length) in
      t2_mul input (K_cast_float32 mask)
  end.

Definition unpack_input (_input : call_arg)
    : result (tensor3 * option (list (list Z))) :=
  match _input with
  | ArgList2 input lengths => Ok (input, Some lengths)
  | ArgTensor3 input => Ok (input, None)
  | ArgOther => Raise ValueError
  end.

Section Call.

(** [K.sigmoid] on one number. *)
Variable sigmoid : Q -> Q.

Definition K_sigmoid (t : tensor2) : tensor2 := ew1 sigmoid t.

(** The values [call] computes, in the order of the source. *)
Record locals : Type := {
  l_halting : tensor2;
  l_control : control_tensors;         (* after the initialisation guard *)
  l_step_is_active : list (list bool);
  l_no_further_steps : list (list bool);
  l_halting_prob : tensor2;
  l_active_steps : tensor2;            (* incremented and masked *)
  l_masked_remainder : tensor2;        (* masked, before the update *)
  l_ponder_cost : tensor1;
  l_remainder : tensor2;               (* after the update *)
  l_halt_budget : tensor2;             (* after the update *)
  l_zeros_like_input : tensor3;
  l_any_step_is_active : bool;
  l_step_weighted_output : tensor3;
  l_weighted_output : tensor3
}.

Definition halting_unit (w : halting_weights) (input : tensor3) : tensor2 :=
  let '(_, sequence_length, d_model) := K_int_shape3 input in
  K_sigmoid
    (K_reshape_rows
       (K_bias_add
          (K_dot (K_reshape_tokens input d_model) (halting_kernel w))
          (halting_biases w))
       sequence_length).

Definition call_locals (self : TransformerACT) (w : halting_weights)
    (input : tensor3) (lengths : option (list (list Z))) : locals :=
  let '(batch_size_, sequence_length, d_model) := K_int_shape3 input in
  let halting := halting_unit w input in
  let ctl :=
    match control self with
    | None => initialize_control_tensors self halting batch_size_
    | Some c =>
        if decide (batch_size c <> batch_size_)
        then initialize_control_tensors self halting batch_size_
        else c
    end in
  let step_is_active := K_greater (halt_budget ctl) 0 in
  let no_further_steps :=
    K_less_equal (t2_sub (halt_budget ctl) halting) 0 in
  let halting_prob :=
    K_switch step_is_active
      (K_switch no_further_steps (remainder ctl) halting)
      (zeros_like_halting ctl) in
  let active_steps1 :=
    t2_add (active_steps ctl)
      (K_switch step_is_active
         (ones_like_halting ctl) (zeros_like_halting ctl)) in
  let remainder1 := mask_length_if_provided (remainder ctl) lengths in
  let active_steps2 := mask_length_if_provided active_steps1 lengths in
  let ponder_cost_ :=
    t1_scale (time_penalty_t w)
      (K_mean_axis1 (t2_add remainder1 active_steps2)) in
  let remainder2 :=
    K_switch no_further_steps remainder1 (t2_sub remainder1 halting) in
  let halt_budget1 := t2_sub (halt_budget ctl) halting in
  let zeros_like_input_ :=
    match zeros_like_input self with
    | None => K_zeros_like3 input
    | Some z =>
        if decide (shape_of3 z <> shape_of3 input)
        then K_zeros_like3 input
        else z
    end in
  let any_step_is_active :=
    (K_sum_int (K_cast_int32 step_is_active) >? 0)%Z in
  let step_weighted_output :=
    if any_step_is_active
    then K_expand_mul halting_prob input
    else zeros_like_input_ in
  let weighted_output_ :=
    match weighted_output self with
    | None => step_weighted_output
    | Some wo =>
        if decide (length wo <> batch_size_)
        then step_weighted_output
        else t3_add wo step_weighted_output
    end in
  {| l_halting := halting;
     l_control := ctl;
     l_step_is_active := step_is_active;
     l_no_further_steps := no_further_steps;
     l_halting_prob := halting_prob;
     l_active_steps := active_steps2;
     l_masked_remainder := remainder1;
     l_ponder_cost := ponder_cost_;
     l_remainder := remainder2;
     l_halt_budget := halt_budget1;
     l_zeros_like_input := zeros_like_input_;
     l_any_step_is_active := any_step_is_active;
     l_step_weighted_output := step_weighted_output;
     l_weighted_output := weighted_output_ |}.

(** The attributes of [self] when [call] returns. *)
Definition store_locals (self : TransformerACT) (L : locals)
    : TransformerACT :=
  {| halt_epsilon := halt_epsilon self;
     time_penalty := time_penalty self;
     return_step := return_step self;
     ponder_cost := Some (l_ponder_cost L);
     weighted_output := Some (l_weighted_output L);
     zeros_like_input := Some (l_zeros_like_input L);
     control :=
       Some {| zeros_like_halting := zeros_like_halting (l_control L);
               ones_like_halting := ones_like_halting (l_control L);
               remainder := l_remainder L;
               active_steps := l_active_steps L;
               halt_budget := l_halt_budget L;
               batch_size := batch_size (l_control L) |};
     weights := weights self;
     losses := losses self |}.

Definition call (self : TransformerACT) (_input : call_arg)
    : result (TransformerACT * list anytensor) :=
  '(input, lengths) ← unpack_input _input;
  w ← match weights self with
      | Some w => Ok w
      | None => Raise AttributeError
      end;
  let L := call_locals self w input lengths in
  let self' := store_locals self L in
  if return_step self
  then Ok (self', [Rank3 input; Rank3 (l_weighted_output L);
                   Rank1 (l_ponder_cost L); Rank2 (l_active_steps L)])
  else Ok (self', [Rank3 input; Rank3 (l_weighted_output L);
                   Rank1 (l_ponder_cost L)]).

(** [finalize]: [add_loss] appends its argument to the losses of the layer,
    and returns at once when the argument is [None]. *)
Definition finalize (self : TransformerACT) : TransformerACT :=
  {| halt_epsilon := halt_epsilon self;
     time_penalty := time_penalty self;
     return_step := return_step self;
     ponder_cost := ponder_cost self;
     weighted_output := weighted_output self;
     zeros_like_input := zeros_like_input self;
     control := control self;
     weights := weights self;
     losses := match ponder_cost self with
               | Some pc => losses self ++ [Some pc]
               | None => losses self
               end |}.

End Call.

(** [build] gives the kernel one column and the bias one entry. *)
Definition weights_ok (w : halting_weights) : Prop :=
  length (default [] (head (halting_kernel w))) = 1%nat /\
  length (halting_biases w) = 1%nat.

(** ** One position of the control state *)

(** The control state of one (batch element, token) position, and what one
    call does to it.  [call_locals_at] below shows that [call] acts on every
    position of its tensors in this way. *)
Record cell : Type := {
  c_budget : Q;
  c_remainder : Q;
  c_steps : Q
}.

Definition cell_active (c : cell) : bool := Qgtb (c_budget c) 0.
Definition cell_exhausts (c : cell) (p : Q) : bool :=
  Qle_bool (c_budget c - p) 0.

Definition cell_weight (c : cell) (p : Q) : Q :=
  if cell_active c
  then if cell_exhausts c p then c_remainder c else p
  else 0.

(** What [mask_length_if_provided] does to the entry of token [j] of a row
    whose length entry is [len]; [None] when no lengths were passed. *)
Definition masked (x : Q) (len : option Z) (j : nat) : Q :=
  match len with
  | None => x
  | Some len => x * (if (Z.of_nat j <? len)%Z then 1 else 0)
  end.

Definition cell_step (len : option Z) (j : nat) (c : cell) (p : Q) : cell :=
  {| c_budget := c_budget c - p;
     c_remainder :=
       if cell_exhausts c p
       then masked (c_remainder c) len j
       else masked (c_remainder c) len j - p;
     c_steps :=
       masked (c_steps c + (if cell_active c then 1 else 0)) len j |}.

Definition cell_of (c : control_tensors) (b j : nat) : option cell :=
  match at2 (halt_budget c) b j, at2 (remainder c) b j,
        at2 (active_steps c) b j with
  | Some hb, Some r, Some a =>
      Some {| c_budget := hb; c_remainder := r; c_steps := a |}
  | _, _, _ => None
  end.

(** The length entry of batch row [b]. *)
Definition len_at (lengths : option (list (list Z))) (b : nat) : option Z :=
  match lengths with
  | None => None
  | Some l => l !! b ≫= head
  end.

(** ** Well-shaped control state *)

Definition constant2 (v : Q) (t : tensor2) : Prop :=
  forall b j x, at2 t b j = Some x -> x = v.

Record ctl_ok (n s : nat) (c : control_tensors) : Prop := {
  ok_budget : has_shape2 n s (halt_budget c);
  ok_remainder : has_shape2 n s (remainder c);
  ok_steps : has_shape2 n s (active_steps c);
  ok_zeros : has_shape2 n s (zeros_like_halting c);
  ok_ones : has_shape2 n s (ones_like_halting c);
  ok_zeros_val : constant2 0 (zeros_like_halting c);
  ok_ones_val : constant2 1 (ones_like_halting c);
  ok_batch : batch_size c = n
}.

(** A layer that can take an input of shape (n, s, _): it has no control
    tensors yet, or they were made for another batch size (and will be made
    anew), or they have shape (n, s). *)
Definition ready (n s : nat) (self : TransformerACT) : Prop :=
  match control self with
  | None => True
  | Some c => batch_size c = n -> ctl_ok n s c
  end.

Definition lengths_ok (n : nat) (lengths : option (list (list Z))) : Prop :=
  match lengths with
  | None => True
  | Some l => has_shape2 n 1 l
  end.

(** ** Sequences of calls *)

Section Calls.

Variable sigmoid : Q -> Q.

(** The local values of the call of [self] on [_input]. *)
Definition the_locals (self : TransformerACT) (_input : call_arg)
    : result locals :=
  '(input, lengths) ← unpack_input _input;
  w ← match weights self with
      | Some w => Ok w
      | None => Raise AttributeError
      end;
  Ok (call_locals sigmoid self w input lengths).

(** The layer called on each argument in turn, as in the loop over the
    depth of a Universal Transformer; the local values of every call are
    kept. *)
Fixpoint calls (self : TransformerACT) (args : list call_arg)
    : result (TransformerACT * list locals) :=
  match args with
  | [] => Ok (self, [])
  | a :: rest =>
      L ← the_locals self a;
      '(self1, _) ← call sigmoid self a;
      '(self2, Ls) ← calls self1 rest;
      Ok (self2, L :: Ls)
  end.

(** The step the call on [a] makes at position (b, j). *)
Definition step_of (w : halting_weights) (b j : nat) (a : call_arg)
    : option Z * Q :=
  match a with
  | ArgList2 input lengths =>
      (len_at (Some lengths) b,
       default 0 (at2 (halting_unit sigmoid w input) b j))
  | ArgTensor3 input =>
      (None, default 0 (at2 (halting_unit sigmoid w input) b j))
  | ArgOther => (None, 0)
  end.

End Calls.

(** The control state of one position before each of a sequence of calls,
    with the halting value of the call; a step is the length entry of the
    row (if lengths were passed) and the halting value. *)
Fixpoint cell_trace (j : nat) (c : cell) (steps : list (option Z * Q))
    : list (cell * Q) :=
  match steps with
  | [] => []
  | (len, p) :: rest => (c, p) :: cell_trace j (cell_step len j c p) rest
  end.

Definition trace_weights (tr : list (cell * Q)) : list Q :=
  (fun cp : cell * Q => cell_weight cp.1 cp.2) <$> tr.

(** Token [j] is inside the valid length. *)
Definition visible (len : option Z) (j : nat) : Prop :=
  match len with
  | None => True
  | Some len => (Z.of_nat j < len)%Z
  end.

(** An argument the layer accepts, with tensors of the given shapes. *)
Definition arg_ok (n s d : nat) (a : call_arg) : Prop :=
  match a with
  | ArgList2 input lengths => has_shape3 n s d input /\ has_shape2 n 1 lengths
  | ArgTensor3 input => has_shape3 n s d input
  | ArgOther => False
  end.

(** The local values [L] of a call are, at position (b, j), those of the
    cell [cp.1] with halting value [cp.2]. *)
Definition link (b j : nat) (L : locals) (cp : cell * Q) : Prop :=
  cell_of (l_control L) b j = Some cp.1 /\
  at2 (l_halting L) b j = Some cp.2 /\
  at2 (l_step_is_active L) b j = Some (cell_active cp.1) /\
  at2 (l_no_further_steps L) b j = Some (cell_exhausts cp.1 cp.2) /\
  at2 (l_halting_prob L) b j = Some (cell_weight cp.1 cp.2).

(** ** Budget conservation *)

(** The next call makes the control tensors: it is the first call of the
    layer, or the batch size differs from the one they were made for. *)
Definition fresh_for (n : nat) (self : TransformerACT) : Prop :=
  match control self with
  | None => True
  | Some c => batch_size c <> n
  end.

(** The length entry a call passes for batch row [b]. *)
Definition arg_len_at (a : call_arg) (b : nat) : option Z :=
  match a with
  | ArgList2 _ lengths => len_at (Some lengths) b
  | _ => None
  end.

(** A call finds position (b, j) active and exhausting its budget. *)
Definition exhausting (b j : nat) (L : locals) : Prop :=
  at2 (l_step_is_active L) b j = Some true /\
  at2 (l_no_further_steps L) b j = Some true.

(** The effective halting weights [ws] that the calls with local values [Ls]
    give to position (b, j). *)
Definition weights_at (b j : nat) (Ls : list locals) (ws : list Q) : Prop :=
  Forall2 (fun L x => at2 (l_halting_prob L) b j = Some x) Ls ws.

(** The conservation law for position (b, j) of the calls [args] made on
    [self] one after the other. *)
Definition weights_sum_to_one (sigmoid : Q -> Q) (self : TransformerACT)
    (args : list call_arg) (b j : nat) : Prop :=
  forall self' Ls ws,
    calls sigmoid self args = Ok (self', Ls) ->
    Exists (exhausting b j) Ls ->
    weights_at b j Ls ws ->
    Qsum ws == 1.

(** A rational function with the range and the value at 0 of the logistic
    function; it lets the layer run on concrete tensors. *)
Definition softsign_sigmoid (x : Q) : Q := (1 + x / (1 + Qabs x)) / 2.

(** *** Concrete runs *)

Definition weights0 : halting_weights :=
  {| halting_kernel := [[1]];
     halting_biases := [1 # 10];
     time_penalty_t := default_time_penalty |}.

(** A layer as [build] leaves it, with default parameters and kernel [[1]];
    on a token with the single feature -1/10 the halting logit is
    -1/10 * 1 + 1/10 = 0 and the halting value sigmoid(0) = 1/2. *)
Definition layer0 : TransformerACT :=
  {| halt_epsilon := default_halt_epsilon;
     time_penalty := default_time_penalty;
     return_step := false;
     ponder_cost := None;
     weighted_output := None;
     zeros_like_input := None;
     control := None;
     weights := Some weights0;
     losses := [] |}.

Definition tokens0 : tensor3 := [[ [-1 # 10]; [-1 # 10] ]].

(** Two calls on one sequence of two tokens, without lengths. *)
Definition plain_calls : list call_arg :=
  [ArgTensor3 tokens0; ArgTensor3 tokens0].

(** The same two calls with valid length 1: token 1 is padding. *)
Definition padded_calls : list call_arg :=
  [ArgList2 tokens0 [[1%Z]]; ArgList2 tokens0 [[1%Z]]].

(** The call is the first one of the layer, or the call before it (which
    left the layer in state [self]) had another batch size than [n]. *)
Definition first_call_or_new_batch_size (sigmoid : Q -> Q)
    (self : TransformerACT) (n : nat) : Prop :=
  control self = None \/
  exists self0 a0 outs0 input0 lengths0,
    call sigmoid self0 a0 = Ok (self, outs0) /\
    unpack_input a0 = Ok (input0, lengths0) /\
    length input0 <> n.

(** [self] with another value in its [ponder_cost] attribute. *)
Definition with_ponder_cost (pc : option tensor1) (self : TransformerACT)
    : TransformerACT :=
  {| halt_epsilon := halt_epsilon self;
     time_penalty := time_penalty self;
     return_step := return_step self;
     ponder_cost := pc;
     weighted_output := weighted_output self;
     zeros_like_input := zeros_like_input self;
     control := control self;
     weights := weights self;
     losses := losses self |}.

(** The stored [zeros_like_input], when there is one, holds zeros. *)
Definition zeros_input_ok (self : TransformerACT) : Prop :=
  forall z, zeros_like_input self = Some z -> z = K_zeros_like3 z.

(** Two vectors with equal entries as rationals. *)
Definition Qvec_eq (u v : list Q) : Prop := Forall2 Qeq u v.

(** *** The claims on concrete calls *)

(** The first call of [layer0], without and with lengths. *)
Definition locals0 : locals :=
  call_locals softsign_sigmoid layer0 weights0 tokens0 None.
Definition locals0_padded : locals :=
  call_locals softsign_sigmoid layer0 weights0 tokens0 (Some [[1%Z]]).
Definition layer1 : TransformerACT := store_locals layer0 locals0.

(** A batch of two sequences of two tokens. *)
Definition tokens_batch2 : tensor3 :=
  [[ [-1 # 10]; [-1 # 10] ]; [ [0]; [0] ]].
Definition locals1_batch2 : locals :=
  call_locals softsign_sigmoid layer1 weights0 tokens_batch2 None.

(** ** Runs of calls, position by position *)

(** The control state of one position before each of a sequence of calls,
    with the step the call makes: [cell_trace] with the length entries
    kept. *)
Fixpoint cell_run (j : nat) (c : cell) (steps : list (option Z * Q))
    : list (cell * (option Z * Q)) :=
  match steps with
  | [] => []
  | st :: rest => (c, st) :: cell_run j (cell_step st.1 j c st.2) rest
  end.

(** What the call with local values [L] stores for position (b, j). *)
Definition stored_at (b j : nat) (L : locals) (c : cell) : Prop :=
  at2 (l_halt_budget L) b j = Some (c_budget c) /\
  at2 (l_remainder L) b j = Some (c_remainder c) /\
  at2 (l_active_steps L) b j = Some (c_steps c).

(** The local values [L] of a call are, at position (b, j), those of the
    cell [e.1] making the step [e.2], and the call stores the cell after
    the step. *)
Definition link_full (b j : nat) (L : locals) (e : cell * (option Z * Q))
    : Prop :=
  link b j L (e.1, e.2.2) /\
  at2 (l_masked_remainder L) b j
    = Some (masked (c_remainder e.1) e.2.1 j) /\
  stored_at b j L (cell_step e.2.1 j e.1 e.2.2).

(** Whether each of the calls with local values [Ls] found position (b, j)
    active. *)
Definition actives_at (b j : nat) (Ls : list locals) (acts : list bool)
    : Prop :=
  Forall2 (fun L x => at2 (l_step_is_active L) b j = Some x) Ls acts.

Definition indicator (x : bool) : Q := if x then 1 else 0.

(** Four calls on one sequence of two tokens, without lengths: with halting
    value 1/2 the budget of a token is used up by the second call. *)
Definition long_calls : list call_arg :=
  [ArgTensor3 tokens0; ArgTensor3 tokens0; ArgTensor3 tokens0;
   ArgTensor3 tokens0].

(** ** The weighted output *)

(** The stored weighted output, when it is for batch size [n], has the
    shape (n, s, d); otherwise the next call starts it anew. *)
Definition output_ok (n s d : nat) (self : TransformerACT) : Prop :=
  match weighted_output self with
  | None => True
  | Some wo => length wo = n -> has_shape3 n s d wo
  end.

(** The next call on a batch of size [n] starts the weighted output anew. *)
Definition no_output_for (n : nat) (self : TransformerACT) : Prop :=
  match weighted_output self with
  | None => True
  | Some wo => length wo <> n
  end.

(** The token vectors [xs] the calls [args] get at position (b, j). *)
Definition tokens_at (b j : nat) (args : list call_arg) (xs : list (list Q))
    : Prop :=
  Forall2 (fun a x => exists input lengths,
             unpack_input a = Ok (input, lengths) /\ at2 input b j = Some x)
    args xs.

(** Feature [k] of token (b, j) of a rank-3 tensor. *)
Definition at3 (t : tensor3) (b j k : nat) : option Q :=
  at2 t b j ≫= fun v => v !! k.

(** Feature [k] of the sum of the vectors [xs] with the weights [ws]. *)
Definition weighted_sum (ws : list Q) (xs : list (list Q)) (k : nat) : Q :=
  Qsum (zip_with (fun wt x => wt * default 0 (x !! k)) ws xs).

(** ** compute_output_shape *)

(** The argument of [compute_output_shape]: a list of shapes, or one shape;
    the type of a dimension (a number, or [None] for one that is not known)
    is left open. *)
Inductive shape_arg (dim : Type) : Type :=
  | ShapeList (l : list (list dim))
  | ShapeTuple (s : list dim).
Arguments ShapeList {dim} l.
Arguments ShapeTuple {dim} s.

(** An entry of the list [compute_output_shape] returns: a shape, or a
    single dimension. *)
Inductive shape_entry (dim : Type) : Type :=
  | Shape (s : list dim)
  | Dim (d : dim).
Arguments Shape {dim} s.
Arguments Dim {dim} d.

(** The exceptions of the interpreter that [compute_output_shape] can end
    in. *)
Inductive lookup_exn : Type :=
  | IndexError
  | UnboundLocalError.

(** In the branch for a single shape the list is built and dropped, not
    assigned, so that evaluating [result] raises; [result += result[0][:-1]]
    extends the list by the dimensions of the first shape but the last, one
    entry each. *)
Definition compute_output_shape {dim} (self : TransformerACT)
    (input_shape : shape_arg dim) : lookup_exn + list (shape_entry dim) :=
  match input_shape with
  | ShapeList [] => inl IndexError
  | ShapeList ([] :: _) => inl IndexError
  | ShapeList ((d0 :: ds) :: _) =>
      let s0 := d0 :: ds in
      let result := [Shape s0; Shape s0; Shape [d0]] in
      if return_step self
      then inr (result ++ (Dim <$> take (length s0 - 1) s0))
      else inr result
  | ShapeTuple _ => inl UnboundLocalError
  end.

(** ** get_config *)

(** The values of a config the layer reads or writes; the entries of the
    base class (name, trainable, dtype) are [CfgOther]. *)
Inductive config_value : Type :=
  | CfgFloat (q : Q)
  | CfgBool (b : bool)
  | CfgOther (s : string).

Abbreviation config := (gmap string config_value).

(** [dict(super().get_config(), halt_epsilon=..., time_penalty=...)]; the
    config of the base class is an argument. *)
Definition get_config (base_config : config) (self : TransformerACT)
    : config :=
  <["time_penalty" := CfgFloat (time_penalty self)]>
    (<["halt_epsilon" := CfgFloat (halt_epsilon self)]> base_config).

(** What [from_config] of the base class does with a config: it calls the
    constructor with the entries of the config as keyword arguments, a
    missing one taking the default of the signature.  [None] when one of
    the three has a value of another type, which the record cannot hold. *)
Definition from_config (c : config) : option TransformerACT :=
  halt_epsilon ← match c !! "halt_epsilon" with
                 | None => Some default_halt_epsilon
                 | Some (CfgFloat q) => Some q
                 | Some _ => None
                 end;
  time_penalty ← match c !! "time_penalty" with
                 | None => Some default_time_penalty
                 | Some (CfgFloat q) => Some q
                 | Some _ => None
                 end;
  return_step ← match c !! "return_step" with
                | None => Some false
                | Some (CfgBool b) => Some b
                | Some _ => None
                end;
  Some (__init__ halt_epsilon time_penalty return_step).

(** [layer0] made with [return_step=True]. *)
Definition layer0_with_steps : TransformerACT :=
  {| halt_epsilon := default_halt_epsilon;
     time_penalty := default_time_penalty;
     return_step := true;
     ponder_cost := None;
     weighted_output := None;
     zeros_like_input := None;
     control := None;
     weights := Some weights0;
     losses := [] |}.

(** The second call of [layer0], on the same tokens. *)
Definition locals1 : locals :=
  call_locals softsign_sigmoid layer1 weights0 tokens0 None.

(** ** What a call starts from *)

(** The cell [c] is the control state of position (b, j) that a call of
    [self] on a batch of size [n] starts from: what the layer has stored
    for the position, or, when the call is the one that makes the control
    tensors, the whole budget, the remainder 1 and no step. *)
Definition starts_from (self : TransformerACT) (n b j : nat) (c : cell)
    : Prop :=
  (forall ctl, control self = Some ctl -> batch_size ctl = n ->
     cell_of ctl b j = Some c) /\
  (fresh_for n self ->
   c = {| c_budget := 1 - halt_epsilon self; c_remainder := 1;
          c_steps := 0 |}).

(** The halting value of a token with the features [x]: the logistic
    function of the dense unit with one output. *)
Definition halting_value (sigmoid : Q -> Q) (w : halting_weights)
    (x : list Q) : Q :=
  sigmoid (dot_vec x (column (halting_kernel w) 0)
           + default 0 (head (halting_biases w))).

End ACT.

(** ** TransformerBlock and its layers *)

Module Block.

Import Tensor.

#[local] Open Scope R_scope.

Abbreviation rtensor1 := (list R).
Abbreviation rtensor2 := (list (list R)).
Abbreviation rtensor3 := (list (list (list R))).

(** ** Backend operations over the reals *)

Definition Rsum (l : list R) : R := foldr Rplus 0 l.

(** Broadcasting of two lists along an axis: a list of length 1 is paired
    with every entry of the other one. *)
Definition bzip {A B C} (f : A -> B -> C) (l : list A) (k : list B)
    : list C :=
  match l, k with
  | _, [b] => (fun a => f a b) <$> l
  | [a], _ => (fun b => f a b) <$> k
  | _, _ => zip_with f l k
  end.

(** An elementwise operation on two rank-3 tensors, with broadcasting. *)
Definition bcast3 (f : R -> R -> R) (x y : rtensor3) : rtensor3 :=
  bzip (bzip (bzip f)) x y.

(** A (d,) tensor seen as a (1, 1, d) tensor, as broadcasting does. *)
Definition expand3 (v : rtensor1) : rtensor3 := [[v]].

Definition t3_map (f : R -> R) (x : rtensor3) : rtensor3 :=
  ew1 (fun v : list R => f <$> v) x.

Definition mean (v : list R) : R := Rsum v / INR (length v).

Definition entry3 (x : rtensor3) (b j k : nat) : R :=
  default 0 (x !! b ≫= fun m => m !! j ≫= fun v => v !! k).

(** [K.mean(x, axis, keepdims=True)] of a rank-3 tensor. *)
Definition K_mean_last (x : rtensor3) : rtensor3 :=
  ew1 (fun v : list R => [mean v]) x.

Definition K_mean_middle (x : rtensor3) : rtensor3 :=
  let '(_, s, d) := K_int_shape3 x in
  (fun b => [(fun k => mean ((fun j => entry3 x b j k) <$> seq 0 s))
               <$> seq 0 d]) <$> seq 0 (length x).

Definition K_mean_first (x : rtensor3) : rtensor3 :=
  let '(n, s, d) := K_int_shape3 x in
  [(fun j => (fun k => mean ((fun b => entry3 x b j k) <$> seq 0 n))
               <$> seq 0 d) <$> seq 0 s].

Definition K_mean (x : rtensor3) (axis : Z) : result rtensor3 :=
  if decide (axis = -1 \/ axis = 2)%Z then Ok (K_mean_last x)
  else if decide (axis = -2 \/ axis = 1)%Z then Ok (K_mean_middle x)
  else if decide (axis = -3 \/ axis = 0)%Z then Ok (K_mean_first x)
  else Raise ValueError.

Definition K_square (x : rtensor3) : rtensor3 := t3_map (fun a => a * a) x.
Definition K_sqrt (x : rtensor3) : rtensor3 := t3_map sqrt x.

(** ** gelu *)

Definition gelu (x : R) : R :=
  let c := sqrt (2 / PI) in
  0.5 * x * (1 + tanh (c * (x + 0.044715 * x ^ 3))).

(** ** LayerNormalization *)

Record LayerNormalization : Type := {
  ln_name : string;
  axis : Z;
  (* gain and bias, [None] until [build] *)
  ln_weights : option (rtensor1 * rtensor1)
}.

Definition LayerNormalization_init (axis : Z) (name : string)
    : LayerNormalization :=
  {| ln_name := name; axis := axis; ln_weights := None |}.

(** [build]: gain of ones and bias of zeros, of the size of the last
    dimension of the input. *)
Definition LayerNormalization_build (self : LayerNormalization)
    (input_shape : nat * nat * nat) : LayerNormalization :=
  let dim := input_shape.2 in
  {| ln_name := ln_name self;
     axis := axis self;
     ln_weights := Some (repeat 1 dim, repeat 0 dim) |}.

Definition LayerNormalization_call (self : LayerNormalization)
    (inputs : rtensor3) : result rtensor3 :=
  '(gain, bias) ← match ln_weights self with
                  | Some w => Ok w
                  | None => Raise AttributeError
                  end;
  mean_ ← K_mean inputs (axis self);
  variance ← K_mean (K_square (bcast3 Rminus inputs mean_)) (axis self);
  let epsilon := 1e-5 in
  let normalized_inputs :=
    bcast3 Rdiv (bcast3 Rminus inputs mean_)
      (K_sqrt (t3_map (fun a => a + epsilon) variance)) in
  let result_ :=
    bcast3 Rplus (bcast3 Rmult (expand3 gain) normalized_inputs)
      (expand3 bias) in
  Ok result_.

(** What Keras does when a layer object is applied: [build] on the first
    use, then [call]. *)
Definition LayerNormalization_apply (self : LayerNormalization)
    (inputs : rtensor3) : result (LayerNormalization * rtensor3) :=
  let self1 :=
    match ln_weights self with
    | Some _ => self
    | None => LayerNormalization_build self (K_int_shape3 inputs)
    end in
  out ← LayerNormalization_call self1 inputs;
  Ok (self1, out).

(** ** TransformerTransition *)

Definition K_dot (a w : rtensor2) : rtensor2 :=
  (fun row : list R =>
     (fun c => Rsum (zip_with Rmult row
                       ((fun wrow : list R => default 0 (wrow !! c)) <$> w)))
       <$> seq 0 (length (default [] (head w)))) <$> a.

Definition K_bias_add (a : rtensor2) (b : rtensor1) : rtensor2 :=
  (fun row => zip_with Rplus row b) <$> a.

(** A list cut into consecutive pieces of length [n]. *)
Definition chunks {A} (n : nat) (l : list A) : list (list A) :=
  (fun i => take n (drop (i * n) l)) <$> seq 0 (length l / n).

Record transition_weights : Type := {
  weights1 : rtensor2;      (* (d_model, size_multiplier * d_model) *)
  biases1 : rtensor1;       (* (size_multiplier * d_model,) *)
  weights2 : rtensor2;      (* (size_multiplier * d_model, d_model) *)
  biases2 : rtensor1        (* (d_model,) *)
}.

Record TransformerTransition : Type := {
  tt_name : string;
  tt_activation : R -> R;
  tt_size_multiplier : nat;
  tt_weights : option transition_weights
}.

(** The argument [activation]: a name, a callable or [None]. *)
Inductive activation_arg : Type :=
  | ActName (s : string)
  | ActCallable (f : R -> R)
  | ActNone.

Section Keras.

(** Objects of the host library and of the attention module, which this
    file does not define.  Their constructors are taken to return; what
    they check of their own arguments is not modelled. *)

(** [activations.get] on a name other than 'gelu'. *)
Variable keras_activation : string -> R -> R.
(** The values the initialiser 'glorot_uniform' draws for a shape. *)
Variable glorot_uniform : nat -> nat -> rtensor2.
(** [Dropout(rate, name)] as a function of a tensor. *)
Variable Dropout : R -> string -> rtensor3 -> rtensor3.
(** [Conv1D(filters, kernel_size, ..., name, activation)] as a function of a
    tensor. *)
Variable Conv1D : nat -> nat -> string -> activation_arg ->
                  rtensor3 -> rtensor3.

Definition activations_get (a : activation_arg) : R -> R :=
  match a with
  | ActName s => if decide (s = "gelu") then gelu else keras_activation s
  | ActCallable f => f
  | ActNone => fun x => x
  end.

Definition TransformerTransition_init (activation : activation_arg)
    (size_multiplier : nat) (name : string) : TransformerTransition :=
  {| tt_name := name;
     tt_activation := activations_get activation;
     tt_size_multiplier := size_multiplier;
     tt_weights := None |}.

Definition TransformerTransition_build (self : TransformerTransition)
    (input_shape : nat * nat * nat) : TransformerTransition :=
  let d_model := input_shape.2 in
  let hidden := (tt_size_multiplier self * d_model)%nat in
  {| tt_name := tt_name self;
     tt_activation := tt_activation self;
     tt_size_multiplier := tt_size_multiplier self;
     tt_weights :=
       Some {| weights1 := glorot_uniform d_model hidden;
               biases1 := repeat 0 hidden;
               weights2 := glorot_uniform hidden d_model;
               biases2 := repeat 0 d_model |} |}.

Definition TransformerTransition_call (self : TransformerTransition)
    (inputs : rtensor3) : result rtensor3 :=
  w ← match tt_weights self with
      | Some w => Ok w
      | None => Raise AttributeError
      end;
  let '(_, sequence_length, d_model) := K_int_shape3 inputs in
  let step1 :=
    (fun row : list R => tt_activation self <$> row)
      <$> K_bias_add (K_dot (concat inputs) (weights1 w)) (biases1 w) in
  let step2 := K_bias_add (K_dot step1 (weights2 w)) (biases2 w) in
  (* reshape to (-1,) + input_shape[-2:] *)
  Ok (chunks sequence_length (chunks d_model (concat step2))).

Definition TransformerTransition_apply (self : TransformerTransition)
    (inputs : rtensor3) : result (TransformerTransition * rtensor3) :=
  let self1 :=
    match tt_weights self with
    | Some _ => self
    | None => TransformerTransition_build self (K_int_shape3 inputs)
    end in
  out ← TransformerTransition_call self1 inputs;
  Ok (self1, out).

(** ** TransformerBlock *)

(** The values a block can be called with. *)
Inductive pyobj : Type :=
  | PyNone
  | PyInt (z : Z)
  | PyStr (s : string)
  | PyTensor (t : rtensor3)            (* a float tensor of rank 3 *)
  | PyLengths (l : list (list Z))      (* an integer tensor of shape (B, 1) *)
  | PyList (l : list pyobj)
  | PyTuple (l : list pyobj).

(** Whether [len] of a backend tensor gives its first dimension (eager
    tensors, arrays) or raises (symbolic tensors). *)
Variable tensors_have_len : bool.

Definition py_len (o : pyobj) : result nat :=
  match o with
  | PyList l | PyTuple l => Ok (length l)
  | PyStr s => Ok (String.length s)
  | PyTensor t => if tensors_have_len then Ok (length t) else Raise TypeError
  | PyLengths l =>
      if tensors_have_len then Ok (length l) else Raise TypeError
  | PyNone | PyInt _ => Raise TypeError
  end.

(** The attention layer is a callable on the list [input, lengths]. *)
Definition attention : Type := pyobj -> pyobj -> result rtensor3.

Variable MultiHeadSelfAttention :
  nat -> nat -> bool -> R -> option nat -> option nat -> string -> attention.

(** The transition layer of a block: a [TransformerTransition], or the
    [Conv1D] made by the first call. *)
Inductive transition : Type :=
  | DotTransition (t : TransformerTransition)
  | CnnTransition (conv : rtensor3 -> rtensor3).

Record TransformerBlock : Type := {
  size_multiplier : nat;
  name : string;
  activation : activation_arg;
  attention_layer : attention;
  norm1_layer : LayerNormalization;
  dropout_layer : rtensor3 -> rtensor3;
  norm2_layer : LayerNormalization;
  transition_type : string;
  transition_layer : option transition;
  vanilla_wiring : bool
}.

Definition __init__ (name : string) (d_model num_heads : nat)
    (transition_type : string) (residual_dropout attention_dropout : R)
    (activation : activation_arg) (compression_window_size : option nat)
    (size_multiplier : nat) (use_masking : bool)
    (local_masking : option nat) (vanilla_wiring : bool)
    : result TransformerBlock :=
  let attention_layer :=
    MultiHeadSelfAttention d_model num_heads use_masking attention_dropout
      compression_window_size local_masking (name +:+ "_self_attention") in
  let norm1_layer := LayerNormalization_init (-1) (name +:+ "_normalization1") in
  let dropout_layer :=
    if Rlt_dec 0 residual_dropout
    then Dropout residual_dropout (name +:+ "_dropout")
    else fun x => x in
  let norm2_layer := LayerNormalization_init (-1) (name +:+ "_normalization2") in
  transition ←
    (if decide (transition_type = "dot")
     then Ok ("dot",
              Some (DotTransition
                      (TransformerTransition_init activation size_multiplier
                         (name +:+ "_transition"))))
     else if decide (transition_type = "cnn")
     then Ok ("cnn", None)
     else Raise NotImplementedError);
  Ok {| size_multiplier := size_multiplier;
        name := name;
        activation := activation;
        attention_layer := attention_layer;
        norm1_layer := norm1_layer;
        dropout_layer := dropout_layer;
        norm2_layer := norm2_layer;
        transition_type := transition.1;
        transition_layer := transition.2;
        vanilla_wiring := vanilla_wiring |}.

(** The first lines of [__call__]: [input] and [lengths] from [_input]. *)
Definition unpack_input (_input : pyobj) : result (pyobj * pyobj) :=
  match _input with
  | PyList [input; lengths] => Ok (input, lengths)
  | _ =>
      n ← py_len _input;
      if decide (n = 3%nat) then Ok (_input, PyNone) else Raise ValueError
  end.

(** The layer [Add] on a list of two tensors. *)
Definition addition_layer (a : pyobj) (b : rtensor3) : result rtensor3 :=
  match a with
  | PyTensor x =>
      if decide (shape_of3 x = shape_of3 b)
      then Ok (ew3 Rplus x b)
      else Raise ValueError
  | _ => Raise TypeError
  end.

Definition transition_apply (t : option transition) (x : rtensor3)
    : result (option transition * rtensor3) :=
  match t with
  | Some (DotTransition l) =>
      '(l1, out) ← TransformerTransition_apply l x;
      Ok (Some (DotTransition l1), out)
  | Some (CnnTransition conv) => Ok (t, conv x)
  | None => Raise TypeError
  end.

Definition __call__ (self : TransformerBlock) (_input : pyobj)
    : result (TransformerBlock * rtensor3) :=
  '(input, lengths) ← unpack_input _input;
  output ← attention_layer self input lengths;
  let transition_layer1 :=
    match transition_layer self with
    | None =>
        if decide (transition_type self = "cnn")
        then Some (CnnTransition
                     (Conv1D (K_int_shape3 output).2
                        (size_multiplier self)
                        (name self +:+ "_transition") (activation self)))
        else None
    | Some t => Some t
    end in
  post_residual1 ←
    (if vanilla_wiring self
     then addition_layer input (dropout_layer self output)
     else sum ← addition_layer input output; Ok (dropout_layer self sum));
  '(norm1_layer1, norm1_output) ←
    LayerNormalization_apply (norm1_layer self) post_residual1;
  '(transition_layer2, output) ←
    transition_apply transition_layer1 norm1_output;
  post_residual2 ←
    (if vanilla_wiring self
     then addition_layer (PyTensor norm1_output) (dropout_layer self output)
     else sum ← addition_layer (PyTensor norm1_output) output;
          Ok (dropout_layer self sum));
  '(norm2_layer1, output) ←
    LayerNormalization_apply (norm2_layer self) post_residual2;
  Ok ({| size_multiplier := size_multiplier self;
         name := name self;
         activation := activation self;
         attention_layer := attention_layer self;
         norm1_layer := norm1_layer1;
         dropout_layer := dropout_layer self;
         norm2_layer := norm2_layer1;
         transition_type := transition_type self;
         transition_layer := transition_layer2;
         vanilla_wiring := vanilla_wiring self |},
      output).

(** The block called on each input in turn. *)
Fixpoint call_many (self : TransformerBlock) (inputs : list pyobj)
    : result (TransformerBlock * list rtensor3) :=
  match inputs with
  | [] => Ok (self, [])
  | x :: rest =>
      '(self1, out) ← __call__ self x;
      '(self2, outs) ← call_many self1 rest;
      Ok (self2, out :: outs)
  end.

Definition outputs (r : result (TransformerBlock * list rtensor3))
    : result (list rtensor3) :=
  '(_, outs) ← r; Ok outs.

(** [self] with another value of [vanilla_wiring]. *)
Definition with_wiring (v : bool) (self : TransformerBlock)
    : TransformerBlock :=
  {| size_multiplier := size_multiplier self;
     name := name self;
     activation := activation self;
     attention_layer := attention_layer self;
     norm1_layer := norm1_layer self;
     dropout_layer := dropout_layer self;
     norm2_layer := norm2_layer self;
     transition_type := transition_type self;
     transition_layer := transition_layer self;
     vanilla_wiring := v |}.

Definition rewire (v : bool) (r : result (TransformerBlock * rtensor3))
    : result (TransformerBlock * rtensor3) :=
  '(b, o) ← r; Ok (with_wiring v b, o).

End Keras.

(** The tensor [x] with the number [c b j] added to every feature of the
    token at position (b, j). *)
Definition add_per_position (c : nat -> nat -> R) (x : rtensor3) : rtensor3 :=
  imap (fun b row => imap (fun j v => (fun a => a + c b j) <$> v) row) x.

(** A token vector minus its mean. *)
Definition centre (v : list R) : list R := (fun a => a - mean v) <$> v.

Definition norm0 : LayerNormalization :=
  {| ln_name := "n"; axis := -1; ln_weights := Some ([2; 3], [1; 0]) |}.

(** *** A concrete block *)

(** Stand-ins for the objects of the host library: an attention layer that
    returns its input tensor, initial weights 1/2, and the identity for
    dropout and convolution. *)
Definition attention0 : attention :=
  fun input _ =>
    match input with
    | PyTensor t => Ok t
    | _ => Raise TypeError
    end.

Definition init0 (vanilla_wiring : bool) : result TransformerBlock :=
  __init__ (fun _ x => x) (fun _ _ t => t) (fun _ _ _ _ _ _ _ => attention0)
    "block" 2 1 "dot" 0 0 (ActName "gelu") None 4 true None vanilla_wiring.

Definition block0 (vanilla_wiring : bool) : TransformerBlock :=
  {| size_multiplier := 4;
     name := "block";
     activation := ActName "gelu";
     attention_layer := attention0;
     norm1_layer := LayerNormalization_init (-1) "block_normalization1";
     dropout_layer := fun x => x;
     norm2_layer := LayerNormalization_init (-1) "block_normalization2";
     transition_type := "dot";
     transition_layer :=
       Some (DotTransition
               (TransformerTransition_init (fun _ x => x) (ActName "gelu") 4
                  "block_transition"));
     vanilla_wiring := vanilla_wiring |}.

Definition inputs0 : list pyobj :=
  [PyList [PyTensor [[ [1; 2]; [3; 5] ]]; PyLengths [[2%Z]]];
   PyList [PyTensor [[ [0; 4]; [1; 1] ]]; PyLengths [[1%Z]]]].

(** ** The layers position by position *)

(** What [LayerNormalization.call] with [axis = -1] does to the vector of
    one position. *)
Definition norm_token (gain bias v : list R) : list R :=
  bzip Rplus
    (bzip Rmult gain
       ((fun a => a / sqrt (mean ((fun a => a * a) <$> centre v) + 1e-5))
          <$> centre v))
    bias.

(** What [TransformerTransition.call] does to the vector of one position:
    the two dense layers on the matrix with the single row [v]. *)
Definition transition_token (act : R -> R) (w : transition_weights)
    (v : list R) : list R :=
  default []
    (head
       (K_bias_add
          (K_dot
             ((fun row : list R => act <$> row)
                <$> K_bias_add (K_dot [v] (weights1 w)) (biases1 w))
             (weights2 w))
          (biases2 w))).

(** The layers of a block have their weights: both normalisation layers
    are built, and the transition layer is a built [TransformerTransition]
    or a convolution. *)
Definition block_built (self : TransformerBlock) : Prop :=
  is_Some (ln_weights (norm1_layer self)) /\
  is_Some (ln_weights (norm2_layer self)) /\
  match transition_layer self with
  | Some (DotTransition t) => is_Some (tt_weights t)
  | Some (CnnTransition _) => True
  | None => False
  end.

(** *** Concrete layers *)

(** A built transition layer for one feature, with the identity as
    activation. *)
Definition transition0 : TransformerTransition :=
  {| tt_name := "t";
     tt_activation := fun a => a;
     tt_size_multiplier := 1;
     tt_weights := Some {| weights1 := [[2]]; biases1 := [1];
                           weights2 := [[3]]; biases2 := [0] |} |}.

(** [block0] with the transition type 'cnn'. *)
Definition init0_cnn : result TransformerBlock :=
  __init__ (fun _ x => x) (fun _ _ t => t) (fun _ _ _ _ _ _ _ => attention0)
    "block" 2 1 "cnn" 0 0 (ActName "gelu") None 4 true None false.

Definition block0_cnn : TransformerBlock :=
  {| size_multiplier := 4;
     name := "block";
     activation := ActName "gelu";
     attention_layer := attention0;
     norm1_layer := LayerNormalization_init (-1) "block_normalization1";
     dropout_layer := fun x => x;
     norm2_layer := LayerNormalization_init (-1) "block_normalization2";
     transition_type := "cnn";
     transition_layer := None;
     vanilla_wiring := false |}.

Definition input0 : pyobj :=
  PyList [PyTensor [[ [1; 2]; [3; 5] ]]; PyLengths [[2%Z]]].

End Block.

(** * Properties of TransformerACT *)

Module ACTProofs.

Import Tensor ACT.

#[local] Open Scope Q_scope.

(** Linear arithmetic over the rationals. *)
Ltac lra := Lqa.lra.

(** ** Entries and shapes of elementwise operations *)

Section TensorFacts.

Context {A B C : Type}.

Lemma at2_ew1 (f : A -> B) (t : list (list A)) b j :
  at2 (ew1 f t) b j = f <$> at2 t b j.
Proof.
  unfold at2, ew1. rewrite list_lookup_fmap.
  destruct (t !! b) as [row|]; simpl; [|done].
  by rewrite list_lookup_fmap.
Qed.

Lemma at2_ew2 (f : A -> B -> C) (a : list (list A)) (c : list (list B)) b j :
  at2 (ew2 f a c) b j =
  match at2 a b j, at2 c b j with
  | Some x, Some y => Some (f x y)
  | _, _ => None
  end.
Proof.
  unfold at2, ew2. rewrite lookup_zip_with.
  destruct (a !! b) as [ra|], (c !! b) as [rc|]; simpl; try done.
  - rewrite lookup_zip_with.
    by destruct (ra !! j), (rc !! j).
  - by destruct (ra !! j).
Qed.

Lemma has_shape2_ew1 (f : A -> B) n s (t : list (list A)) :
  has_shape2 n s t -> has_shape2 n s (ew1 f t).
Proof.
  intros [Hl Hr]. split; unfold ew1.
  - by rewrite length_fmap.
  - apply Forall_fmap. eapply Forall_impl; [exact Hr|].
    intros row Hrow. simpl. by rewrite length_fmap.
Qed.

Lemma has_shape2_ew2 (f : A -> B -> C) n s
    (a : list (list A)) (c : list (list B)) :
  has_shape2 n s a -> has_shape2 n s c -> has_shape2 n s (ew2 f a c).
Proof.
  intros [Hla Hra] [Hlc Hrc]. split; unfold ew2.
  - rewrite length_zip_with. lia.
  - apply Forall_lookup. intros i row Hi.
    apply lookup_zip_with_Some in Hi as (ra & rc & -> & Ha & Hc).
    rewrite length_zip_with.
    rewrite Forall_lookup in Hra. rewrite Forall_lookup in Hrc.
    rewrite (Hra _ _ Ha), (Hrc _ _ Hc). lia.
Qed.

Lemma has_shape2_at2 n s (t : list (list A)) (b j : nat) :
  has_shape2 n s t -> (b < n)%nat -> (j < s)%nat -> is_Some (at2 t b j).
Proof.
  intros [Hl Hr] Hb Hj. unfold at2.
  destruct (lookup_lt_is_Some_2 t b) as [row Hrow]; [lia|].
  rewrite Hrow. simpl. apply lookup_lt_is_Some_2.
  rewrite Forall_lookup in Hr. rewrite (Hr _ _ Hrow). done.
Qed.

Lemma at2_has_shape2 n s (t : list (list A)) (b j : nat) x :
  has_shape2 n s t -> at2 t b j = Some x -> (b < n)%nat /\ (j < s)%nat.
Proof.
  intros [Hl Hr] H. unfold at2 in H.
  destruct (t !! b) as [row|] eqn:Hrow; simpl in H; [|done].
  rewrite Forall_lookup in Hr. specialize (Hr _ _ Hrow).
  apply lookup_lt_Some in Hrow. apply lookup_lt_Some in H. lia.
Qed.

Lemma K_int_shape2_has_shape2 n s (t : list (list A)) :
  has_shape2 n s t -> (0 < n)%nat -> K_int_shape2 t = (n, s).
Proof.
  intros [Hl Hr] Hn. unfold K_int_shape2.
  destruct t as [|row t]; simpl in *; [lia|].
  apply Forall_cons in Hr as [Hrow _]. by rewrite Hl, Hrow.
Qed.

End TensorFacts.

Lemma at2_K_switch {A} (c : list (list bool)) (t e : list (list A)) b j :
  at2 (K_switch c t e) b j =
  match at2 c b j, at2 t b j, at2 e b j with
  | Some ci, Some ti, Some ei => Some (if ci then ti else ei)
  | _, _, _ => None
  end.
Proof.
  unfold K_switch. rewrite !at2_ew2.
  by destruct (at2 c b j), (at2 t b j), (at2 e b j).
Qed.

Lemma has_shape2_K_switch {A} n s (c : list (list bool))
    (t e : list (list A)) :
  has_shape2 n s c -> has_shape2 n s t -> has_shape2 n s e ->
  has_shape2 n s (K_switch c t e).
Proof.
  intros Hc Ht He. unfold K_switch.
  by repeat apply has_shape2_ew2.
Qed.

(** ** The halting tensor and the length mask have the shape of the input *)

Lemma length_concat_rect {A} s (l : list (list A)) :
  Forall (fun row => length row = s) l ->
  length (concat l) = (length l * s)%nat.
Proof.
  induction 1 as [|row l Hrow _ IH]; simpl; [done|].
  rewrite length_app, IH, Hrow. done.
Qed.

Lemma has_shape2_K_reshape_rows {A} n s (a : list (list A)) :
  length (concat a) = (n * s)%nat -> (0 < s)%nat ->
  has_shape2 n s (K_reshape_rows a s).
Proof.
  intros Hlen Hs. unfold K_reshape_rows. simpl.
  rewrite Hlen, Nat.div_mul by lia. split.
  - by rewrite length_fmap, length_seq.
  - apply Forall_fmap, Forall_lookup. intros i k Hk. simpl.
    apply lookup_seq in Hk as [-> Hi]. simpl.
    rewrite length_take, length_drop, Hlen. nia.
Qed.

Section Shapes.

Variable sigmoid : Q -> Q.

Lemma K_int_shape3_has_shape3 {A} n s d (t : list (list (list A))) :
  has_shape3 n s d t -> (0 < n)%nat ->
  exists d', K_int_shape3 t = (n, s, d').
Proof.
  intros [Hl Hr] Hn. unfold K_int_shape3.
  destruct t as [|m t]; simpl in *; [lia|].
  apply Forall_cons in Hr as [[Hm _] _]. rewrite Hl, Hm. eauto.
Qed.

Lemma has_shape2_halting_unit n s d w (input : tensor3) :
  has_shape3 n s d input -> (0 < s)%nat -> weights_ok w ->
  has_shape2 n s (halting_unit sigmoid w input).
Proof.
  intros Hin Hs [Hk Hb]. unfold halting_unit.
  destruct (Nat.eq_dec n 0%nat) as [->|Hn].
  - destruct Hin as [Hl _]. destruct input; [|done].
    simpl. unfold K_sigmoid, K_reshape_rows. simpl. by split.
  - destruct (K_int_shape3_has_shape3 n s d input Hin) as [d' ->]; [lia|].
    apply has_shape2_ew1, has_shape2_K_reshape_rows; [|done].
    destruct Hin as [Hl Hr].
    erewrite (length_concat_rect 1%nat).
    + unfold K_bias_add, K_dot, K_reshape_tokens.
      rewrite !length_fmap. rewrite (length_concat_rect s); [lia|].
      eapply Forall_impl; [exact Hr|]. by intros m [Hm _].
    + unfold K_bias_add, K_dot. apply Forall_fmap, Forall_fmap.
      apply Forall_forall. intros row _. simpl.
      rewrite length_zip_with, length_fmap, length_seq, Hk, Hb. done.
Qed.

(** Every entry of the halting tensor is a value of the logistic function. *)
Lemma halting_unit_sigmoid w (input : tensor3) b j p :
  at2 (halting_unit sigmoid w input) b j = Some p ->
  exists z, p = sigmoid z.
Proof.
  unfold halting_unit. destruct (K_int_shape3 input) as [[? ?] ?].
  unfold K_sigmoid. rewrite at2_ew1.
  destruct (at2 _ b j) as [z|]; simpl; [|done].
  intros [= <-]. eauto.
Qed.

End Shapes.

Lemma has_shape2_mask n s (lengths : list (list Z)) :
  has_shape2 n 1 lengths ->
  has_shape2 n s (K_squeeze1 (tf_sequence_mask lengths s)).
Proof.
  intros [Hl Hr]. unfold K_squeeze1, tf_sequence_mask, ew1. split.
  - by rewrite !length_fmap.
  - apply Forall_fmap, Forall_fmap.
    eapply Forall_impl; [exact Hr|]. intros row Hrow. simpl.
    destruct row as [|len [|? ?]]; simpl in Hrow; try done.
    simpl. rewrite app_nil_r, length_fmap, length_seq. done.
Qed.

Lemma at2_mask s (lengths : list (list Z)) (b j : nat) len :
  lengths !! b = Some [len] -> (j < s)%nat ->
  at2 (K_squeeze1 (tf_sequence_mask lengths s)) b j
  = Some (Z.of_nat j <? len)%Z.
Proof.
  intros Hb Hj. unfold at2, K_squeeze1, tf_sequence_mask, ew1.
  rewrite !list_lookup_fmap, Hb. simpl.
  rewrite app_nil_r, list_lookup_fmap, lookup_seq_lt by done. done.
Qed.

(** ** The control tensors keep their shape *)

Lemma initialize_control_tensors_ok self n s (halting : tensor2) :
  has_shape2 n s halting ->
  ctl_ok n s (initialize_control_tensors self halting n).
Proof.
  intros Hh. split; simpl;
    try (unfold t2_sub_scalar, K_ones_like2, K_zeros_like2;
         by repeat apply has_shape2_ew1).
  - intros b j x. unfold K_zeros_like2. rewrite at2_ew1.
    destruct (at2 halting b j); simpl; congruence.
  - intros b j x. unfold K_ones_like2. rewrite at2_ew1.
    destruct (at2 halting b j); simpl; congruence.
Qed.

Lemma has_shape2_mask_length_if_provided n s (t : tensor2) lengths :
  has_shape2 n s t -> lengths_ok n lengths ->
  has_shape2 n s (mask_length_if_provided t lengths).
Proof.
  intros Ht Hl. destruct lengths as [l|]; [|done].
  unfold mask_length_if_provided, lengths_ok in *.
  destruct (Nat.eq_dec n 0%nat) as [->|Hn].
  - destruct Ht as [Ht _]. destruct t; [by split|done].
  - rewrite (K_int_shape2_has_shape2 n s) by (done || lia).
    apply has_shape2_ew2; [done|].
    by apply has_shape2_ew1, has_shape2_mask.
Qed.

Lemma at2_mask_length_if_provided n s (t : tensor2) lengths (b j : nat) x :
  has_shape2 n s t -> lengths_ok n lengths -> at2 t b j = Some x ->
  at2 (mask_length_if_provided t lengths) b j
  = Some (masked x (len_at lengths b) j).
Proof.
  intros Ht Hl Hx. destruct lengths as [l|]; [|done].
  unfold mask_length_if_provided, lengths_ok, len_at, masked in *.
  destruct (at2_has_shape2 _ _ _ _ _ _ Ht Hx) as [Hb Hj].
  rewrite (K_int_shape2_has_shape2 n s) by (done || lia).
  destruct Hl as [Hlen Hrows].
  destruct (lookup_lt_is_Some_2 l b) as [row Hrow]; [lia|].
  rewrite Forall_lookup in Hrows. specialize (Hrows _ _ Hrow).
  destruct row as [|len [|? ?]]; simpl in Hrows; try done.
  unfold t2_mul, K_cast_float32.
  rewrite at2_ew2, Hx, at2_ew1, (at2_mask s l b j len) by done.
  rewrite Hrow. done.
Qed.

(** ** What one call does at one position *)

Section CallFacts.

Variable sigmoid : Q -> Q.

#[local] Abbreviation call_locals := (call_locals sigmoid).
#[local] Abbreviation halting_unit := (halting_unit sigmoid).

(** The lines of [call], as equations on its local values. *)

Lemma l_halting_eq self w input lengths :
  l_halting (call_locals self w input lengths) = halting_unit w input.
Proof. reflexivity. Qed.

Lemma l_control_eq self w input lengths :
  l_control (call_locals self w input lengths) =
  match control self with
  | None =>
      initialize_control_tensors self (halting_unit w input) (length input)
  | Some c =>
      if decide (batch_size c <> length input)
      then initialize_control_tensors self (halting_unit w input)
             (length input)
      else c
  end.
Proof. reflexivity. Qed.

Lemma l_step_is_active_eq self w input lengths :
  let L := call_locals self w input lengths in
  l_step_is_active L = K_greater (halt_budget (l_control L)) 0.
Proof. reflexivity. Qed.

Lemma l_no_further_steps_eq self w input lengths :
  let L := call_locals self w input lengths in
  l_no_further_steps L =
  K_less_equal (t2_sub (halt_budget (l_control L)) (l_halting L)) 0.
Proof. reflexivity. Qed.

Lemma l_halting_prob_eq self w input lengths :
  let L := call_locals self w input lengths in
  l_halting_prob L =
  K_switch (l_step_is_active L)
    (K_switch (l_no_further_steps L) (remainder (l_control L)) (l_halting L))
    (zeros_like_halting (l_control L)).
Proof. reflexivity. Qed.

Lemma l_masked_remainder_eq self w input lengths :
  let L := call_locals self w input lengths in
  l_masked_remainder L =
  mask_length_if_provided (remainder (l_control L)) lengths.
Proof. reflexivity. Qed.

Lemma l_active_steps_eq self w input lengths :
  let L := call_locals self w input lengths in
  l_active_steps L =
  mask_length_if_provided
    (t2_add (active_steps (l_control L))
       (K_switch (l_step_is_active L)
          (ones_like_halting (l_control L))
          (zeros_like_halting (l_control L))))
    lengths.
Proof. reflexivity. Qed.

Lemma l_ponder_cost_eq self w input lengths :
  let L := call_locals self w input lengths in
  l_ponder_cost L =
  t1_scale (time_penalty_t w)
    (K_mean_axis1 (t2_add (l_masked_remainder L) (l_active_steps L))).
Proof. reflexivity. Qed.

Lemma l_remainder_eq self w input lengths :
  let L := call_locals self w input lengths in
  l_remainder L =
  K_switch (l_no_further_steps L) (l_masked_remainder L)
    (t2_sub (l_masked_remainder L) (l_halting L)).
Proof. reflexivity. Qed.

Lemma l_halt_budget_eq self w input lengths :
  let L := call_locals self w input lengths in
  l_halt_budget L = t2_sub (halt_budget (l_control L)) (l_halting L).
Proof. reflexivity. Qed.

Lemma l_step_weighted_output_eq self w input lengths :
  let L := call_locals self w input lengths in
  l_step_weighted_output L =
  if l_any_step_is_active L
  then K_expand_mul (l_halting_prob L) input
  else l_zeros_like_input L.
Proof. reflexivity. Qed.

(** After the initialisation guard the control tensors have the shape of the
    halting tensor. *)
Lemma l_control_ok n s d self w (input : tensor3) lengths :
  ready n s self -> has_shape3 n s d input -> (0 < s)%nat -> weights_ok w ->
  ctl_ok n s (l_control (call_locals self w input lengths)).
Proof.
  intros Hr Hin Hs Hw. rewrite l_control_eq.
  pose proof (has_shape2_halting_unit sigmoid n s d w input Hin Hs Hw) as Hh.
  destruct Hin as [Hlen _]. rewrite Hlen.
  unfold ready in Hr. destruct (control self) as [c|].
  - destruct (decide (batch_size c <> n)) as [Hne|He].
    + by apply initialize_control_tensors_ok.
    + apply Hr. destruct (Nat.eq_dec (batch_size c) n); [done|]. by destruct He.
  - by apply initialize_control_tensors_ok.
Qed.

(** [call] acts position by position: at every position of a well-shaped
    call the local values are those of [cell_step] and [cell_weight]. *)
Lemma call_locals_at n s d self w (input : tensor3) lengths (b j : nat) :
  let L := call_locals self w input lengths in
  ready n s self -> has_shape3 n s d input -> weights_ok w ->
  lengths_ok n lengths -> (b < n)%nat -> (j < s)%nat ->
  exists c p,
    cell_of (l_control L) b j = Some c /\
    at2 (l_halting L) b j = Some p /\
    at2 (l_step_is_active L) b j = Some (cell_active c) /\
    at2 (l_no_further_steps L) b j = Some (cell_exhausts c p) /\
    at2 (l_halting_prob L) b j = Some (cell_weight c p) /\
    at2 (l_masked_remainder L) b j
      = Some (masked (c_remainder c) (len_at lengths b) j) /\
    at2 (l_active_steps L) b j
      = Some (c_steps (cell_step (len_at lengths b) j c p)) /\
    at2 (l_remainder L) b j
      = Some (c_remainder (cell_step (len_at lengths b) j c p)) /\
    at2 (l_halt_budget L) b j
      = Some (c_budget (cell_step (len_at lengths b) j c p)).
Proof.
  intros L Hr Hin Hw Hl Hb Hj.
  assert (Hs : (0 < s)%nat) by lia.
  pose proof (l_control_ok n s d self w input lengths Hr Hin Hs Hw) as Hc.
  pose proof (has_shape2_halting_unit sigmoid n s d w input Hin Hs Hw) as Hh.
  fold L in Hc. destruct Hc as [Hcb Hcr Hcs Hcz Hco Hzv Hov _].
  destruct (has_shape2_at2 _ _ _ b j Hcb Hb Hj) as [hb Ehb].
  destruct (has_shape2_at2 _ _ _ b j Hcr Hb Hj) as [r Er].
  destruct (has_shape2_at2 _ _ _ b j Hcs Hb Hj) as [a Ea].
  destruct (has_shape2_at2 _ _ _ b j Hcz Hb Hj) as [z Ez].
  destruct (has_shape2_at2 _ _ _ b j Hco Hb Hj) as [o Eo].
  destruct (has_shape2_at2 _ _ _ b j Hh Hb Hj) as [p Ep].
  pose proof (Hzv _ _ _ Ez) as ->. pose proof (Hov _ _ _ Eo) as ->.
  exists {| c_budget := hb; c_remainder := r; c_steps := a |}, p.
  assert (Eact : at2 (l_step_is_active L) b j = Some (Qgtb hb 0)).
  { subst L. rewrite l_step_is_active_eq. unfold K_greater.
    by rewrite at2_ew1, Ehb. }
  assert (Enf : at2 (l_no_further_steps L) b j = Some (Qle_bool (hb - p) 0)).
  { subst L. rewrite l_no_further_steps_eq, l_halting_eq.
    unfold K_less_equal, t2_sub. by rewrite at2_ew1, at2_ew2, Ehb, Ep. }
  assert (Emr : at2 (l_masked_remainder L) b j
                = Some (masked r (len_at lengths b) j)).
  { subst L. rewrite l_masked_remainder_eq.
    by apply (at2_mask_length_if_provided n s). }
  repeat split.
  - unfold cell_of. by rewrite Ehb, Er, Ea.
  - done.
  - done.
  - done.
  - subst L. rewrite l_halting_prob_eq, !at2_K_switch.
    rewrite Eact, Enf, Er, l_halting_eq, Ep, Ez.
    unfold cell_weight, cell_active, cell_exhausts. simpl.
    by destruct (Qgtb hb 0), (Qle_bool (hb - p) 0).
  - done.
  - subst L. rewrite l_active_steps_eq.
    apply (at2_mask_length_if_provided n s); [|done|].
    + apply has_shape2_ew2; [done|].
      apply has_shape2_K_switch; [|done|done].
      rewrite l_step_is_active_eq. by apply has_shape2_ew1.
    + unfold t2_add. rewrite at2_ew2, Ea, at2_K_switch, Eact, Eo, Ez.
      unfold cell_active. simpl. done.
  - subst L. rewrite l_remainder_eq, at2_K_switch, Enf, Emr.
    unfold t2_sub. rewrite at2_ew2, Emr, l_halting_eq, Ep.
    unfold cell_step, cell_exhausts. simpl.
    by destruct (Qle_bool (hb - p) 0).
  - subst L. rewrite l_halt_budget_eq, l_halting_eq.
    unfold t2_sub. by rewrite at2_ew2, Ehb, Ep.
Qed.

(** The control tensors [call] leaves behind keep the shape. *)
Lemma store_locals_ok n s d self w (input : tensor3) lengths :
  let L := call_locals self w input lengths in
  ready n s self -> has_shape3 n s d input -> (0 < s)%nat -> weights_ok w ->
  lengths_ok n lengths ->
  exists ctl, control (store_locals self L) = Some ctl /\ ctl_ok n s ctl /\
    remainder ctl = l_remainder L /\ active_steps ctl = l_active_steps L /\
    halt_budget ctl = l_halt_budget L.
Proof.
  intros L Hr Hin Hs Hw Hl.
  pose proof (l_control_ok n s d self w input lengths Hr Hin Hs Hw) as Hc.
  pose proof (has_shape2_halting_unit sigmoid n s d w input Hin Hs Hw) as Hh.
  fold L in Hc. destruct Hc as [Hcb Hcr Hcs Hcz Hco Hzv Hov Hbs].
  eexists. split; [reflexivity|]. split; [|done].
  assert (Hmr : has_shape2 n s (l_masked_remainder L)).
  { subst L. rewrite l_masked_remainder_eq.
    by apply has_shape2_mask_length_if_provided. }
  assert (Hnf : has_shape2 n s (l_no_further_steps L)).
  { subst L. rewrite l_no_further_steps_eq, l_halting_eq.
    by apply has_shape2_ew1, has_shape2_ew2. }
  split;
    cbn [halt_budget remainder active_steps zeros_like_halting
         ones_like_halting batch_size]; try done.
  - subst L. rewrite l_halt_budget_eq, l_halting_eq.
    by apply has_shape2_ew2.
  - subst L. rewrite l_remainder_eq, l_halting_eq.
    apply has_shape2_K_switch; [done|done|]. by apply has_shape2_ew2.
  - subst L. rewrite l_active_steps_eq.
    apply has_shape2_mask_length_if_provided; [|done].
    apply has_shape2_ew2; [done|].
    apply has_shape2_K_switch; [|done|done].
    rewrite l_step_is_active_eq. by apply has_shape2_ew1.
Qed.

End CallFacts.

(** ** Budget conservation at one position *)

Lemma Qgtb_true x y : Qgtb x y = true <-> y < x.
Proof.
  unfold Qgtb. rewrite negb_true_iff, <- not_true_iff_false, Qle_bool_iff.
  split; [apply Qnot_le_lt | apply Qlt_not_le].
Qed.

Lemma Qgtb_false x y : Qgtb x y = false <-> x <= y.
Proof.
  unfold Qgtb. rewrite negb_false_iff. apply Qle_bool_iff.
Qed.

Lemma masked_visible x len j : visible len j -> masked x len j == x.
Proof.
  destruct len as [len|]; simpl; [|reflexivity].
  intros H. apply Z.ltb_lt in H. rewrite H. ring.
Qed.

(** Once the budget is used up, no later call gives the position a weight. *)
Lemma cell_trace_halted j steps : forall c,
  Forall (fun st : option Z * Q => 0 <= st.2) steps ->
  c_budget c <= 0 ->
  Forall (fun cp : cell * Q => cell_active cp.1 = false)
    (cell_trace j c steps).
Proof.
  induction steps as [|[len p] rest IH]; intros c Hp Hc; simpl; [done|].
  apply Forall_cons in Hp as [Hp0 Hp]. simpl in Hp0.
  constructor.
  - simpl. by apply Qgtb_false.
  - apply IH; [done|]. simpl. lra.
Qed.

Lemma trace_weights_halted tr :
  Forall (fun cp : cell * Q => cell_active cp.1 = false) tr ->
  Qsum (trace_weights tr) == 0.
Proof.
  induction 1 as [|[c p] tr Hc _ IH]; simpl; [reflexivity|].
  unfold trace_weights in IH. rewrite IH.
  unfold cell_weight. simpl in *. rewrite Hc. ring.
Qed.

(** Budget conservation at one position: if some call finds the position
    active and exhausting, the weights of all the calls add up to the
    remainder the position started with. *)
Lemma cell_conservation j steps : forall c,
  Forall (fun st : option Z * Q => 0 <= st.2 /\ visible st.1 j) steps ->
  Exists (fun cp : cell * Q =>
            cell_active cp.1 = true /\ cell_exhausts cp.1 cp.2 = true)
    (cell_trace j c steps) ->
  Qsum (trace_weights (cell_trace j c steps)) == c_remainder c.
Proof.
  induction steps as [|[len p] rest IH]; intros c Hst Hex; simpl in *.
  - by apply Exists_nil in Hex.
  - apply Forall_cons in Hst as [[Hp Hv] Hst]. simpl in Hp, Hv.
    assert (Hnn : Forall (fun st : option Z * Q => 0 <= st.2) rest).
    { eapply Forall_impl; [exact Hst|]. by intros ? [? _]. }
    unfold cell_weight at 1. simpl.
    destruct (cell_active c) eqn:Ha.
    + destruct (cell_exhausts c p) eqn:He.
      * fold (trace_weights (cell_trace j (cell_step len j c p) rest)).
        rewrite trace_weights_halted; [ring|].
        apply cell_trace_halted; [done|].
        simpl. by apply Qle_bool_iff.
      * apply Exists_cons in Hex as [[_ Hex]|Hex];
          [simpl in Hex; congruence|].
        fold (trace_weights (cell_trace j (cell_step len j c p) rest)).
        rewrite (IH _ Hst Hex). simpl. rewrite He.
        rewrite masked_visible by done. ring.
    + apply Exists_cons in Hex as [[Hex _]|Hex];
        [simpl in Hex; congruence|].
      exfalso.
      assert (Hh : Forall (fun cp : cell * Q => cell_active cp.1 = false)
                     (cell_trace j (cell_step len j c p) rest)).
      { apply cell_trace_halted; [done|]. simpl.
        apply Qgtb_false in Ha. lra. }
      apply Exists_exists in Hex as ([c' p'] & Hin & Hc' & _).
      rewrite Forall_forall in Hh. specialize (Hh _ Hin). simpl in *.
      congruence.
Qed.

(** ** Sequences of calls, position by position *)

Section Trace.

Variable sigmoid : Q -> Q.

#[local] Abbreviation step_of := (step_of sigmoid).

Lemma call_Ok self w input lengths a :
  unpack_input a = Ok (input, lengths) -> weights self = Some w ->
  exists outs,
    call sigmoid self a
    = Ok (store_locals self (call_locals sigmoid self w input lengths), outs).
Proof.
  intros Ha Hw. unfold call. rewrite Ha. simpl. rewrite Hw. simpl.
  destruct (return_step self); eauto.
Qed.

Lemma arg_ok_unpack n s d a :
  arg_ok n s d a ->
  exists input lengths,
    unpack_input a = Ok (input, lengths) /\
    has_shape3 n s d input /\ lengths_ok n lengths.
Proof.
  destruct a as [input lengths|input|]; simpl; [intros [? ?]|intros ?|done].
  - exists input, (Some lengths). split; [done|]. split; done.
  - exists input, None. split; [done|]. split; done.
Qed.

Lemma step_of_unpack w b j a input lengths p :
  unpack_input a = Ok (input, lengths) ->
  at2 (halting_unit sigmoid w input) b j = Some p ->
  step_of w b j a = (len_at lengths b, p).
Proof.
  destruct a as [i l|i|]; simpl; intros [= <- <-] Hp; by rewrite ?Hp.
Qed.

Lemma l_control_settled self w input lengths ctl :
  control self = Some ctl -> batch_size ctl = length input ->
  l_control (call_locals sigmoid self w input lengths) = ctl.
Proof.
  intros Hc Hb. rewrite l_control_eq, Hc.
  destruct (decide (batch_size ctl <> length input)); done.
Qed.

(** One call of a ready layer, seen from position (b, j). *)
Lemma call_step n s d w (b j : nat) self a :
  ready n s self -> weights self = Some w -> weights_ok w ->
  arg_ok n s d a -> (b < n)%nat -> (j < s)%nat ->
  exists L c p self1 outs ctl1,
    the_locals sigmoid self a = Ok L /\
    call sigmoid self a = Ok (self1, outs) /\
    link b j L (c, p) /\
    control self1 = Some ctl1 /\ ctl_ok n s ctl1 /\
    cell_of ctl1 b j = Some (cell_step (step_of w b j a).1 j c p) /\
    (step_of w b j a).2 = p /\
    weights self1 = Some w /\
    at2 (l_masked_remainder L) b j
      = Some (masked (c_remainder c) (step_of w b j a).1 j) /\
    at2 (l_active_steps L) b j
      = Some (c_steps (cell_step (step_of w b j a).1 j c p)).
Proof.
  intros Hr Hw Hwok Ha Hb Hj.
  destruct (arg_ok_unpack _ _ _ _ Ha) as (input & lengths & Hun & Hin & Hl).
  assert (Hs : (0 < s)%nat) by lia.
  set (L := call_locals sigmoid self w input lengths).
  destruct (call_locals_at sigmoid n s d self w input lengths b j
              Hr Hin Hwok Hl Hb Hj)
    as (c & p & Hc & Hp & Hact & Hnf & Hhp & Hmr & Has & Hrem & Hbud).
  fold L in Hc, Hp, Hact, Hnf, Hhp, Hmr, Has, Hrem, Hbud.
  destruct (store_locals_ok sigmoid n s d self w input lengths
              Hr Hin Hs Hwok Hl)
    as (ctl1 & Hctl1 & Hok1 & Er & Ea & Eb).
  fold L in Hctl1, Er, Ea, Eb.
  destruct (call_Ok self w input lengths a Hun Hw) as [outs Hcall].
  fold L in Hcall.
  pose proof Hp as Hp'. unfold L in Hp'. rewrite l_halting_eq in Hp'.
  pose proof (step_of_unpack w b j a input lengths p Hun Hp') as Hst.
  exists L, c, p, (store_locals self L), outs, ctl1.
  rewrite Hst. cbn [fst snd].
  split_and!; try done.
  - unfold the_locals. rewrite Hun. simpl. rewrite Hw. done.
  - unfold cell_of. rewrite Er, Ea, Eb, Hrem, Has, Hbud. done.
Qed.

Lemma arg_ok_length n s d a input lengths :
  arg_ok n s d a -> unpack_input a = Ok (input, lengths) -> length input = n.
Proof.
  destruct a as [i l|i|]; simpl; [intros [[? _] _]|intros [? _]|done];
    by intros [= <- <-].
Qed.

Lemma the_locals_settled self a L ctl n s d :
  the_locals sigmoid self a = Ok L -> arg_ok n s d a ->
  control self = Some ctl -> batch_size ctl = n ->
  l_control L = ctl.
Proof.
  unfold the_locals. intros HL Ha Hc Hb.
  destruct (unpack_input a) as [[input lengths]|] eqn:Hun; [|done].
  simpl in HL. destruct (weights self) as [w|]; [|done].
  simpl in HL. injection HL as <-.
  apply l_control_settled; [done|].
  by rewrite (arg_ok_length _ _ _ _ _ _ Ha Hun).
Qed.

(** A sequence of calls of a layer whose control tensors are in place. *)
Lemma calls_settled n s d w (b j : nat) args : forall self ctl c,
  control self = Some ctl -> ctl_ok n s ctl -> cell_of ctl b j = Some c ->
  weights self = Some w -> weights_ok w ->
  Forall (arg_ok n s d) args -> (b < n)%nat -> (j < s)%nat ->
  exists self' Ls,
    calls sigmoid self args = Ok (self', Ls) /\
    Forall2 (link b j) Ls (cell_trace j c (step_of w b j <$> args)).
Proof.
  induction args as [|a rest IH];
    intros self ctl c Hctl Hok Hc Hw Hwok Hargs Hb Hj.
  - exists self, []. split; [done|constructor].
  - apply Forall_cons in Hargs as [Ha Hargs].
    assert (Hr : ready n s self) by (unfold ready; by rewrite Hctl).
    destruct (call_step n s d w b j self a Hr Hw Hwok Ha Hb Hj)
      as (L & c' & p & self1 & outs & ctl1 & HL & Hcall & Hlink & Hctl1
          & Hok1 & Hc1 & Hp & Hw1 & _).
    assert (Hlc : l_control L = ctl).
    { eapply the_locals_settled; try done. by destruct Hok. }
    assert (c' = c) as ->.
    { destruct Hlink as [Hcc _]. simpl in Hcc. congruence. }
    destruct (IH self1 ctl1 _ Hctl1 Hok1 Hc1 Hw1 Hwok Hargs Hb Hj)
      as (self' & Ls & Hcalls & Hlinks).
    exists self', (L :: Ls). split.
    + simpl. rewrite HL. simpl. rewrite Hcall. simpl. rewrite Hcalls. done.
    + simpl. destruct (step_of w b j a) as [len p'].
      simpl in Hp. subst p'. by constructor.
Qed.

(** The same for a layer that may still have to make its control tensors:
    the trace starts from the cell the first call finds after the guard. *)
Lemma calls_ready n s d w (b j : nat) self a rest :
  ready n s self -> weights self = Some w -> weights_ok w ->
  Forall (arg_ok n s d) (a :: rest) -> (b < n)%nat -> (j < s)%nat ->
  exists self' L0 Ls c0,
    the_locals sigmoid self a = Ok L0 /\
    cell_of (l_control L0) b j = Some c0 /\
    calls sigmoid self (a :: rest) = Ok (self', L0 :: Ls) /\
    Forall2 (link b j) (L0 :: Ls)
      (cell_trace j c0 (step_of w b j <$> a :: rest)).
Proof.
  intros Hr Hw Hwok Hargs Hb Hj.
  apply Forall_cons in Hargs as [Ha Hargs].
  destruct (call_step n s d w b j self a Hr Hw Hwok Ha Hb Hj)
    as (L & c & p & self1 & outs & ctl1 & HL & Hcall & Hlink & Hctl1
        & Hok1 & Hc1 & Hp & Hw1 & _).
  destruct (calls_settled n s d w b j rest self1 ctl1 _
              Hctl1 Hok1 Hc1 Hw1 Hwok Hargs Hb Hj)
    as (self' & Ls & Hcalls & Hlinks).
  exists self', L, Ls, c. split_and!.
  - done.
  - by destruct Hlink.
  - simpl. rewrite HL. simpl. rewrite Hcall. simpl. rewrite Hcalls. done.
  - simpl. destruct (step_of w b j a) as [len p'].
    simpl in Hp. subst p'. by constructor.
Qed.

End Trace.

(** ** Claim C1: budget conservation *)

Lemma softsign_sigmoid_nonneg x : 0 <= softsign_sigmoid x.
Proof.
  unfold softsign_sigmoid.
  assert (Hd : 0 < 1 + Qabs x) by (pose proof (Qabs_nonneg x); lra).
  assert (Hx : -1 <= x / (1 + Qabs x)).
  { apply Qle_shift_div_l; [done|].
    pose proof (Qle_Qabs (- x)) as H. rewrite Qabs_opp in H. lra. }
  apply Qle_shift_div_l; lra.
Qed.

Section Conservation.

Variable sigmoid : Q -> Q.
Hypothesis sigmoid_nonneg : forall x, 0 <= sigmoid x.

Lemma fresh_for_ready n s self : fresh_for n self -> ready n s self.
Proof.
  unfold fresh_for, ready. destruct (control self); [|done].
  intros Hne He. by destruct Hne.
Qed.

(** The cell the first call finds after it has made the control tensors. *)
Lemma fresh_cell n s d self a L (b j : nat) c :
  fresh_for n self -> arg_ok n s d a ->
  the_locals sigmoid self a = Ok L ->
  cell_of (l_control L) b j = Some c ->
  c = {| c_budget := 1 - halt_epsilon self; c_remainder := 1; c_steps := 0 |}.
Proof.
  unfold the_locals. intros Hf Ha HL Hc.
  destruct (unpack_input a) as [[input lengths]|] eqn:Hun; [|done].
  simpl in HL. destruct (weights self) as [w|]; [|done].
  simpl in HL. injection HL as <-.
  rewrite l_control_eq in Hc.
  rewrite (arg_ok_length _ _ _ _ _ _ Ha Hun) in Hc.
  assert (Hinit : cell_of (initialize_control_tensors self
                             (halting_unit sigmoid w input) n) b j = Some c).
  { unfold fresh_for in Hf. destruct (control self) as [c0|]; [|done].
    by destruct (decide (batch_size c0 <> n)). }
  clear Hc. unfold cell_of, initialize_control_tensors in Hinit.
  cbn [halt_budget remainder active_steps] in Hinit.
  unfold t2_sub_scalar, K_ones_like2, K_zeros_like2 in Hinit.
  rewrite !at2_ew1 in Hinit.
  destruct (at2 (halting_unit sigmoid w input) b j); simpl in Hinit; [|done].
  by injection Hinit as <-.
Qed.

Lemma step_of_nonneg w b j a : 0 <= (step_of sigmoid w b j a).2.
Proof.
  destruct a as [input lengths|input|]; simpl; [| |lra];
    (destruct (at2 (halting_unit sigmoid w input) b j) as [p|] eqn:Hp;
     simpl; [|lra];
     destruct (halting_unit_sigmoid sigmoid w input b j p Hp) as [z ->];
     apply sigmoid_nonneg).
Qed.

Lemma step_of_len w b j a :
  (step_of sigmoid w b j a).1 = arg_len_at a b.
Proof. by destruct a. Qed.

Lemma link_weights b j Ls tr ws :
  Forall2 (link b j) Ls tr -> weights_at b j Ls ws ->
  ws = trace_weights tr.
Proof.
  intros Hl. revert ws. induction Hl as [|L cp Ls tr Hcp _ IH];
    intros ws Hw; inversion Hw as [|? x ? ws' Hx Hws]; subst; [done|].
  simpl. destruct Hcp as (_ & _ & _ & _ & Hhp).
  rewrite (IH _ Hws). congruence.
Qed.

Lemma link_exhausting b j Ls tr :
  Forall2 (link b j) Ls tr -> Exists (exhausting b j) Ls ->
  Exists (fun cp : cell * Q =>
            cell_active cp.1 = true /\ cell_exhausts cp.1 cp.2 = true) tr.
Proof.
  induction 1 as [|L cp Ls tr Hcp _ IH]; intros Hex.
  - by apply Exists_nil in Hex.
  - apply Exists_cons in Hex as [[Ha He]|Hex].
    + apply Exists_cons_hd.
      destruct Hcp as (_ & _ & Hact & Hnf & _). split; congruence.
    + apply Exists_cons_tl. by apply IH.
Qed.

End Conservation.

(** Shapes of concrete tensors. *)
Ltac shape := repeat (split || constructor || done).

(** On the padded position the first call gives the weight 1/2, masks the
    remainder to 0 and then subtracts 1/2; the second call exhausts the
    budget and gives the remainder, -1/2. *)
Lemma padded_run :
  exists self' Ls ws,
    calls softsign_sigmoid layer0 padded_calls = Ok (self', Ls) /\
    Exists (exhausting 0 1) Ls /\
    weights_at 0 1 Ls ws /\
    Qsum ws == 0.
Proof.
  eexists _, _, _. split; [vm_compute; reflexivity|]. split.
  { apply Exists_cons_tl, Exists_cons_hd. split; vm_compute; reflexivity. }
  split.
  { constructor; [vm_compute; reflexivity|].
    constructor; [vm_compute; reflexivity|]. constructor. }
  vm_compute. reflexivity.
Qed.

(** C1, as stated: the conservation law fails for a padding position of a
    call with lengths, whose two weights 1/2 and -1/2 add up to 0. *)
Lemma C1_padding_counterexample :
  ~ weights_sum_to_one softsign_sigmoid layer0 padded_calls 0 1.
Proof.
  destruct padded_run as (self' & Ls & ws & Hc & He & Hw & Hs).
  intros H. specialize (H _ _ _ Hc He Hw). rewrite Hs in H. lra.
Qed.

(** C1, amended: for calls of one input shape (n, s, d) starting with the
    call that makes the control tensors, and a position that is not padding
    in any of them (no lengths passed, or j below the length of row b), if
    some call finds the position active and exhausting its budget then the
    effective halting weights of all the calls add up to exactly 1.  The
    halting values only need to be non-negative, as those of the logistic
    function are. *)
Theorem C1_budget_conservation (sigmoid : Q -> Q) n s d self w args
    (b j : nat) :
  (forall x, 0 <= sigmoid x) ->
  fresh_for n self -> weights self = Some w -> weights_ok w ->
  Forall (arg_ok n s d) args ->
  Forall (fun a => visible (arg_len_at a b) j) args ->
  (b < n)%nat -> (j < s)%nat ->
  weights_sum_to_one sigmoid self args b j.
Proof.
  intros Hsig Hf Hw Hwok Hargs Hvis Hb Hj self' Ls ws Hcalls Hex Hws.
  destruct args as [|a rest].
  { simpl in Hcalls. injection Hcalls as <- <-. by apply Exists_nil in Hex. }
  destruct (calls_ready sigmoid n s d w b j self a rest
              (fresh_for_ready n s self Hf) Hw Hwok Hargs Hb Hj)
    as (self1 & L0 & Ls1 & c0 & HL0 & Hc0 & Hcalls1 & Hlink).
  rewrite Hcalls1 in Hcalls. injection Hcalls as <- <-.
  pose proof (Forall_inv Hargs) as Ha.
  pose proof (fresh_cell sigmoid n s d self a L0 b j c0 Hf Ha HL0 Hc0) as Ec0.
  rewrite (link_weights b j _ _ ws Hlink Hws).
  rewrite cell_conservation.
  - by rewrite Ec0.
  - apply Forall_fmap, Forall_forall. intros a' Ha'. simpl. split.
    + by apply step_of_nonneg.
    + rewrite step_of_len. rewrite Forall_forall in Hvis.
      by apply Hvis.
  - by apply (link_exhausting b j (L0 :: Ls1)).
Qed.

Lemma C1_budget_conservation_witness :
  exists self' Ls ws,
    calls softsign_sigmoid layer0 plain_calls = Ok (self', Ls) /\
    Exists (exhausting 0 0) Ls /\
    weights_at 0 0 Ls ws /\
    Qsum ws == 1.
Proof.
  eexists _, _, _. split; [vm_compute; reflexivity|]. split.
  { apply Exists_cons_tl, Exists_cons_hd. split; vm_compute; reflexivity. }
  split.
  { constructor; [vm_compute; reflexivity|].
    constructor; [vm_compute; reflexivity|]. constructor. }
  eapply (C1_budget_conservation softsign_sigmoid 1 2 1 layer0 _
            plain_calls 0 0 softsign_sigmoid_nonneg).
  - exact I.
  - reflexivity.
  - by split.
  - unfold plain_calls, tokens0. shape.
  - unfold plain_calls. shape.
  - lia.
  - lia.
  - vm_compute; reflexivity.
  - apply Exists_cons_tl, Exists_cons_hd. split; vm_compute; reflexivity.
  - constructor; [vm_compute; reflexivity|].
    constructor; [vm_compute; reflexivity|]. constructor.
Defined.

(** ** Claims C5 and C6, and one call seen through its local values *)

Lemma cell_of_Some ctl b j c :
  cell_of ctl b j = Some c ->
  at2 (halt_budget ctl) b j = Some (c_budget c) /\
  at2 (remainder ctl) b j = Some (c_remainder c) /\
  at2 (active_steps ctl) b j = Some (c_steps c).
Proof.
  unfold cell_of.
  destruct (at2 (halt_budget ctl) b j), (at2 (remainder ctl) b j),
    (at2 (active_steps ctl) b j); try done.
  by intros [= <-].
Qed.

(** A layer that was constructed and built has no control tensors. *)
Lemma new_layer_control eps tp rs shape glorot self :
  build (__init__ eps tp rs) shape glorot = Ok self -> control self = None.
Proof.
  unfold build. intros H.
  destruct shape as [input_shape ?|input_shape]; simpl in H.
  - destruct input_shape as [|? [|? [|? [|? ?]]]]; try done.
    by injection H as <-.
  - destruct (decide (length input_shape = 3%nat)); [|done]. simpl in H.
    destruct input_shape as [|? [|? [|? [|? ?]]]]; try done.
    by injection H as <-.
Qed.

Lemma build_layer0 :
  build (__init__ default_halt_epsilon default_time_penalty false)
    (OneShape [1; 2; 1]%nat) (fun _ _ => [[1]]) = Ok layer0.
Proof. reflexivity. Qed.

(** After a call the stored batch size is the one of its input. *)
Lemma call_batch_size sigmoid self a self' outs input lengths :
  call sigmoid self a = Ok (self', outs) ->
  unpack_input a = Ok (input, lengths) ->
  exists c, control self' = Some c /\ batch_size c = length input.
Proof.
  unfold call. intros Hcall Hun. rewrite Hun in Hcall. simpl in Hcall.
  destruct (weights self) as [w|]; [|done]. simpl in Hcall.
  assert (self' = store_locals self (call_locals sigmoid self w input lengths))
    as -> by (destruct (return_step self); by injection Hcall as <- _).
  eexists. split; [reflexivity|].
  cbn [batch_size]. rewrite l_control_eq.
  destruct (control self) as [c|]; [|done].
  destruct (decide (batch_size c <> length input)) as [|Hn]; [done|].
  destruct (Nat.eq_dec (batch_size c) (length input)); [done|]. by destruct Hn.
Qed.

Lemma first_call_or_new_batch_size_fresh sigmoid self n :
  first_call_or_new_batch_size sigmoid self n -> fresh_for n self.
Proof.
  unfold fresh_for.
  intros [->|(self0 & a0 & outs0 & input0 & lengths0 & Hcall & Hun & Hne)];
    [done|].
  destruct (call_batch_size _ _ _ _ _ _ _ Hcall Hun) as (c & -> & Hc).
  congruence.
Qed.

Section Claims.

Variable sigmoid : Q -> Q.

(** C5: on the first call of a layer, and on a call whose batch size differs
    from that of the call before, the control tensors the call works with
    are new at every position: budget 1 - halt_epsilon, remainder 1,
    active steps 0, helper tensors 0 and 1; with the default halt_epsilon
    the budget is 99/100. *)
Theorem C5_control_state_initialised n s d self w a L (b j : nat) :
  first_call_or_new_batch_size sigmoid self n ->
  weights self = Some w -> weights_ok w ->
  arg_ok n s d a -> (b < n)%nat -> (j < s)%nat ->
  the_locals sigmoid self a = Ok L ->
  at2 (halt_budget (l_control L)) b j = Some (1 - halt_epsilon self) /\
  at2 (remainder (l_control L)) b j = Some 1 /\
  at2 (active_steps (l_control L)) b j = Some 0 /\
  at2 (zeros_like_halting (l_control L)) b j = Some 0 /\
  at2 (ones_like_halting (l_control L)) b j = Some 1 /\
  batch_size (l_control L) = n /\
  (halt_epsilon self = default_halt_epsilon ->
   1 - halt_epsilon self = 99 # 100).
Proof.
  intros Hfirst Hw Hwok Ha Hb Hj HL.
  pose proof (first_call_or_new_batch_size_fresh _ _ _ Hfirst) as Hf.
  destruct (call_step sigmoid n s d w b j self a
              (fresh_for_ready n s self Hf) Hw Hwok Ha Hb Hj)
    as (L' & c & p & self1 & outs & ctl1 & HL' & _ & Hlink & _).
  rewrite HL in HL'. injection HL' as <-.
  destruct Hlink as (Hc & _). cbn [fst] in Hc.
  pose proof (fresh_cell sigmoid n s d self a L b j c Hf Ha HL Hc) as ->.
  destruct (cell_of_Some _ _ _ _ Hc) as (Ehb & Er & Ea). simpl in *.
  destruct (arg_ok_unpack _ _ _ _ Ha) as (input & lengths & Hun & Hin & Hl).
  assert (Hs : (0 < s)%nat) by lia.
  unfold the_locals in HL. rewrite Hun in HL. simpl in HL.
  rewrite Hw in HL. simpl in HL. injection HL as <-.
  pose proof (l_control_ok sigmoid n s d self w input lengths
                (fresh_for_ready n s self Hf) Hin Hs Hwok) as Hok.
  destruct Hok as [_ _ _ Hz Ho Hzv Hov Hbs].
  destruct (has_shape2_at2 _ _ _ b j Hz Hb Hj) as [z Ez].
  destruct (has_shape2_at2 _ _ _ b j Ho Hb Hj) as [o Eo].
  pose proof (Hzv _ _ _ Ez) as ->. pose proof (Hov _ _ _ Eo) as ->.
  split_and!; try done.
  intros ->. reflexivity.
Qed.

Lemma call_inv self a self' outs :
  call sigmoid self a = Ok (self', outs) ->
  exists input lengths w,
    unpack_input a = Ok (input, lengths) /\ weights self = Some w /\
    self' = store_locals self (call_locals sigmoid self w input lengths) /\
    the_locals sigmoid self a
    = Ok (call_locals sigmoid self w input lengths).
Proof.
  unfold call, the_locals. intros Hcall.
  destruct (unpack_input a) as [[input lengths]|]; [|done].
  simpl in *. destruct (weights self) as [w|]; [|done]. simpl in *.
  exists input, lengths, w. split_and!; try done.
  destruct (return_step self); by injection Hcall as <- _.
Qed.

(** The row [b] of the tensor whose row means make the ponder cost. *)
Lemma ponder_row n s d self w a L (b : nat) :
  ready n s self -> weights self = Some w -> weights_ok w ->
  arg_ok n s d a -> (b < n)%nat -> (0 < s)%nat ->
  the_locals sigmoid self a = Ok L ->
  exists row,
    t2_add (l_masked_remainder L) (l_active_steps L) !! b = Some row /\
    length row = s /\
    l_ponder_cost L !! b
    = Some (time_penalty_t w * (Qsum row / inject_Z (Z.of_nat s))).
Proof.
  intros Hr Hw Hwok Ha Hb Hs HL.
  destruct (arg_ok_unpack _ _ _ _ Ha) as (input & lengths & Hun & Hin & Hl).
  unfold the_locals in HL. rewrite Hun in HL. simpl in HL.
  rewrite Hw in HL. simpl in HL. injection HL as <-.
  set (L := call_locals sigmoid self w input lengths).
  pose proof (l_control_ok sigmoid n s d self w input lengths Hr Hin Hs Hwok)
    as Hc.
  fold L in Hc. destruct Hc as [Hcb Hcr Hcs Hcz Hco _ _ _].
  assert (Hsum : has_shape2 n s
                   (t2_add (l_masked_remainder L) (l_active_steps L))).
  { apply has_shape2_ew2.
    - unfold L. rewrite l_masked_remainder_eq.
      by apply has_shape2_mask_length_if_provided.
    - unfold L. rewrite l_active_steps_eq.
      apply has_shape2_mask_length_if_provided; [|done].
      apply has_shape2_ew2; [done|].
      apply has_shape2_K_switch; [|done|done].
      rewrite l_step_is_active_eq. by apply has_shape2_ew1. }
  destruct Hsum as [Hlen Hrows].
  destruct (lookup_lt_is_Some_2
              (t2_add (l_masked_remainder L) (l_active_steps L)) b)
    as [row Hrow]; [lia|].
  rewrite Forall_lookup in Hrows. pose proof (Hrows _ _ Hrow) as Hrl.
  exists row. split_and!; try done.
  unfold L at 1. rewrite l_ponder_cost_eq. fold L.
  unfold t1_scale, K_mean_axis1.
  rewrite !list_lookup_fmap, Hrow. simpl. by rewrite Hrl.
Qed.

(** Every call sets the ponder cost, whatever it was before, to
    time_penalty times the row means of remainder + active_steps of the
    control tensors it works with; [finalize] adds it to the losses. *)
Lemma ponder_cost_of_locals n s d self w a L self' outs :
  ready n s self -> weights self = Some w -> weights_ok w ->
  time_penalty_t w = time_penalty self ->
  arg_ok n s d a -> (0 < s)%nat ->
  the_locals sigmoid self a = Ok L ->
  call sigmoid self a = Ok (self', outs) ->
  exists pc,
    ponder_cost self' = Some pc /\
    length pc = n /\
    (forall b : nat, (b < n)%nat ->
       exists row,
         length row = s /\
         pc !! b
         = Some (time_penalty self * (Qsum row / inject_Z (Z.of_nat s))) /\
         forall j : nat, (j < s)%nat ->
           exists c,
             cell_of (l_control L) b j = Some c /\
             row !! j
             = Some (masked (c_remainder c) (arg_len_at a b) j
                     + masked (c_steps c + (if cell_active c then 1 else 0))
                         (arg_len_at a b) j)) /\
    (forall pc0 self2 outs2,
       call sigmoid (with_ponder_cost pc0 self) a = Ok (self2, outs2) ->
       ponder_cost self2 = Some pc) /\
    losses (finalize self') = losses self ++ [Some pc].
Proof.
  intros Hr Hw Hwok Htp Ha Hs HL Hcall.
  destruct (call_inv _ _ _ _ Hcall)
    as (input & lengths & w' & Hun & Hw' & -> & HL').
  rewrite HL in HL'. injection HL' as ->.
  rewrite Hw in Hw'. injection Hw' as <-.
  set (L := call_locals sigmoid self w input lengths) in *.
  exists (l_ponder_cost L). split_and!.
  - done.
  - destruct (arg_ok_unpack _ _ _ _ Ha) as (i' & l' & Hun' & Hin & Hl).
    rewrite Hun in Hun'. injection Hun' as <- <-.
    pose proof (l_control_ok sigmoid n s d self w input lengths
                  Hr Hin Hs Hwok) as Hc.
    fold L in Hc. destruct Hc as [_ Hcr _ _ _ _ _ _].
    unfold L at 1. rewrite l_ponder_cost_eq. fold L.
    unfold t1_scale, K_mean_axis1, t2_add, ew2.
    rewrite !length_fmap, length_zip_with.
    assert (length (l_masked_remainder L) = n /\ length (l_active_steps L) = n)
      as [-> ->]; [|lia].
    split.
    + unfold L. rewrite l_masked_remainder_eq.
      by apply (has_shape2_mask_length_if_provided n s).
    + destruct (store_locals_ok sigmoid n s d self w input lengths
                  Hr Hin Hs Hwok Hl) as (ctl & _ & [_ _ [Hsl _] _ _ _ _ _] & _ & Ea & _).
      fold L in Ea. by rewrite <- Ea.
  - intros b Hb.
    destruct (ponder_row n s d self w a L b Hr Hw Hwok Ha Hb Hs HL)
      as (row & Hrow & Hlen & Hpc).
    exists row. split_and!; [done|by rewrite <- Htp|].
    intros j Hj.
    destruct (call_step sigmoid n s d w b j self a Hr Hw Hwok Ha Hb Hj)
      as (L' & c & p & self1 & outs1 & ctl1 & HL' & _ & Hlink & _ & _ & _
          & _ & _ & Hmr & Has).
    rewrite HL in HL'. injection HL' as <-.
    exists c. split; [by destruct Hlink|].
    assert (Hat : at2 (t2_add (l_masked_remainder L) (l_active_steps L)) b j
                  = row !! j) by (unfold at2; by rewrite Hrow).
    rewrite <- Hat. unfold t2_add. rewrite at2_ew2, Hmr, Has.
    by rewrite step_of_len.
  - intros pc0 self2 outs2 Hcall2.
    destruct (call_inv _ _ _ _ Hcall2)
      as (input2 & lengths2 & w2 & Hun2 & Hw2 & -> & _).
    rewrite Hun in Hun2. injection Hun2 as <- <-.
    simpl in Hw2. rewrite Hw in Hw2. injection Hw2 as <-. done.
  - done.
Qed.

Lemma Qsum_take_zero_tail (row : list Q) : forall k : nat,
  (forall (j : nat) x, (k <= j)%nat -> row !! j = Some x -> x == 0) ->
  Qsum row == Qsum (take k row).
Proof.
  induction row as [|x row IH]; intros k Hz; [by destruct k|].
  destruct k as [|k]; simpl.
  - rewrite (Hz 0%nat x) by (done || lia).
    rewrite (IH 0%nat); [rewrite take_0; simpl; ring|].
    intros j y _ Hy. apply (Hz (S j)); [lia|done].
  - rewrite (IH k); [reflexivity|].
    intros j y Hj Hy. apply (Hz (S j)); [lia|done].
Qed.

(** C6: in a call with lengths, at every position at or beyond the length
    of its row the remainder and the active steps that enter the ponder cost
    are zero, so the ponder cost of the row is time_penalty times the sum
    over the positions below the length, divided by the sequence length. *)
Theorem C6_padding_contributes_zero n s d self w input lengths L
    (b : nat) len :
  ready n s self -> weights self = Some w -> weights_ok w ->
  arg_ok n s d (ArgList2 input lengths) -> (b < n)%nat -> (0 < s)%nat ->
  the_locals sigmoid self (ArgList2 input lengths) = Ok L ->
  lengths !! b = Some [len] ->
  (forall j : nat, (j < s)%nat -> (len <= Z.of_nat j)%Z ->
     exists mr ma,
       at2 (l_masked_remainder L) b j = Some mr /\
       at2 (l_active_steps L) b j = Some ma /\
       mr == 0 /\ ma == 0) /\
  (exists row pcb,
     t2_add (l_masked_remainder L) (l_active_steps L) !! b = Some row /\
     l_ponder_cost L !! b = Some pcb /\
     pcb == time_penalty_t w
            * (Qsum (take (Z.to_nat len) row) / inject_Z (Z.of_nat s))).
Proof.
  intros Hr Hw Hwok Ha Hb Hs HL Hlen.
  assert (Hpad : forall j : nat, (j < s)%nat -> (len <= Z.of_nat j)%Z ->
            exists mr ma,
              at2 (l_masked_remainder L) b j = Some mr /\
              at2 (l_active_steps L) b j = Some ma /\
              mr == 0 /\ ma == 0).
  { intros j Hj Hge.
    destruct (call_step sigmoid n s d w b j self _ Hr Hw Hwok Ha Hb Hj)
      as (L' & c & p & self1 & outs1 & ctl1 & HL' & _ & _ & _ & _ & _
          & _ & _ & Hmr & Has).
    rewrite HL in HL'. injection HL' as <-.
    rewrite step_of_len in Hmr, Has. simpl in Hmr, Has.
    rewrite Hlen in Hmr, Has. simpl in Hmr, Has.
    eexists _, _. split_and!; [exact Hmr|exact Has| |].
    - apply Z.ltb_ge in Hge. rewrite Hge. ring.
    - apply Z.ltb_ge in Hge. rewrite Hge. ring. }
  split; [exact Hpad|].
  destruct (ponder_row n s d self w _ L b Hr Hw Hwok Ha Hb Hs HL)
    as (row & Hrow & Hrl & Hpc).
  exists row, (time_penalty_t w * (Qsum row / inject_Z (Z.of_nat s))).
  split_and!; [done|done|].
  rewrite (Qsum_take_zero_tail row (Z.to_nat len)); [reflexivity|].
  intros j x Hj Hx.
  assert (Hjs : (j < s)%nat) by (apply lookup_lt_Some in Hx; lia).
  destruct (Hpad j Hjs) as (mr & ma & Hmr & Hma & Emr & Ema); [lia|].
  assert (Hat : at2 (t2_add (l_masked_remainder L) (l_active_steps L)) b j
                = Some x) by (unfold at2; by rewrite Hrow).
  unfold t2_add in Hat. rewrite at2_ew2, Hmr, Hma in Hat.
  injection Hat as <-. rewrite Emr, Ema. ring.
Qed.

(** *** The weight in the weighted output *)

Lemma K_zeros_like3_shape (z input : tensor3) :
  z = K_zeros_like3 z -> shape_of3 z = shape_of3 input ->
  z = K_zeros_like3 input.
Proof.
  intros Hz Hs. rewrite Hz. clear Hz. revert input Hs.
  unfold K_zeros_like3, shape_of3, ew1.
  induction z as [|m z IHz]; intros [|mi input] Hs; try done.
  csimpl in *. injection Hs as Hm Hs. f_equal; [|by apply IHz].
  clear IHz Hs. revert mi Hm.
  induction m as [|v m IHm]; intros [|vi mi] Hm; try done.
  csimpl in *. injection Hm as Hv Hm. f_equal; [|by apply IHm].
  clear IHm Hm. revert vi Hv.
  induction v as [|a v IHv]; intros [|ai vi] Hv; try done.
  csimpl in *. injection Hv as Hv. f_equal. by apply IHv.
Qed.

Lemma K_sum_int_none_active (t : list (list bool)) (b j : nat) c :
  (K_sum_int (K_cast_int32 t) >? 0)%Z = false ->
  at2 t b j = Some c -> c = false.
Proof.
  unfold K_sum_int, K_cast_int32, ew1, at2. intros Hsum Hc.
  assert (Hrow : forall row : list bool,
            (0 <= foldr Z.add 0 ((fun c : bool => if c then 1 else 0) <$> row))%Z
            /\ (foldr Z.add 0 ((fun c : bool => if c then 1 else 0) <$> row)
                 <= 0 -> forall j c, row !! j = Some c -> c = false)%Z).
  { induction row as [|x row [IH0 IH]]; csimpl; [split; [lia|done]|].
    split; [destruct x; lia|].
    intros H [|j'] c' Hc'; simpl in Hc'.
    - injection Hc' as <-. destruct x; [lia|done].
    - apply (IH ltac:(destruct x; lia) j' c' Hc'). }
  rewrite Z.gtb_ltb in Hsum. apply Z.ltb_ge in Hsum.
  revert b Hc Hsum. induction t as [|row t IH]; intros b Hc Hsum; [done|].
  csimpl in Hsum.
  assert (Ht : (0 <= foldr Z.add 0
                      (foldr Z.add 0 <$>
                       ((fun row : list bool =>
                           (fun c : bool => if c then 1 else 0) <$> row)
                          <$> t)))%Z).
  { clear -Hrow. induction t as [|r t IH]; csimpl; [lia|].
    destruct (Hrow r) as [H0 _]. lia. }
  destruct (Hrow row) as [H0 Hz].
  destruct b as [|b]; simpl in Hc.
  - apply (Hz ltac:(lia) j c Hc).
  - apply (IH b Hc). lia.
Qed.

(** Readiness is kept: after a call on an input of shape (n, s, d) the layer
    can take another input of that shape, and any input of another batch
    size. *)
Lemma call_ready n s d self w a self' outs :
  ready n s self -> weights self = Some w -> weights_ok w ->
  arg_ok n s d a -> (0 < s)%nat ->
  call sigmoid self a = Ok (self', outs) ->
  ready n s self' /\ forall n2 s2, n2 <> n -> ready n2 s2 self'.
Proof.
  intros Hr Hw Hwok Ha Hs Hcall.
  destruct (call_inv _ _ _ _ Hcall)
    as (input & lengths & w' & Hun & Hw' & -> & _).
  rewrite Hw in Hw'. injection Hw' as <-.
  destruct (arg_ok_unpack _ _ _ _ Ha) as (i' & l' & Hun' & Hin & Hl).
  rewrite Hun in Hun'. injection Hun' as <- <-.
  destruct (store_locals_ok sigmoid n s d self w input lengths
              Hr Hin Hs Hwok Hl) as (ctl & Hctl & Hok & _).
  unfold ready. rewrite Hctl. split; [done|].
  intros n2 s2 Hne Hb. destruct Hok. congruence.
Qed.

(** The constant zero tensor stays one: a new layer has none, and a call
    keeps the stored one or makes it from its input. *)
Lemma call_zeros_input_ok self a self' outs :
  zeros_input_ok self -> call sigmoid self a = Ok (self', outs) ->
  zeros_input_ok self'.
Proof.
  intros Hz Hcall.
  destruct (call_inv _ _ _ _ Hcall) as (input & lengths & w & _ & _ & -> & _).
  intros z. cbn [store_locals zeros_like_input]. intros [= <-].
  assert (Hi : K_zeros_like3 input = K_zeros_like3 (K_zeros_like3 input)).
  { unfold K_zeros_like3, ew1. rewrite <- list_fmap_compose.
    apply list_fmap_ext. intros _ m _. simpl.
    rewrite <- list_fmap_compose.
    apply list_fmap_ext. intros _ v _. simpl.
    by rewrite <- list_fmap_compose. }
  unfold call_locals. simpl.
  destruct (zeros_like_input self) as [z|] eqn:Ez; [|done].
  destruct (decide (shape_of3 z <> shape_of3 input)); [done|].
  by apply Hz.
Qed.

(** The output a call adds for a position is the token vector times the
    effective halting weight of the position, also when the call takes the
    constant zero tensor because no position is active. *)
Lemma step_weighted_output_at n s d self w a L (b j : nat) :
  ready n s self -> zeros_input_ok self ->
  weights self = Some w -> weights_ok w ->
  arg_ok n s d a -> (b < n)%nat -> (j < s)%nat ->
  the_locals sigmoid self a = Ok L ->
  exists input lengths x wt v,
    unpack_input a = Ok (input, lengths) /\
    at2 input b j = Some x /\
    at2 (l_halting_prob L) b j = Some wt /\
    at2 (l_step_weighted_output L) b j = Some v /\
    Qvec_eq v (Qmult wt <$> x).
Proof.
  intros Hr Hz Hw Hwok Ha Hb Hj HL.
  destruct (call_step sigmoid n s d w b j self a Hr Hw Hwok Ha Hb Hj)
    as (L' & c & p & self1 & outs & ctl1 & HL' & _ & Hlink & _).
  rewrite HL in HL'. injection HL' as <-.
  destruct Hlink as (_ & _ & Hact & _ & Hhp). cbn [fst snd] in *.
  destruct (arg_ok_unpack _ _ _ _ Ha) as (input & lengths & Hun & Hin & Hl).
  unfold the_locals in HL. rewrite Hun in HL. simpl in HL.
  rewrite Hw in HL. simpl in HL. injection HL as <-.
  assert (Hx : is_Some (at2 input b j)).
  { destruct Hin as [Hlen Hrows]. unfold at2.
    destruct (lookup_lt_is_Some_2 input b) as [m Hm]; [lia|].
    rewrite Hm. simpl. apply lookup_lt_is_Some_2.
    rewrite Forall_lookup in Hrows. destruct (Hrows _ _ Hm) as [-> _]. done. }
  destruct Hx as [x Hx].
  exists input, lengths, x, (cell_weight c p).
  rewrite l_step_weighted_output_eq in *.
  set (L := call_locals sigmoid self w input lengths) in *.
  destruct (l_any_step_is_active L) eqn:Hany.
  - eexists. split_and!; try done.
    + unfold K_expand_mul. by rewrite at2_ew2, Hhp, Hx.
    + unfold Qvec_eq. apply Forall_Forall2_diag, Forall_forall.
      intros y _. reflexivity.
  - assert (Hc : cell_active c = false).
    { apply (K_sum_int_none_active (l_step_is_active L) b j); [|done].
      exact Hany. }
    assert (Hzi : l_zeros_like_input L = K_zeros_like3 input).
    { unfold L, call_locals. simpl.
      destruct (zeros_like_input self) as [z|] eqn:Ez; [|done].
      destruct (decide (shape_of3 z <> shape_of3 input)) as [|Hs]; [done|].
      apply K_zeros_like3_shape; [by apply Hz|].
      destruct (decide (shape_of3 z = shape_of3 input)); [done|].
      by destruct Hs. }
    exists ((fun _ => 0) <$> x). split_and!; try done.
    + rewrite Hzi. unfold K_zeros_like3. by rewrite at2_ew1, Hx.
    + unfold cell_weight. rewrite Hc. unfold Qvec_eq.
      apply Forall2_fmap, Forall_Forall2_diag, Forall_forall.
      intros y _. simpl. ring.
Qed.

(** [finalize] after a sequence of calls registers the ponder cost of the
    last of them, and nothing else is registered on the way. *)
Lemma finalize_after_calls args : forall self self' Ls L,
  calls sigmoid self args = Ok (self', Ls) -> last Ls = Some L ->
  losses (finalize self') = losses self ++ [Some (l_ponder_cost L)].
Proof.
  assert (Hgen : forall args self self' Ls,
            calls sigmoid self args = Ok (self', Ls) ->
            losses self' = losses self /\
            forall L, last Ls = Some L ->
                      ponder_cost self' = Some (l_ponder_cost L)).
  { clear args. induction args as [|a rest IH]; intros self self' Ls Hc.
    - injection Hc as <- <-. by split.
    - simpl in Hc.
      destruct (the_locals sigmoid self a) as [L0|] eqn:HL0; [|done].
      simpl in Hc.
      destruct (call sigmoid self a) as [[self1 outs]|] eqn:Hcall; [|done].
      simpl in Hc.
      destruct (calls sigmoid self1 rest) as [[self2 Ls2]|] eqn:Hrest;
        [|done].
      simpl in Hc. injection Hc as <- <-.
      destruct (IH _ _ _ Hrest) as [Hl Hp].
      destruct (call_inv _ _ _ _ Hcall)
        as (input & lengths & w & _ & _ & -> & HL0').
      rewrite HL0 in HL0'. injection HL0' as ->.
      split; [by rewrite Hl|].
      intros L HL. destruct rest as [|a1 rest].
      + injection Hrest as <- <-. simpl in HL. by injection HL as <-.
      + destruct Ls2 as [|L1 Ls2].
        * simpl in Hrest.
          destruct (the_locals _ _ a1); [|done]. simpl in Hrest.
          destruct (call _ _ a1) as [[? ?]|]; [|done]. simpl in Hrest.
          by destruct (calls _ _ rest) as [[? ?]|].
        * apply Hp. by rewrite last_cons_cons in HL. }
  intros self self' Ls L Hc HL.
  destruct (Hgen _ _ _ _ Hc) as [Hl Hp].
  simpl. by rewrite Hl, (Hp _ HL).
Qed.

End Claims.

(** *** The claims on concrete calls *)

(** The second call has batch size 2 after a call with batch size 1: the
    control tensors are made anew. *)
Lemma C5_control_state_initialised_witness :
  at2 (halt_budget (l_control locals1_batch2)) 1 0
    = Some (1 - halt_epsilon layer1) /\
  at2 (remainder (l_control locals1_batch2)) 1 0 = Some 1 /\
  at2 (active_steps (l_control locals1_batch2)) 1 0 = Some 0 /\
  at2 (zeros_like_halting (l_control locals1_batch2)) 1 0 = Some 0 /\
  at2 (ones_like_halting (l_control locals1_batch2)) 1 0 = Some 1 /\
  batch_size (l_control locals1_batch2) = 2%nat /\
  (halt_epsilon layer1 = default_halt_epsilon ->
   1 - halt_epsilon layer1 = 99 # 100).
Proof.
  apply (C5_control_state_initialised softsign_sigmoid 2 2 1 layer1 weights0
           (ArgTensor3 tokens_batch2) locals1_batch2 1 0).
  - right.
    exists layer0, (ArgTensor3 tokens0),
      [Rank3 tokens0; Rank3 (l_weighted_output locals0);
       Rank1 (l_ponder_cost locals0)], tokens0, None.
    split_and!; [reflexivity|reflexivity|simpl; lia].
  - reflexivity.
  - by split.
  - unfold tokens_batch2. shape.
  - lia.
  - lia.
  - reflexivity.
Defined.

Lemma C6_padding_contributes_zero_witness :
  (forall j : nat, (j < 2)%nat -> (1 <= Z.of_nat j)%Z ->
     exists mr ma,
       at2 (l_masked_remainder locals0_padded) 0 j = Some mr /\
       at2 (l_active_steps locals0_padded) 0 j = Some ma /\
       mr == 0 /\ ma == 0) /\
  (exists row pcb,
     t2_add (l_masked_remainder locals0_padded)
       (l_active_steps locals0_padded) !! 0%nat = Some row /\
     l_ponder_cost locals0_padded !! 0%nat = Some pcb /\
     pcb == time_penalty_t weights0
            * (Qsum (take (Z.to_nat 1) row) / inject_Z (Z.of_nat 2))).
Proof.
  apply (C6_padding_contributes_zero softsign_sigmoid 1 2 1 layer0 weights0
           tokens0 [[1%Z]] locals0_padded 0 1%Z).
  - exact I.
  - reflexivity.
  - by split.
  - unfold tokens0. shape.
  - lia.
  - lia.
  - reflexivity.
  - reflexivity.
Defined.

(** The case of the specification: halt_epsilon 0.01 and a halting value of
    1.0 (a saturated sigmoid).  The first call starts from the budget 99/100,
    finds every token active and exhausting, counts one active step and
    weighs the token with the remainder 1. *)
Example first_call_halting_one :
  let L := call_locals (fun _ => 1) layer0 weights0 tokens0 None in
  at2 (halt_budget (l_control L)) 0 0 = Some (99 # 100) /\
  at2 (l_halting L) 0 0 = Some 1 /\
  at2 (l_step_is_active L) 0 0 = Some true /\
  at2 (l_no_further_steps L) 0 0 = Some true /\
  at2 (l_active_steps L) 0 0 = Some 1 /\
  at2 (l_halting_prob L) 0 0 = at2 (remainder (l_control L)) 0 0 /\
  at2 (l_halting_prob L) 0 0 = Some 1.
Proof. vm_compute. by split_and!. Qed.

(** The budget is not clamped: with halting values 1/2 it is 49/100 after
    the first call, -1/100 after the second and -51/100 after the third. *)
Example budget_stays_negative :
  exists self1 self2 self3 o1 o2 o3 c1 c2 c3 h1 h2 h3,
    call softsign_sigmoid layer0 (ArgTensor3 tokens0) = Ok (self1, o1) /\
    call softsign_sigmoid self1 (ArgTensor3 tokens0) = Ok (self2, o2) /\
    call softsign_sigmoid self2 (ArgTensor3 tokens0) = Ok (self3, o3) /\
    control self1 = Some c1 /\ control self2 = Some c2 /\
    control self3 = Some c3 /\
    at2 (halt_budget c1) 0 0 = Some h1 /\ h1 == 49 # 100 /\
    at2 (halt_budget c2) 0 0 = Some h2 /\ h2 == - (1 # 100) /\
    at2 (halt_budget c3) 0 0 = Some h3 /\ h3 == - (51 # 100).
Proof.
  eexists _, _, _, _, _, _, _, _, _, _, _, _.
  split_and!; try (vm_compute; reflexivity).
Qed.

End ACTProofs.

(** * Properties of TransformerBlock and LayerNormalization *)

Module BlockProofs.

Import Tensor Block.

#[local] Open Scope R_scope.

(** ** Claim C10: layer normalisation and constant shifts *)

Lemma bzip_same_length {A B C} (f : A -> B -> C) l k :
  length l = length k -> bzip f l k = zip_with f l k.
Proof.
  destruct l as [|a [|a' l]], k as [|b [|b' k]]; simpl; try done.
Qed.

Lemma bzip_singleton_r {A B C} (f : A -> B -> C) l b :
  bzip f l [b] = (fun a => f a b) <$> l.
Proof. by destruct l as [|a [|a' l]]. Qed.

Lemma zip_with_fmap_diag {A B C} (f : A -> B -> C) (g : A -> B) l :
  zip_with f l (g <$> l) = (fun a => f a (g a)) <$> l.
Proof. induction l as [|a l IH]; csimpl; [done|]. by rewrite IH. Qed.

Lemma centred_inputs (x : rtensor3) :
  bcast3 Rminus x (K_mean_last x) = ew1 centre x.
Proof.
  unfold bcast3, K_mean_last, ew1.
  rewrite bzip_same_length by (by rewrite length_fmap).
  rewrite zip_with_fmap_diag. apply list_fmap_ext. intros _ m _.
  rewrite bzip_same_length by (by rewrite length_fmap).
  rewrite zip_with_fmap_diag. apply list_fmap_ext. intros _ v _.
  by rewrite bzip_singleton_r.
Qed.

Lemma Rsum_shift (v : list R) k :
  Rsum ((fun a => a + k) <$> v) = Rsum v + INR (length v) * k.
Proof.
  induction v as [|a v IH]; [simpl; lra|].
  change (Rsum ((fun a => a + k) <$> a :: v))
    with (a + k + Rsum ((fun a => a + k) <$> v)).
  change (Rsum (a :: v)) with (a + Rsum v).
  rewrite IH. change (length (a :: v)) with (S (length v)).
  rewrite S_INR. lra.
Qed.

Lemma mean_shift (v : list R) k :
  v <> [] -> mean ((fun a => a + k) <$> v) = mean v + k.
Proof.
  intros Hv. unfold mean. rewrite Rsum_shift, length_fmap.
  assert (INR (length v) <> 0).
  { apply not_0_INR. by destruct v. }
  field. done.
Qed.

Lemma centre_shift (v : list R) k :
  centre ((fun a => a + k) <$> v) = centre v.
Proof.
  destruct (decide (v = [])) as [->|Hv]; [done|].
  unfold centre. rewrite mean_shift by done.
  rewrite <- list_fmap_compose. apply list_fmap_ext.
  intros _ a _. simpl. lra.
Qed.

Lemma centre_add_per_position c (x : rtensor3) :
  ew1 centre (add_per_position c x) = ew1 centre x.
Proof.
  unfold ew1, add_per_position.
  rewrite fmap_imap. rewrite <- (imap_const (fun row => centre <$> row) x).
  apply imap_ext. intros b row _. simpl.
  rewrite fmap_imap. rewrite <- (imap_const centre row).
  apply imap_ext. intros j v _. simpl. apply centre_shift.
Qed.

(** C10: adding a number to every feature of a position does not change the
    output of the layer normalised over the feature axis (the default,
    [axis = -1], which is axis 2 of the rank-3 input), whatever the gain and
    the bias: the mean moves by that number and the centred inputs, hence
    the variance and all that follows, are the same. *)
Theorem C10_layer_norm_shift_invariant (self : LayerNormalization)
    (x : rtensor3) (c : nat -> nat -> R) :
  (axis self = -1 \/ axis self = 2)%Z ->
  LayerNormalization_call self (add_per_position c x)
  = LayerNormalization_call self x.
Proof.
  intros Hax. unfold LayerNormalization_call.
  destruct (ln_weights self) as [[gain bias]|]; [|done]. simpl.
  unfold K_mean. destruct (decide (axis self = -1 \/ axis self = 2)%Z);
    [|done].
  simpl. rewrite !centred_inputs, centre_add_per_position. done.
Qed.

Lemma C10_layer_norm_shift_invariant_witness :
  LayerNormalization_call norm0
    (add_per_position (fun b j => INR b + 5) [[ [1; 2] ]; [ [4; 0] ]])
  = LayerNormalization_call norm0 [[ [1; 2] ]; [ [4; 0] ]].
Proof.
  apply C10_layer_norm_shift_invariant. left. reflexivity.
Defined.

(** ** Claims C7, C8, C9: the block *)

Section BlockFacts.

Variable keras_activation : string -> R -> R.
Variable glorot_uniform : nat -> nat -> rtensor2.
Variable Dropout : R -> string -> rtensor3 -> rtensor3.
Variable Conv1D : nat -> nat -> string -> activation_arg ->
                  rtensor3 -> rtensor3.
Variable tensors_have_len : bool.
Variable MultiHeadSelfAttention :
  nat -> nat -> bool -> R -> option nat -> option nat -> string -> attention.

#[local] Abbreviation call :=
  (__call__ glorot_uniform Conv1D tensors_have_len).
#[local] Abbreviation calls :=
  (call_many glorot_uniform Conv1D tensors_have_len).

(** C9: the constructor returns a block exactly for the transition types
    'dot' and 'cnn', and raises NotImplementedError for every other one;
    the error is the result of the constructor, so no block exists that
    could be called. *)
Theorem C9_transition_type_checked name d_model num_heads tt rd ad act cws
    sm um lm vw :
  match __init__ keras_activation Dropout MultiHeadSelfAttention
          name d_model num_heads tt rd ad act cws sm um lm vw with
  | Ok b => (tt = "dot" \/ tt = "cnn") /\ transition_type b = tt
  | Raise e => e = NotImplementedError /\ tt <> "dot" /\ tt <> "cnn"
  end.
Proof.
  unfold __init__.
  destruct (decide (tt = "dot")) as [->|Hd]; simpl; [by split; [left|]|].
  destruct (decide (tt = "cnn")) as [->|Hc]; simpl; [by split; [right|]|].
  done.
Qed.

(** C7, on the code: a list of three elements is not refused.  The test
    [len(_input) == 3] of the second branch holds for it, the list itself
    becomes [input], and the attention layer is called on it; an error of
    the attention layer is what the call raises. *)
Theorem C7_three_element_list_passes_check self a b c :
  unpack_input tensors_have_len (PyList [a; b; c])
  = Ok (PyList [a; b; c], PyNone) /\
  match attention_layer self (PyList [a; b; c]) PyNone with
  | Raise e =>
      __call__ glorot_uniform Conv1D tensors_have_len self
        (PyList [a; b; c]) = Raise e
  | Ok _ => True
  end.
Proof.
  split; [reflexivity|].
  unfold __call__. simpl.
  by destruct (attention_layer self (PyList [a; b; c]) PyNone).
Qed.

Lemma result_bind_Ok {A} (m : result A) : (x ← m; Ok x) = m.
Proof. by destruct m. Qed.

(** With the identity for dropout, a call does the same whatever the
    wiring: only the [vanilla_wiring] attribute of the block it leaves
    differs. *)
Lemma call_wiring_irrelevant self v x :
  dropout_layer self = (fun t => t) ->
  call (with_wiring v self) x = rewire v (call (with_wiring false self) x).
Proof.
  intros Hd. unfold __call__, rewire.
  cbn [with_wiring dropout_layer vanilla_wiring attention_layer norm1_layer
       norm2_layer transition_layer transition_type size_multiplier name
       activation].
  rewrite Hd.
  destruct (unpack_input tensors_have_len x) as [[input lengths]|e];
    [cbn [mbind result_bind]|done].
  destruct (attention_layer self input lengths) as [output|e];
    [cbn [mbind result_bind]|done].
  rewrite (result_bind_Ok (addition_layer input output)).
  replace (if v then addition_layer input output
           else addition_layer input output)
    with (addition_layer input output) by (by destruct v).
  destruct (addition_layer input output) as [post1|e];
    [cbn [mbind result_bind]|done].
  destruct (LayerNormalization_apply (norm1_layer self) post1)
    as [[n1 norm1_output]|e]; [cbn [mbind result_bind]|done].
  destruct (transition_apply glorot_uniform _ norm1_output)
    as [[t2 output2]|e]; [cbn [mbind result_bind]|done].
  rewrite (result_bind_Ok (addition_layer (PyTensor norm1_output) output2)).
  replace (if v then addition_layer (PyTensor norm1_output) output2
           else addition_layer (PyTensor norm1_output) output2)
    with (addition_layer (PyTensor norm1_output) output2)
    by (by destruct v).
  destruct (addition_layer (PyTensor norm1_output) output2) as [post2|e];
    [cbn [mbind result_bind]|done].
  by destruct (LayerNormalization_apply (norm2_layer self) post2)
    as [[n2 output3]|e].
Qed.

Lemma call_keeps_attributes self x self' out :
  call self x = Ok (self', out) ->
  dropout_layer self' = dropout_layer self /\
  vanilla_wiring self' = vanilla_wiring self.
Proof.
  unfold __call__. intros H.
  repeat match type of H with
  | mbind _ ?m = _ => destruct m as [[? ?]|?]; simpl in H; [|done]
  | mbind _ ?m = _ => destruct m as [?|?]; simpl in H; [|done]
  end.
  by injection H as <- _.
Qed.

Lemma with_wiring_same self :
  with_wiring (vanilla_wiring self) self = self.
Proof. by destruct self. Qed.

Lemma calls_wiring_irrelevant inputs : forall self v,
  dropout_layer self = (fun t => t) ->
  outputs (calls (with_wiring v self) inputs)
  = outputs (calls (with_wiring false self) inputs).
Proof.
  induction inputs as [|x rest IH]; intros self v Hd; [done|].
  cbn [call_many]. rewrite (call_wiring_irrelevant self v x Hd).
  destruct (call (with_wiring false self) x) as [[self1 out]|e] eqn:Hc;
    [|done].
  unfold rewire. cbn [mbind result_bind].
  destruct (call_keeps_attributes _ _ _ _ Hc) as [Hd1 Hw1].
  cbn [with_wiring dropout_layer vanilla_wiring] in Hd1, Hw1.
  rewrite Hd in Hd1.
  specialize (IH self1 v Hd1).
  rewrite <- Hw1, with_wiring_same in IH.
  unfold outputs in *.
  destruct (calls (with_wiring v self1) rest) as [[b1 o1]|e1],
    (calls self1 rest) as [[b2 o2]|e2];
    cbn [mbind result_bind] in *; congruence.
Qed.

(** C8: two blocks constructed with residual_dropout = 0 and the same
    other arguments, one with vanilla_wiring = True and one with False,
    give the same outputs (or raise the same error) on every sequence of
    inputs: without dropout [dropout_layer] is the identity, and both
    wirings add the same two tensors. *)
Theorem C8_wiring_irrelevant_without_dropout name d_model num_heads tt ad
    act cws sm um lm b_vanilla b_universal inputs :
  __init__ keras_activation Dropout MultiHeadSelfAttention
    name d_model num_heads tt 0 ad act cws sm um lm true = Ok b_vanilla ->
  __init__ keras_activation Dropout MultiHeadSelfAttention
    name d_model num_heads tt 0 ad act cws sm um lm false = Ok b_universal ->
  outputs (call_many glorot_uniform Conv1D tensors_have_len
             b_vanilla inputs)
  = outputs (call_many glorot_uniform Conv1D tensors_have_len
               b_universal inputs).
Proof.
  unfold __init__. intros Hv Hu.
  destruct (Rlt_dec 0 0) as [H|_]; [lra|].
  destruct (decide (tt = "dot")) as [->|Hd].
  - simpl in Hv, Hu. injection Hv as <-. injection Hu as <-.
    match goal with
    | |- _ = outputs (calls ?b _) =>
        exact (calls_wiring_irrelevant inputs b true eq_refl)
    end.
  - destruct (decide (tt = "cnn")) as [->|Hc]; [|done].
    simpl in Hv, Hu. injection Hv as <-. injection Hu as <-.
    match goal with
    | |- _ = outputs (calls ?b _) =>
        exact (calls_wiring_irrelevant inputs b true eq_refl)
    end.
Qed.

End BlockFacts.

Lemma init0_block0 v : init0 v = Ok (block0 v).
Proof.
  unfold init0, __init__. destruct (Rlt_dec 0 0) as [H|_]; [lra|].
  reflexivity.
Qed.

(** Both calls of the concrete block return a tensor. *)
Example block0_runs :
  exists o1 o2,
    outputs (call_many (fun n m => repeat (repeat 0.5 m) n)
               (fun _ _ _ _ t => t) false (block0 true) inputs0)
    = Ok [o1; o2].
Proof.
  eexists _, _.
  cbv -[Rplus Rminus Rmult Rdiv Rinv Ropp sqrt tanh exp INR IZR PI pow].
  reflexivity.
Qed.

Lemma C8_wiring_irrelevant_without_dropout_witness :
  outputs (call_many (fun n m => repeat (repeat 0.5 m) n)
             (fun _ _ _ _ t => t) false (block0 true) inputs0)
  = outputs (call_many (fun n m => repeat (repeat 0.5 m) n)
               (fun _ _ _ _ t => t) false (block0 false) inputs0).
Proof.
  apply (C8_wiring_irrelevant_without_dropout (fun _ x => x)
           (fun n m => repeat (repeat 0.5 m) n) (fun _ _ t => t)
           (fun _ _ _ _ t => t) false (fun _ _ _ _ _ _ _ => attention0)
           "block" 2 1 "dot" 0 (ActName "gelu") None 4 true None).
  - apply init0_block0.
  - apply init0_block0.
Defined.

(** The tensor of shape (batch, seq, d_model) that the comment of the
    second branch speaks of passes the test only when its batch size is 3:
    [len] of a tensor is its first dimension where it is defined at all. *)
Lemma rank3_tensor_refused (t : rtensor3) :
  length t <> 3%nat ->
  unpack_input true (PyTensor t) = Raise ValueError /\
  unpack_input false (PyTensor t) = Raise TypeError.
Proof.
  intros Hn. unfold unpack_input. simpl.
  by destruct (decide (length t = 3%nat)).
Qed.

End BlockProofs.

(** * TransformerACT: runs of calls, output shapes and config *)

Module ACTRuns.

Import Tensor ACT ACTProofs.

#[local] Open Scope Q_scope.

Ltac lra := Lqa.lra.

Lemma cell_trace_drop j i : forall steps c ci pi,
  cell_trace j c steps !! i = Some (ci, pi) ->
  drop i (cell_trace j c steps) = cell_trace j ci (drop i steps).
Proof.
  induction i as [|i IH]; intros [|[len p] rest] c ci pi H; simpl in *;
    try done.
  - by injection H as <- <-.
  - by apply (IH _ _ _ pi).
Qed.

Lemma cell_trace_inactive_later j steps c i k ci pi ck pk :
  Forall (fun st : option Z * Q => 0 <= st.2) steps ->
  cell_trace j c steps !! i = Some (ci, pi) ->
  cell_trace j c steps !! k = Some (ck, pk) ->
  (i <= k)%nat -> c_budget ci <= 0 ->
  cell_active ck = false.
Proof.
  intros Hp Hi Hk Hik Hci.
  pose proof (cell_trace_drop j i steps c ci pi Hi) as Hd.
  assert (Hk' : drop i (cell_trace j c steps) !! (k - i)%nat = Some (ck, pk)).
  { rewrite lookup_drop. by replace (i + (k - i))%nat with k by lia. }
  rewrite Hd in Hk'.
  assert (Hh : Forall (fun cp : cell * Q => cell_active cp.1 = false)
                 (cell_trace j ci (drop i steps))).
  { apply cell_trace_halted; [|done]. by apply Forall_drop. }
  rewrite Forall_lookup in Hh. apply (Hh _ _ Hk').
Qed.

Lemma cell_run_trace j steps : forall c,
  cell_trace j c steps
  = (fun e : cell * (option Z * Q) => (e.1, e.2.2)) <$> cell_run j c steps.
Proof.
  induction steps as [|[len p] rest IH]; intros c; csimpl; [done|].
  by rewrite IH.
Qed.

Lemma Qle_bool_false x y : Qle_bool x y = false <-> y < x.
Proof.
  rewrite <- not_true_iff_false, Qle_bool_iff.
  split; [apply Qnot_le_lt | apply Qlt_not_le].
Qed.

(** After the call that exhausts the budget the position is inactive. *)
Lemma cell_trace_exhausted_later j steps c i k ci pi ck pk :
  Forall (fun st : option Z * Q => 0 <= st.2) steps ->
  cell_trace j c steps !! i = Some (ci, pi) ->
  cell_trace j c steps !! k = Some (ck, pk) ->
  (i < k)%nat -> cell_exhausts ci pi = true ->
  cell_active ck = false.
Proof.
  intros Hp Hi Hk Hik Hex.
  pose proof (cell_trace_drop j i steps c ci pi Hi) as Hd.
  assert (Hk' : drop i (cell_trace j c steps) !! (S (k - S i))%nat
                = Some (ck, pk)).
  { rewrite lookup_drop. by replace (i + S (k - S i))%nat with k by lia. }
  rewrite Hd in Hk'.
  assert (Hi' : drop i (cell_trace j c steps) !! 0%nat = Some (ci, pi)).
  { rewrite lookup_drop. by rewrite Nat.add_0_r. }
  rewrite Hd in Hi'.
  pose proof (Forall_drop _ i _ Hp) as Hp'.
  destruct (drop i steps) as [|[len p] rest]; [done|].
  simpl in Hi', Hk'. injection Hi' as ->.
  apply Forall_cons in Hp' as [_ Hp'].
  assert (Hh : Forall (fun cp : cell * Q => cell_active cp.1 = false)
                 (cell_trace j (cell_step len j ci pi) rest)).
  { apply cell_trace_halted; [done|]. simpl. by apply Qle_bool_iff. }
  rewrite Forall_lookup in Hh. apply (Hh _ _ Hk').
Qed.

(** While a position that is never padding is active, its remainder is its
    budget plus [eps]; the remainder is never negative. *)
Lemma cell_trace_inv eps j steps : forall c,
  Forall (fun st : option Z * Q => 0 <= st.2 /\ visible st.1 j) steps ->
  (cell_active c = true -> c_remainder c == c_budget c + eps) ->
  Forall (fun cp : cell * Q =>
            cell_active cp.1 = true ->
            c_remainder cp.1 == c_budget cp.1 + eps)
    (cell_trace j c steps).
Proof.
  induction steps as [|[len p] rest IH]; intros c Hst Hinv; simpl; [done|].
  apply Forall_cons in Hst as [[Hp Hv] Hst]. simpl in Hp, Hv.
  constructor; [done|].
  apply IH; [done|]. unfold cell_active, cell_step. simpl.
  intros Ha. apply Qgtb_true in Ha.
  assert (He : cell_exhausts c p = false).
  { unfold cell_exhausts. by apply Qle_bool_false. }
  rewrite He. rewrite masked_visible by done.
  rewrite Hinv; [ring|]. apply Qgtb_true. lra.
Qed.

(** The weights of a position that is never padding are not negative and
    add up to no more than the remainder the position has left. *)
Lemma cell_weights_bounded eps j steps : forall c,
  Forall (fun st : option Z * Q => 0 <= st.2 /\ visible st.1 j) steps ->
  0 <= eps ->
  (cell_active c = true -> c_remainder c == c_budget c + eps) ->
  Forall (fun x => 0 <= x) (trace_weights (cell_trace j c steps)) /\
  (cell_active c = true ->
   Qsum (trace_weights (cell_trace j c steps)) <= c_remainder c) /\
  (cell_active c = false ->
   Qsum (trace_weights (cell_trace j c steps)) == 0).
Proof.
  induction steps as [|[len p] rest IH]; intros c Hst Heps Hinv; simpl.
  { split_and!; [constructor| |reflexivity].
    intros Ha. rewrite (Hinv Ha). apply Qgtb_true in Ha. lra. }
  apply Forall_cons in Hst as [[Hp Hv] Hst]. simpl in Hp, Hv.
  fold (trace_weights (cell_trace j (cell_step len j c p) rest)).
  unfold cell_weight.
  destruct (cell_active c) eqn:Ha.
  - pose proof (Hinv eq_refl) as Hr. pose proof Ha as Hb.
    apply Qgtb_true in Hb.
    destruct (cell_exhausts c p) eqn:He.
    + destruct (IH (cell_step len j c p) Hst Heps) as (Hnn & _ & Hz).
      { intros Ha'. apply Qgtb_true in Ha'. simpl in Ha'.
        apply Qle_bool_iff in He. lra. }
      rewrite Hz.
      2:{ apply Qgtb_false. simpl. by apply Qle_bool_iff. }
      split_and!; [constructor; [lra|done]|intros _; lra|done].
    + apply Qle_bool_false in He.
      destruct (IH (cell_step len j c p) Hst Heps) as (Hnn & Hle & _).
      { intros _. unfold cell_step. simpl.
        assert (He' : cell_exhausts c p = false)
          by (by apply Qle_bool_false).
        rewrite He', masked_visible by done. lra. }
      assert (Ha' : cell_active (cell_step len j c p) = true)
        by (apply Qgtb_true; simpl; lra).
      specialize (Hle Ha'). unfold cell_step in Hle at 2. simpl in Hle.
      assert (He' : cell_exhausts c p = false)
        by (by apply Qle_bool_false).
      rewrite He', masked_visible in Hle by done.
      split_and!; [constructor; [done|done]|intros _; lra|done].
  - apply Qgtb_false in Ha.
    destruct (IH (cell_step len j c p) Hst Heps) as (Hnn & _ & Hz).
    { intros Ha'. apply Qgtb_true in Ha'. simpl in Ha'. lra. }
    rewrite Hz by (apply Qgtb_false; simpl; lra).
    split_and!; [constructor; [lra|done]|done|intros _; lra].
Qed.

(** The step counter of a position that is never padding counts the calls
    that found it active. *)
Lemma cell_run_steps j steps : forall c e,
  Forall (fun st : option Z * Q => visible st.1 j) steps ->
  last (cell_run j c steps) = Some e ->
  c_steps (cell_step e.2.1 j e.1 e.2.2)
  == c_steps c
     + Qsum (indicator <$>
             ((fun e : cell * (option Z * Q) => cell_active e.1)
                <$> cell_run j c steps)).
Proof.
  induction steps as [|st rest IH]; intros c e Hv Hl; [done|].
  apply Forall_cons in Hv as [Hv0 Hv].
  destruct rest as [|st2 rest].
  - simpl in Hl. injection Hl as <-. csimpl.
    rewrite masked_visible by done. unfold indicator. ring.
  - assert (Hl' : last (cell_run j (cell_step st.1 j c st.2) (st2 :: rest))
                  = Some e) by exact Hl.
    rewrite (IH _ _ Hv Hl').
    change (cell_run j c (st :: st2 :: rest))
      with ((c, st) :: cell_run j (cell_step st.1 j c st.2) (st2 :: rest)).
    rewrite !fmap_cons. cbn [Qsum foldr cell_step c_steps fst snd].
    fold (Qsum (indicator <$>
             ((fun e : cell * (option Z * Q) => cell_active e.1)
                <$> cell_run j (cell_step st.1 j c st.2) (st2 :: rest)))).
    rewrite masked_visible by done. unfold indicator at 2. ring.
Qed.

(** With the same length entry in every call, neither the masked remainder
    nor the step counter of a position is ever negative. *)
Lemma cell_run_nonneg eps j len steps : forall c,
  Forall (fun st : option Z * Q => 0 <= st.2 /\ st.1 = len) steps ->
  0 <= eps ->
  (visible len j ->
   (cell_active c = true -> c_remainder c == c_budget c + eps) /\
   0 <= c_remainder c) ->
  0 <= c_steps c ->
  Forall (fun e : cell * (option Z * Q) =>
            0 <= masked (c_remainder e.1) e.2.1 j /\
            0 <= c_steps (cell_step e.2.1 j e.1 e.2.2))
    (cell_run j c steps).
Proof.
  assert (Hm : forall x, 0 <= x -> 0 <= masked x len j).
  { intros x Hx. destruct len as [l|]; simpl; [|done].
    destruct (Z.of_nat j <? l)%Z; lra. }
  induction steps as [|[len' p] rest IH]; intros c Hst Heps Hinv Hs;
    simpl; [done|].
  apply Forall_cons in Hst as [[Hp Hlen] Hst]. simpl in Hp, Hlen.
  subst len'.
  assert (Hs' : 0 <= c_steps (cell_step len j c p)).
  { simpl. apply Hm. destruct (cell_active c); lra. }
  constructor.
  - split; [|done]. simpl.
    destruct len as [l|]; simpl.
    + destruct (Z.of_nat j <? l)%Z eqn:Hjl; [|lra].
      apply Z.ltb_lt in Hjl. destruct (Hinv Hjl) as [_ Hr]. lra.
    + destruct (Hinv I) as [_ Hr]. done.
  - apply IH; try done.
    intros Hv. specialize (Hinv Hv). destruct Hinv as [Hinv Hr].
    unfold cell_step, cell_active. simpl.
    destruct (cell_exhausts c p) eqn:He.
    + split.
      * intros Ha. apply Qgtb_true in Ha. apply Qle_bool_iff in He. lra.
      * rewrite masked_visible by done. done.
    + apply Qle_bool_false in He.
      assert (Ha : cell_active c = true) by (apply Qgtb_true; lra).
      specialize (Hinv Ha). rewrite masked_visible by done.
      split; [intros _; lra|lra].
Qed.

(** As long as no call exhausts the budget of an active position, its
    weights are the halting values and stay below the budget. *)
Lemma cell_weights_below_budget j steps : forall c,
  Forall (fun st : option Z * Q => 0 <= st.2) steps ->
  cell_active c = true ->
  Forall (fun cp : cell * Q =>
            ~ (cell_active cp.1 = true /\ cell_exhausts cp.1 cp.2 = true))
    (cell_trace j c steps) ->
  Qsum (trace_weights (cell_trace j c steps)) < c_budget c.
Proof.
  induction steps as [|[len p] rest IH]; intros c Hp Ha Hne; simpl.
  { by apply Qgtb_true in Ha. }
  apply Forall_cons in Hp as [Hp0 Hp]. simpl in Hp0.
  apply Forall_cons in Hne as [Hne0 Hne]. simpl in Hne0.
  fold (trace_weights (cell_trace j (cell_step len j c p) rest)).
  destruct (cell_exhausts c p) eqn:He; [by destruct Hne0|].
  unfold cell_weight. rewrite Ha, He.
  apply Qle_bool_false in He.
  assert (Ha' : cell_active (cell_step len j c p) = true)
    by (apply Qgtb_true; simpl; lra).
  specialize (IH _ Hp Ha' Hne). simpl in IH. lra.
Qed.

Section Runs.

Variable sigmoid : Q -> Q.
Hypothesis sigmoid_nonneg : forall x, 0 <= sigmoid x.

Lemma call_step_full n s d w (b j : nat) self a :
  ready n s self -> weights self = Some w -> weights_ok w ->
  arg_ok n s d a -> (b < n)%nat -> (j < s)%nat ->
  exists L c self1 outs ctl1,
    the_locals sigmoid self a = Ok L /\
    call sigmoid self a = Ok (self1, outs) /\
    cell_of (l_control L) b j = Some c /\
    link_full b j L (c, step_of sigmoid w b j a) /\
    control self1 = Some ctl1 /\ ctl_ok n s ctl1 /\
    cell_of ctl1 b j
    = Some (cell_step (step_of sigmoid w b j a).1 j c
              (step_of sigmoid w b j a).2) /\
    weights self1 = Some w.
Proof.
  intros Hr Hw Hwok Ha Hb Hj.
  destruct (call_step sigmoid n s d w b j self a Hr Hw Hwok Ha Hb Hj)
    as (L & c & p & self1 & outs & ctl1 & HL & Hcall & Hlink & Hctl1
        & Hok1 & Hc1 & Hp & Hw1 & Hmr & Has).
  subst p. exists L, c, self1, outs, ctl1. split_and!; try done.
  - by destruct Hlink.
  - destruct (call_inv sigmoid _ _ _ _ Hcall)
      as (input & lengths & w' & _ & _ & -> & HL').
    rewrite HL in HL'. injection HL' as HL'. rewrite <- HL' in Hctl1.
    cbn [store_locals control] in Hctl1. injection Hctl1 as <-.
    apply cell_of_Some in Hc1.
    cbn [halt_budget remainder active_steps] in Hc1.
    by destruct Hc1 as (? & ? & ?).
Qed.

Lemma calls_settled_full n s d w (b j : nat) args : forall self ctl c,
  control self = Some ctl -> ctl_ok n s ctl -> cell_of ctl b j = Some c ->
  weights self = Some w -> weights_ok w ->
  Forall (arg_ok n s d) args -> (b < n)%nat -> (j < s)%nat ->
  exists self' Ls,
    calls sigmoid self args = Ok (self', Ls) /\
    Forall2 (link_full b j) Ls (cell_run j c (step_of sigmoid w b j <$> args)).
Proof.
  induction args as [|a rest IH];
    intros self ctl c Hctl Hok Hc Hw Hwok Hargs Hb Hj.
  - exists self, []. split; [done|constructor].
  - apply Forall_cons in Hargs as [Ha Hargs].
    assert (Hr : ready n s self) by (unfold ready; by rewrite Hctl).
    destruct (call_step_full n s d w b j self a Hr Hw Hwok Ha Hb Hj)
      as (L & c' & self1 & outs & ctl1 & HL & Hcall & Hc' & Hlink & Hctl1
          & Hok1 & Hc1 & Hw1).
    assert (Hlc : l_control L = ctl).
    { eapply the_locals_settled; try done. by destruct Hok. }
    assert (c' = c) as -> by congruence.
    destruct (IH self1 ctl1 _ Hctl1 Hok1 Hc1 Hw1 Hwok Hargs Hb Hj)
      as (self' & Ls & Hcalls & Hlinks).
    exists self', (L :: Ls). split.
    + simpl. rewrite HL. simpl. rewrite Hcall. simpl. rewrite Hcalls. done.
    + csimpl. by constructor.
Qed.

(** A run of calls of one input shape, seen from position (b, j): the
    local values of the calls follow the run of one cell, which for a layer
    that makes its control tensors in the first call starts with the whole
    budget. *)
Lemma run_trace n s d self w args self' Ls (b j : nat) :
  ready n s self -> weights self = Some w -> weights_ok w ->
  Forall (arg_ok n s d) args -> (b < n)%nat -> (j < s)%nat ->
  calls sigmoid self args = Ok (self', Ls) ->
  exists c0,
    Forall2 (link_full b j) Ls
      (cell_run j c0 (step_of sigmoid w b j <$> args)) /\
    Forall2 (link b j) Ls
      (cell_trace j c0 (step_of sigmoid w b j <$> args)) /\
    Forall (fun st : option Z * Q => 0 <= st.2)
      (step_of sigmoid w b j <$> args) /\
    (fresh_for n self ->
     c0 = {| c_budget := 1 - halt_epsilon self; c_remainder := 1;
             c_steps := 0 |}).
Proof.
  intros Hr Hw Hwok Hargs Hb Hj Hcalls.
  assert (Hnn : Forall (fun st : option Z * Q => 0 <= st.2)
                  (step_of sigmoid w b j <$> args)).
  { apply Forall_fmap, Forall_forall. intros a _. simpl.
    by apply step_of_nonneg. }
  assert (Hl : forall c0 Ls,
            Forall2 (link_full b j) Ls
              (cell_run j c0 (step_of sigmoid w b j <$> args)) ->
            Forall2 (link b j) Ls
              (cell_trace j c0 (step_of sigmoid w b j <$> args))).
  { intros c0 Ls0 H. rewrite cell_run_trace. apply Forall2_fmap_r.
    eapply Forall2_impl; [exact H|]. by intros L e [? _]. }
  destruct args as [|a rest].
  { injection Hcalls as <- <-.
    exists {| c_budget := 1 - halt_epsilon self; c_remainder := 1;
              c_steps := 0 |}.
    split_and!; [constructor|constructor|done|done]. }
  pose proof (Forall_inv Hargs) as Ha.
  pose proof (Forall_inv_tail Hargs) as Hrest.
  destruct (call_step_full n s d w b j self a Hr Hw Hwok Ha Hb Hj)
    as (L & c & self1 & outs & ctl1 & HL & Hcall & Hc & Hlink & Hctl1
        & Hok1 & Hc1 & Hw1).
  destruct (calls_settled_full n s d w b j rest self1 ctl1 _
              Hctl1 Hok1 Hc1 Hw1 Hwok Hrest Hb Hj)
    as (self2 & Ls1 & Hcalls1 & Hlinks).
  simpl in Hcalls. rewrite HL in Hcalls. simpl in Hcalls.
  rewrite Hcall in Hcalls. simpl in Hcalls. rewrite Hcalls1 in Hcalls.
  simpl in Hcalls. injection Hcalls as <- <-.
  assert (Hfull : Forall2 (link_full b j) (L :: Ls1)
                    (cell_run j c (step_of sigmoid w b j <$> a :: rest))).
  { csimpl. by constructor. }
  exists c. split_and!; try done.
  - by apply Hl.
  - intros Hf. apply (fresh_cell sigmoid n s d self a L b j c Hf Ha HL Hc).
Qed.

(** X1: halting is permanent.  In calls of one input shape, once a call
    finds a position inactive (its budget used up), every later call finds
    it inactive too and gives it the effective halting weight 0; the
    halting values only need to be non-negative. *)
Theorem X1_halting_is_permanent n s d self w args self' Ls (b j i k : nat)
    Li Lk :
  ready n s self -> weights self = Some w -> weights_ok w ->
  Forall (arg_ok n s d) args -> (b < n)%nat -> (j < s)%nat ->
  calls sigmoid self args = Ok (self', Ls) ->
  Ls !! i = Some Li -> Ls !! k = Some Lk -> (i <= k)%nat ->
  at2 (l_step_is_active Li) b j = Some false ->
  at2 (l_step_is_active Lk) b j = Some false /\
  at2 (l_halting_prob Lk) b j = Some 0.
Proof.
  intros Hr Hw Hwok Hargs Hb Hj Hcalls Hi Hk Hik Hact.
  destruct (run_trace n s d self w args self' Ls b j Hr Hw Hwok Hargs Hb Hj
              Hcalls) as (c0 & _ & Hlink & Hnn & _).
  destruct (Forall2_lookup_l _ _ _ _ _ Hlink Hi) as ([ci pi] & Hti & Hli).
  destruct (Forall2_lookup_l _ _ _ _ _ Hlink Hk) as ([ck pk] & Htk & Hlk).
  destruct Hli as (_ & _ & Hai & _). destruct Hlk as (_ & _ & Hak & _ & Hwk).
  cbn [fst snd] in *.
  assert (Hci : cell_active ci = false) by congruence.
  assert (Hck : cell_active ck = false).
  { apply (cell_trace_inactive_later j _ c0 i k ci pi ck pk Hnn Hti Htk Hik).
    by apply Qgtb_false. }
  split; [congruence|].
  rewrite Hwk. unfold cell_weight. by rewrite Hck.
Qed.


Lemma visible_steps w args (b j : nat) :
  Forall (fun a => visible (arg_len_at a b) j) args ->
  Forall (fun st : option Z * Q => 0 <= st.2 /\ visible st.1 j)
    (step_of sigmoid w b j <$> args).
Proof.
  intros Hvis. apply Forall_fmap, Forall_forall. intros a Ha. simpl. split.
  - by apply step_of_nonneg.
  - rewrite step_of_len. rewrite Forall_forall in Hvis. by apply Hvis.
Qed.

(** X2: among calls of one input shape, at most one finds a given position
    active and exhausting its budget. *)
Theorem X2_budget_exhausted_once n s d self w args self' Ls (b j i k : nat)
    Li Lk :
  ready n s self -> weights self = Some w -> weights_ok w ->
  Forall (arg_ok n s d) args -> (b < n)%nat -> (j < s)%nat ->
  calls sigmoid self args = Ok (self', Ls) ->
  Ls !! i = Some Li -> Ls !! k = Some Lk ->
  exhausting b j Li -> exhausting b j Lk ->
  i = k.
Proof.
  intros Hr Hw Hwok Hargs Hb Hj Hcalls Hi Hk [Hai Hei] [Hak Hek].
  destruct (run_trace n s d self w args self' Ls b j Hr Hw Hwok Hargs Hb Hj
              Hcalls) as (c0 & _ & Hlink & Hnn & _).
  destruct (Forall2_lookup_l _ _ _ _ _ Hlink Hi) as ([ci pi] & Hti & Hli).
  destruct (Forall2_lookup_l _ _ _ _ _ Hlink Hk) as ([ck pk] & Htk & Hlk).
  destruct Hli as (_ & _ & Hai' & Hei' & _).
  destruct Hlk as (_ & _ & Hak' & Hek' & _).
  cbn [fst snd] in *.
  destruct (Nat.lt_trichotomy i k) as [Hlt|[Heq|Hgt]]; [|done|].
  - assert (cell_active ck = false).
    { apply (cell_trace_exhausted_later j _ c0 i k ci pi ck pk Hnn Hti Htk
               Hlt). congruence. }
    congruence.
  - assert (cell_active ci = false).
    { apply (cell_trace_exhausted_later j _ c0 k i ck pk ci pi Hnn Htk Hti
               Hgt). congruence. }
    congruence.
Qed.

(** X3: the weight of the exhausting call, in exact arithmetic (the tensors
    hold rationals; the rounding of float32 is not modelled).  For calls
    starting with the one that makes the control tensors and a position
    that is never padding, the call that exhausts the budget gives the
    position a weight above halt_epsilon and at most its halting value plus
    halt_epsilon. *)
Theorem X3_final_weight_bounds n s d self w args self' Ls (b j i : nat) L p wt :
  fresh_for n self -> weights self = Some w -> weights_ok w ->
  Forall (arg_ok n s d) args ->
  Forall (fun a => visible (arg_len_at a b) j) args ->
  (b < n)%nat -> (j < s)%nat ->
  calls sigmoid self args = Ok (self', Ls) ->
  Ls !! i = Some L -> exhausting b j L ->
  at2 (l_halting L) b j = Some p ->
  at2 (l_halting_prob L) b j = Some wt ->
  halt_epsilon self < wt /\ wt <= p + halt_epsilon self.
Proof.
  intros Hf Hw Hwok Hargs Hvis Hb Hj Hcalls Hi [Ha He] Hp Hwt.
  destruct (run_trace n s d self w args self' Ls b j
              (fresh_for_ready n s self Hf) Hw Hwok Hargs Hb Hj Hcalls)
    as (c0 & _ & Hlink & _ & Hc0).
  specialize (Hc0 Hf).
  destruct (Forall2_lookup_l _ _ _ _ _ Hlink Hi) as ([ci pi] & Hti & Hli).
  destruct Hli as (_ & Hp' & Ha' & He' & Hwt'). cbn [fst snd] in *.
  assert (Hinv : Forall (fun cp : cell * Q =>
                    cell_active cp.1 = true ->
                    c_remainder cp.1 == c_budget cp.1 + halt_epsilon self)
                   (cell_trace j c0 (step_of sigmoid w b j <$> args))).
  { apply cell_trace_inv; [by apply visible_steps|].
    intros _. rewrite Hc0. simpl. ring. }
  rewrite Forall_lookup in Hinv. specialize (Hinv _ _ Hti). simpl in Hinv.
  assert (Hai : cell_active ci = true) by congruence.
  assert (Hei : cell_exhausts ci pi = true) by congruence.
  assert (pi = p) as -> by congruence.
  assert (wt = c_remainder ci) as ->.
  { rewrite Hwt' in Hwt. injection Hwt as <-.
    unfold cell_weight. by rewrite Hai, Hei. }
  rewrite (Hinv Hai). apply Qgtb_true in Hai. apply Qle_bool_iff in Hei.
  split; lra.
Qed.

(** X4: in exact arithmetic, for calls starting with the one that makes the
    control tensors (the first call of the layer, or the first with a new
    batch size) and halt_epsilon >= 0, the effective halting weights of a
    position that is never padding are not negative and add up to at most
    1, however many calls are made. *)
Theorem X4_weights_bounded n s d self w args self' Ls ws (b j : nat) :
  fresh_for n self -> weights self = Some w -> weights_ok w ->
  0 <= halt_epsilon self ->
  Forall (arg_ok n s d) args ->
  Forall (fun a => visible (arg_len_at a b) j) args ->
  (b < n)%nat -> (j < s)%nat ->
  calls sigmoid self args = Ok (self', Ls) ->
  weights_at b j Ls ws ->
  Forall (fun x => 0 <= x) ws /\ Qsum ws <= 1.
Proof.
  intros Hf Hw Hwok Heps Hargs Hvis Hb Hj Hcalls Hws.
  destruct (run_trace n s d self w args self' Ls b j
              (fresh_for_ready n s self Hf) Hw Hwok Hargs Hb Hj Hcalls)
    as (c0 & _ & Hlink & _ & Hc0).
  specialize (Hc0 Hf).
  rewrite (link_weights b j _ _ ws Hlink Hws).
  destruct (cell_weights_bounded (halt_epsilon self) j
              (step_of sigmoid w b j <$> args) c0
              (visible_steps w args b j Hvis) Heps)
    as (Hnn & Hle & Hz).
  { intros _. rewrite Hc0. simpl. ring. }
  split; [done|].
  destruct (cell_active c0) eqn:Ha.
  - specialize (Hle eq_refl). rewrite Hc0 in Hle at 2. simpl in Hle. lra.
  - rewrite (Hz eq_refl). lra.
Qed.

Lemma link_not_exhausting b j Ls tr :
  Forall2 (link b j) Ls tr -> ~ Exists (exhausting b j) Ls ->
  Forall (fun cp : cell * Q =>
            ~ (cell_active cp.1 = true /\ cell_exhausts cp.1 cp.2 = true)) tr.
Proof.
  induction 1 as [|L cp Ls tr Hcp _ IH]; intros Hne; [done|].
  constructor.
  - intros [Ha He]. apply Hne, Exists_cons_hd.
    destruct Hcp as (_ & _ & Hact & Hnf & _). split; congruence.
  - apply IH. intros Hex. by apply Hne, Exists_cons_tl.
Qed.

(** X5: the other side of the conservation law, in exact arithmetic.  For
    calls starting with the one that makes the control tensors and
    halt_epsilon < 1, as long as no call has exhausted the budget of a
    position, its effective halting weights add up to less than
    1 - halt_epsilon: a loop that ends before the position halts leaves its
    weighted output incomplete. *)
Theorem X5_weights_below_budget n s d self w args self' Ls ws (b j : nat) :
  fresh_for n self -> weights self = Some w -> weights_ok w ->
  halt_epsilon self < 1 ->
  Forall (arg_ok n s d) args -> (b < n)%nat -> (j < s)%nat ->
  calls sigmoid self args = Ok (self', Ls) ->
  weights_at b j Ls ws ->
  ~ Exists (exhausting b j) Ls ->
  Qsum ws < 1 - halt_epsilon self.
Proof.
  intros Hf Hw Hwok Heps Hargs Hb Hj Hcalls Hws Hne.
  destruct (run_trace n s d self w args self' Ls b j
              (fresh_for_ready n s self Hf) Hw Hwok Hargs Hb Hj Hcalls)
    as (c0 & _ & Hlink & Hnn & Hc0).
  specialize (Hc0 Hf).
  rewrite (link_weights b j _ _ ws Hlink Hws).
  assert (Hb0 : c_budget c0 = 1 - halt_epsilon self) by (by rewrite Hc0).
  rewrite <- Hb0. apply cell_weights_below_budget; [done| |].
  - apply Qgtb_true. rewrite Hb0. lra.
  - by apply (link_not_exhausting b j Ls).
Qed.

Lemma link_actives b j Ls run acts :
  Forall2 (link_full b j) Ls run -> actives_at b j Ls acts ->
  acts = (fun e : cell * (option Z * Q) => cell_active e.1) <$> run.
Proof.
  intros Hl. revert acts. induction Hl as [|L e Ls run He _ IH];
    intros acts Ha; inversion Ha as [|? x ? acts' Hx Hacts]; subst; [done|].
  csimpl. destruct He as ((_ & _ & Hact & _) & _).
  rewrite (IH _ Hacts). cbn [fst] in Hact. congruence.
Qed.

(** X6: for calls starting with the one that makes the control tensors
    (which sets the counter to 0) and a position that is never padding,
    the entry of [active_steps] after the last call is the number of calls
    that found the position active. *)
Theorem X6_active_steps_count n s d self w args self' Ls acts (b j : nat) L a :
  fresh_for n self -> weights self = Some w -> weights_ok w ->
  Forall (arg_ok n s d) args ->
  Forall (fun a => visible (arg_len_at a b) j) args ->
  (b < n)%nat -> (j < s)%nat ->
  calls sigmoid self args = Ok (self', Ls) ->
  actives_at b j Ls acts ->
  last Ls = Some L ->
  at2 (l_active_steps L) b j = Some a ->
  a == Qsum (indicator <$> acts).
Proof.
  intros Hf Hw Hwok Hargs Hvis Hb Hj Hcalls Hacts HL Ha.
  destruct (run_trace n s d self w args self' Ls b j
              (fresh_for_ready n s self Hf) Hw Hwok Hargs Hb Hj Hcalls)
    as (c0 & Hfull & _ & _ & Hc0).
  specialize (Hc0 Hf).
  rewrite (link_actives b j _ _ acts Hfull Hacts).
  pose proof (Forall2_last _ _ _ Hfull) as Hlast. rewrite HL in Hlast.
  inversion Hlast as [L' e (_ & _ & _ & _ & Hs) HL' He|]; subst L'.
  symmetry in He.
  assert (Hv : Forall (fun st : option Z * Q => visible st.1 j)
                 (step_of sigmoid w b j <$> args)).
  { eapply Forall_impl; [exact (visible_steps w args b j Hvis)|].
    by intros ? [_ ?]. }
  pose proof (cell_run_steps j _ c0 e Hv He) as Hsteps.
  rewrite Hs in Ha. injection Ha as <-.
  rewrite Hsteps, Hc0. simpl. ring.
Qed.

(** Every call of a run is the call of a ready layer with the weights of
    the first, and keeps what all calls keep. *)
Lemma calls_each (I : TransformerACT -> Prop) n s d w args :
  (forall self a self1 outs,
     I self -> call sigmoid self a = Ok (self1, outs) -> I self1) ->
  forall self self' Ls,
  ready n s self -> I self -> weights self = Some w -> weights_ok w ->
  Forall (arg_ok n s d) args -> (0 < s)%nat ->
  calls sigmoid self args = Ok (self', Ls) ->
  Forall2 (fun a L => exists self_i,
             ready n s self_i /\ I self_i /\ weights self_i = Some w /\
             the_locals sigmoid self_i a = Ok L) args Ls /\
  ready n s self' /\ I self' /\ weights self' = Some w.
Proof.
  intros HI.
  induction args as [|a rest IH];
    intros self self' Ls Hr Hi Hw Hwok Hargs Hs Hcalls.
  - injection Hcalls as <- <-. split_and!; [constructor|done..].
  - apply Forall_cons in Hargs as [Ha Hargs]. simpl in Hcalls.
    destruct (the_locals sigmoid self a) as [L|] eqn:HL; [|done].
    simpl in Hcalls.
    destruct (call sigmoid self a) as [[self1 outs]|] eqn:Hcall; [|done].
    simpl in Hcalls.
    destruct (calls sigmoid self1 rest) as [[self2 Ls2]|] eqn:Hrest; [|done].
    simpl in Hcalls. injection Hcalls as <- <-.
    destruct (call_ready sigmoid n s d self w a self1 outs Hr Hw Hwok Ha Hs
                Hcall) as [Hr1 _].
    assert (Hw1 : weights self1 = Some w).
    { destruct (call_inv sigmoid _ _ _ _ Hcall)
        as (input & lengths & w' & _ & _ & -> & _). done. }
    destruct (IH self1 self2 Ls2 Hr1 (HI _ _ _ _ Hi Hcall) Hw1 Hwok Hargs Hs
                Hrest) as (Hall & Hr2 & Hi2 & Hw2).
    split_and!; try done.
    constructor; [|done]. by exists self.
Qed.

Lemma Qsum_nonneg (l : list Q) : Forall (fun x => 0 <= x) l -> 0 <= Qsum l.
Proof. induction 1 as [|x l Hx _ IH]; simpl; lra. Qed.

(** X7: in exact arithmetic, for calls starting with the one that makes the
    control tensors, with halt_epsilon >= 0, time_penalty >= 0 and the same
    length entry for a batch row in every call, the ponder cost of that row
    is never negative. *)
Theorem X7_ponder_cost_nonneg n s d self w args self' Ls len (b i : nat) L pc :
  fresh_for n self -> weights self = Some w -> weights_ok w ->
  0 <= halt_epsilon self -> 0 <= time_penalty_t w ->
  Forall (arg_ok n s d) args ->
  Forall (fun a => arg_len_at a b = len) args ->
  (b < n)%nat -> (0 < s)%nat ->
  calls sigmoid self args = Ok (self', Ls) ->
  Ls !! i = Some L ->
  l_ponder_cost L !! b = Some pc ->
  0 <= pc.
Proof.
  intros Hf Hw Hwok Heps Htp Hargs Hlen Hb Hs Hcalls Hi Hpc.
  pose proof (fresh_for_ready n s self Hf) as Hr.
  destruct (calls_each (fun _ => True) n s d w args ltac:(done)
              self self' Ls Hr I Hw Hwok Hargs Hs Hcalls) as (Heach & _).
  destruct (Forall2_lookup_r _ _ _ _ _ Heach Hi)
    as (a & Hai & self_i & Hri & _ & Hwi & HLi).
  rewrite Forall_lookup in Hargs. pose proof (Hargs _ _ Hai) as Ha.
  destruct (ponder_row sigmoid n s d self_i w a L b Hri Hwi Hwok Ha Hb Hs HLi)
    as (row & Hrow & Hrl & Hpc').
  rewrite Hpc' in Hpc. injection Hpc as <-.
  assert (Hnn : Forall (fun x => 0 <= x) row).
  { apply Forall_lookup. intros j x Hx.
    assert (Hj : (j < s)%nat).
    { rewrite <- Hrl. by apply lookup_lt_is_Some_1. }
    assert (Hargs' : Forall (arg_ok n s d) args)
      by (by apply Forall_lookup).
    destruct (run_trace n s d self w args self' Ls b j Hr Hw Hwok Hargs'
                Hb Hj Hcalls) as (c0 & Hfull & _ & _ & Hc0).
    specialize (Hc0 Hf).
    destruct (Forall2_lookup_l _ _ _ _ _ Hfull Hi)
      as (e & Hei & _ & Hmr & _ & _ & Hst).
    assert (Hrun : Forall (fun e : cell * (option Z * Q) =>
                      0 <= masked (c_remainder e.1) e.2.1 j /\
                      0 <= c_steps (cell_step e.2.1 j e.1 e.2.2))
                     (cell_run j c0 (step_of sigmoid w b j <$> args))).
    { apply (cell_run_nonneg (halt_epsilon self) j len); try done.
      - apply Forall_fmap, Forall_forall. intros a' Ha'. simpl. split.
        + by apply step_of_nonneg.
        + rewrite step_of_len. rewrite Forall_forall in Hlen.
          by apply Hlen.
      - intros _. rewrite Hc0. simpl. split; [intros _; ring|lra].
      - rewrite Hc0. simpl. lra. }
    rewrite Forall_lookup in Hrun. destruct (Hrun _ _ Hei) as [H1 H2].
    assert (Hat : at2 (t2_add (l_masked_remainder L) (l_active_steps L)) b j
                  = Some x).
    { unfold at2. by rewrite Hrow. }
    unfold t2_add in Hat. rewrite at2_ew2, Hmr, Hst in Hat.
    injection Hat as <-. cbn [cell_step c_steps] in H2. lra. }
  apply Qsum_nonneg in Hnn.
  assert (Hs' : 0 < inject_Z (Z.of_nat s)).
  { unfold Qlt. simpl. lia. }
  apply Qmult_le_0_compat; [done|].
  apply Qle_shift_div_l; [done|]. lra.
Qed.

End Runs.

Section Outputs.

Variable sigmoid : Q -> Q.

Lemma has_shape3_ew3 {A B C} (f : A -> B -> C) n s d
    (a : list (list (list A))) (c : list (list (list B))) :
  has_shape3 n s d a -> has_shape3 n s d c -> has_shape3 n s d (ew3 f a c).
Proof.
  intros [Hla Ha] [Hlc Hc]. split.
  - unfold ew3. rewrite length_zip_with. lia.
  - unfold ew3. apply Forall_lookup. intros i m Hm.
    apply lookup_zip_with_Some in Hm as (ma & mc & -> & Hma & Hmc).
    rewrite Forall_lookup in Ha. rewrite Forall_lookup in Hc.
    apply has_shape2_ew2; eauto.
Qed.

Lemma has_shape3_K_expand_mul n s d (wt : tensor2) (x : tensor3) :
  has_shape2 n s wt -> has_shape3 n s d x ->
  has_shape3 n s d (K_expand_mul wt x).
Proof.
  intros [Hlw Hw] [Hlx Hx]. unfold K_expand_mul, ew2. split.
  - rewrite length_zip_with. lia.
  - apply Forall_lookup. intros i m Hm.
    apply lookup_zip_with_Some in Hm as (rw & mx & -> & Hrw & Hmx).
    rewrite Forall_lookup in Hw. rewrite Forall_lookup in Hx.
    pose proof (Hw _ _ Hrw) as Hrl. destruct (Hx _ _ Hmx) as [Hml Hmv].
    split; [rewrite length_zip_with; lia|].
    apply Forall_lookup. intros j v Hv.
    apply lookup_zip_with_Some in Hv as (wi & xi & -> & _ & Hxi).
    rewrite length_fmap. rewrite Forall_lookup in Hmv. eauto.
Qed.

Lemma has_shape3_K_zeros_like3 n s d (x : tensor3) :
  has_shape3 n s d x -> has_shape3 n s d (K_zeros_like3 x).
Proof.
  intros [Hlx Hx]. unfold K_zeros_like3, ew1. split.
  - by rewrite length_fmap.
  - apply Forall_fmap. eapply Forall_impl; [exact Hx|].
    intros m [Hml Hmv]. simpl. split; [by rewrite length_fmap|].
    apply Forall_fmap. eapply Forall_impl; [exact Hmv|].
    intros v Hv. simpl. by rewrite length_fmap.
Qed.

Lemma has_shape3_at2 {A} n s d (t : list (list (list A))) (b j : nat) v :
  has_shape3 n s d t -> at2 t b j = Some v -> length v = d.
Proof.
  intros [_ Ht] Hv. unfold at2 in Hv.
  destruct (t !! b) as [m|] eqn:Hm; [|done]. simpl in Hv.
  rewrite Forall_lookup in Ht. destruct (Ht _ _ Hm) as [_ Hmv].
  rewrite Forall_lookup in Hmv. eauto.
Qed.

Lemma has_shape3_at2_is_Some {A} n s d (t : list (list (list A)))
    (b j : nat) :
  has_shape3 n s d t -> (b < n)%nat -> (j < s)%nat -> is_Some (at2 t b j).
Proof.
  intros [Hl Ht] Hb Hj. unfold at2.
  destruct (lookup_lt_is_Some_2 t b) as [m Hm]; [lia|].
  rewrite Hm. simpl. apply lookup_lt_is_Some_2.
  rewrite Forall_lookup in Ht. destruct (Ht _ _ Hm) as [-> _]. done.
Qed.

(** The output a call adds has the shape of the input. *)
Lemma step_weighted_output_shape n s d self w input lengths :
  let L := call_locals sigmoid self w input lengths in
  ready n s self -> zeros_input_ok self -> weights_ok w ->
  has_shape3 n s d input -> (0 < s)%nat ->
  has_shape3 n s d (l_step_weighted_output L).
Proof.
  intros L Hr Hz Hwok Hin Hs.
  pose proof (l_control_ok sigmoid n s d self w input lengths Hr Hin Hs Hwok)
    as Hc.
  pose proof (has_shape2_halting_unit sigmoid n s d w input Hin Hs Hwok) as Hh.
  fold L in Hc. destruct Hc as [Hcb Hcr Hcs Hcz Hco _ _ _].
  unfold L. rewrite l_step_weighted_output_eq. fold L.
  destruct (l_any_step_is_active L).
  - apply has_shape3_K_expand_mul; [|done].
    unfold L. rewrite l_halting_prob_eq. fold L.
    apply has_shape2_K_switch; [|apply has_shape2_K_switch|done]; try done.
    + unfold L. rewrite l_step_is_active_eq. by apply has_shape2_ew1.
    + unfold L. rewrite l_no_further_steps_eq, l_halting_eq.
      by apply has_shape2_ew1, has_shape2_ew2.
  - assert (Hzi : l_zeros_like_input L = K_zeros_like3 input).
    { unfold L, call_locals. simpl.
      destruct (zeros_like_input self) as [z|] eqn:Ez; [|done].
      destruct (decide (shape_of3 z <> shape_of3 input)) as [|Hne]; [done|].
      apply K_zeros_like3_shape; [by apply Hz|].
      destruct (decide (shape_of3 z = shape_of3 input)); [done|].
      by destruct Hne. }
    rewrite Hzi. by apply has_shape3_K_zeros_like3.
Qed.

Lemma l_weighted_output_eq self w input lengths :
  let L := call_locals sigmoid self w input lengths in
  l_weighted_output L =
  match weighted_output self with
  | None => l_step_weighted_output L
  | Some wo =>
      if decide (length wo <> length input)
      then l_step_weighted_output L
      else t3_add wo (l_step_weighted_output L)
  end.
Proof. reflexivity. Qed.

(** The weighted output a call leaves has the shape of the input. *)
Lemma weighted_output_shape n s d self w input lengths :
  let L := call_locals sigmoid self w input lengths in
  ready n s self -> zeros_input_ok self -> output_ok n s d self ->
  weights_ok w -> has_shape3 n s d input -> (0 < s)%nat ->
  has_shape3 n s d (l_weighted_output L).
Proof.
  intros L Hr Hz Ho Hwok Hin Hs.
  pose proof (step_weighted_output_shape n s d self w input lengths
                Hr Hz Hwok Hin Hs) as Hst.
  fold L in Hst. unfold L. rewrite l_weighted_output_eq. fold L.
  unfold output_ok in Ho. destruct (weighted_output self) as [wo|]; [|done].
  destruct Hin as [Hlen Hrows]. rewrite Hlen.
  destruct (decide (length wo <> n)) as [|He]; [done|].
  apply has_shape3_ew3; [|done]. apply Ho.
  destruct (Nat.eq_dec (length wo) n); [done|]. by destruct He.
Qed.

Lemma at3_t3_add (a c : tensor3) (b j k : nat) :
  at3 (t3_add a c) b j k =
  match at3 a b j k, at3 c b j k with
  | Some x, Some y => Some (x + y)
  | _, _ => None
  end.
Proof.
  unfold at3. change (t3_add a c) with (ew2 (zip_with Qplus) a c).
  rewrite at2_ew2.
  destruct (at2 a b j) as [va|], (at2 c b j) as [vc|]; simpl; try done.
  - rewrite lookup_zip_with. by destruct (va !! k), (vc !! k).
  - by destruct (va !! k).
Qed.

(** One call, seen from feature [k] of position (b, j) of the output it
    adds. *)
Lemma step_weighted_output_at3 n s d self w a L (b j k : nat) wt x y :
  ready n s self -> zeros_input_ok self ->
  weights self = Some w -> weights_ok w ->
  arg_ok n s d a -> (b < n)%nat -> (j < s)%nat ->
  the_locals sigmoid self a = Ok L ->
  at2 (l_halting_prob L) b j = Some wt ->
  (exists input lengths,
     unpack_input a = Ok (input, lengths) /\ at2 input b j = Some x) ->
  at3 (l_step_weighted_output L) b j k = Some y ->
  y == wt * default 0 (x !! k).
Proof.
  intros Hr Hz Hw Hwok Ha Hb Hj HL Hwt (input & lengths & Hun & Hx) Hy.
  destruct (step_weighted_output_at sigmoid n s d self w a L b j
              Hr Hz Hw Hwok Ha Hb Hj HL)
    as (input' & lengths' & x' & wt' & v & Hun' & Hx' & Hwt' & Hv & Heq).
  rewrite Hun in Hun'. injection Hun' as <- <-.
  rewrite Hx in Hx'. injection Hx' as <-.
  rewrite Hwt in Hwt'. injection Hwt' as <-.
  unfold at3 in Hy. rewrite Hv in Hy. simpl in Hy.
  destruct (Forall2_lookup_l _ _ _ _ _ Heq Hy) as (z & Hz' & Hyz).
  rewrite list_lookup_fmap in Hz'.
  destruct (x !! k) as [xk|]; [|done]. simpl in *.
  injection Hz' as <-. done.
Qed.

Lemma acc_settled n s d w (b j k : nat) args :
  forall self self' Ls ws xs wo,
  ready n s self -> zeros_input_ok self ->
  weights self = Some w -> weights_ok w ->
  weighted_output self = Some wo -> has_shape3 n s d wo ->
  Forall (arg_ok n s d) args -> (b < n)%nat -> (j < s)%nat ->
  calls sigmoid self args = Ok (self', Ls) ->
  weights_at b j Ls ws -> tokens_at b j args xs ->
  exists wo',
    weighted_output self' = Some wo' /\ has_shape3 n s d wo' /\
    forall y, at3 wo' b j k = Some y ->
      exists y0, at3 wo b j k = Some y0 /\ y == y0 + weighted_sum ws xs k.
Proof.
  induction args as [|a rest IH];
    intros self self' Ls ws xs wo Hr Hz Hw Hwok Hwo Hsh Hargs Hb Hj Hcalls
      Hws Hxs.
  - injection Hcalls as <- <-. inversion Hws; subst.
    exists wo. split_and!; try done.
    intros y Hy. exists y. split; [done|]. unfold weighted_sum. simpl. ring.
  - apply Forall_cons in Hargs as [Ha Hargs]. simpl in Hcalls.
    destruct (the_locals sigmoid self a) as [L|] eqn:HL; [|done].
    simpl in Hcalls.
    destruct (call sigmoid self a) as [[self1 outs]|] eqn:Hcall; [|done].
    simpl in Hcalls.
    destruct (calls sigmoid self1 rest) as [[self2 Ls2]|] eqn:Hrest; [|done].
    simpl in Hcalls. injection Hcalls as <- <-.
    inversion Hws as [|? wt ? ws' Hwt Hws']; subst.
    inversion Hxs as [|? x ? xs' Hx Hxs']; subst.
    assert (Hs : (0 < s)%nat) by lia.
    destruct (call_ready sigmoid n s d self w a self1 outs Hr Hw Hwok Ha Hs
                Hcall) as [Hr1 _].
    pose proof (call_zeros_input_ok sigmoid self a self1 outs Hz Hcall) as Hz1.
    destruct (call_inv sigmoid _ _ _ _ Hcall)
      as (input & lengths & w' & Hun & Hw' & -> & HL').
    rewrite Hw in Hw'. injection Hw' as <-.
    rewrite HL in HL'. injection HL' as HL'.
    destruct (arg_ok_unpack _ _ _ _ Ha) as (i' & l' & Hun' & Hin & Hl).
    rewrite Hun in Hun'. injection Hun' as <- <-.
    pose proof (step_weighted_output_shape n s d self w input lengths
                  Hr Hz Hwok Hin Hs) as Hst.
    assert (Hlw : l_weighted_output L = t3_add wo (l_step_weighted_output L)).
    { rewrite HL', l_weighted_output_eq, Hwo.
      destruct Hsh as [Hlwo _]. destruct Hin as [Hlin _].
      destruct (decide (length wo <> length input)) as [Hne|]; [|done].
      destruct Hne. congruence. }
    assert (Hsh1 : has_shape3 n s d (l_weighted_output L)).
    { rewrite Hlw. apply has_shape3_ew3; [done|]. by rewrite HL'. }
    destruct (IH (store_locals self (call_locals sigmoid self w input lengths))
                self2 Ls2 ws' xs' (l_weighted_output L)
                Hr1 Hz1 Hw Hwok ltac:(by rewrite HL') Hsh1 Hargs Hb Hj Hrest
                Hws' Hxs')
      as (wo' & Hwo' & Hsh' & Hacc).
    exists wo'. split_and!; try done.
    intros y Hy. destruct (Hacc y Hy) as (y1 & Hy1 & Hyy1).
    rewrite Hlw, at3_t3_add in Hy1.
    destruct (at3 wo b j k) as [y0|]; [|done].
    destruct (at3 (l_step_weighted_output L) b j k) as [ys|] eqn:Hys; [|done].
    injection Hy1 as <-.
    exists y0. split; [done|].
    pose proof (step_weighted_output_at3 n s d self w a L b j k wt x ys
                  Hr Hz Hw Hwok Ha Hb Hj HL Hwt Hx Hys) as Hstep.
    rewrite Hyy1, Hstep. unfold weighted_sum. simpl. ring.
Qed.

(** The stored weighted output after a run, feature by feature. *)
Lemma weighted_output_after_run n s d self w a rest self' Ls ws xs
    (b j : nat) :
  ready n s self -> zeros_input_ok self -> no_output_for n self ->
  weights self = Some w -> weights_ok w ->
  Forall (arg_ok n s d) (a :: rest) -> (b < n)%nat -> (j < s)%nat ->
  calls sigmoid self (a :: rest) = Ok (self', Ls) ->
  weights_at b j Ls ws -> tokens_at b j (a :: rest) xs ->
  exists wo,
    weighted_output self' = Some wo /\
    forall k y, at3 wo b j k = Some y -> y == weighted_sum ws xs k.
Proof.
  intros Hr Hz Hno Hw Hwok Hargs Hb Hj Hcalls Hws Hxs.
  apply Forall_cons in Hargs as [Ha Hargs]. simpl in Hcalls.
  destruct (the_locals sigmoid self a) as [L|] eqn:HL; [|done].
  simpl in Hcalls.
  destruct (call sigmoid self a) as [[self1 outs]|] eqn:Hcall; [|done].
  simpl in Hcalls.
  destruct (calls sigmoid self1 rest) as [[self2 Ls2]|] eqn:Hrest; [|done].
  simpl in Hcalls. injection Hcalls as <- <-.
  inversion Hws as [|? wt ? ws' Hwt Hws']; subst.
  inversion Hxs as [|? x ? xs' Hx Hxs']; subst.
  assert (Hs : (0 < s)%nat) by lia.
  destruct (call_ready sigmoid n s d self w a self1 outs Hr Hw Hwok Ha Hs
              Hcall) as [Hr1 _].
  pose proof (call_zeros_input_ok sigmoid self a self1 outs Hz Hcall) as Hz1.
  destruct (call_inv sigmoid _ _ _ _ Hcall)
    as (input & lengths & w' & Hun & Hw' & -> & HL').
  rewrite Hw in Hw'. injection Hw' as <-.
  rewrite HL in HL'. injection HL' as HL'.
  destruct (arg_ok_unpack _ _ _ _ Ha) as (i' & l' & Hun' & Hin & Hl).
  rewrite Hun in Hun'. injection Hun' as <- <-.
  pose proof (step_weighted_output_shape n s d self w input lengths
                Hr Hz Hwok Hin Hs) as Hst.
  assert (Hlw : l_weighted_output L = l_step_weighted_output L).
  { rewrite HL', l_weighted_output_eq. unfold no_output_for in Hno.
    destruct (weighted_output self) as [wo0|]; [|done].
    destruct Hin as [Hlin _]. rewrite Hlin.
    by destruct (decide (length wo0 <> n)). }
  assert (Hsh1 : has_shape3 n s d (l_weighted_output L)).
  { rewrite Hlw. by rewrite HL'. }
  destruct (acc_settled n s d w b j 0 rest
              (store_locals self (call_locals sigmoid self w input lengths))
              self2 Ls2 ws' xs' (l_weighted_output L)
              Hr1 Hz1 Hw Hwok ltac:(by rewrite HL') Hsh1 Hargs Hb Hj Hrest
              Hws' Hxs')
    as (wo & Hwo & _ & _).
  exists wo. split; [done|]. intros k y Hy.
  destruct (acc_settled n s d w b j k rest
              (store_locals self (call_locals sigmoid self w input lengths))
              self2 Ls2 ws' xs' (l_weighted_output L)
              Hr1 Hz1 Hw Hwok ltac:(by rewrite HL') Hsh1 Hargs Hb Hj Hrest
              Hws' Hxs')
    as (wo' & Hwo' & _ & Hacc).
  rewrite Hwo in Hwo'. injection Hwo' as <-.
  destruct (Hacc y Hy) as (y1 & Hy1 & Hyy1).
  rewrite Hlw in Hy1.
  pose proof (step_weighted_output_at3 n s d self w a L b j k wt x y1
                Hr Hz Hw Hwok Ha Hb Hj HL Hwt Hx Hy1) as Hstep.
  rewrite Hyy1, Hstep. unfold weighted_sum. simpl. ring.
Qed.

(** X8: the accumulated output.  After calls of one input shape, the first
    of which starts the weighted output, every feature of the stored
    [weighted_output] at a position is the sum over the calls of the
    effective halting weight times that feature of the call's input token,
    also when a call takes the constant zero tensor. *)
Theorem X8_weighted_output_is_weighted_sum n s d self w a rest self' Ls ws xs
    wo (b j k : nat) y :
  ready n s self -> zeros_input_ok self -> no_output_for n self ->
  weights self = Some w -> weights_ok w ->
  Forall (arg_ok n s d) (a :: rest) -> (b < n)%nat -> (j < s)%nat ->
  calls sigmoid self (a :: rest) = Ok (self', Ls) ->
  weights_at b j Ls ws -> tokens_at b j (a :: rest) xs ->
  weighted_output self' = Some wo ->
  at3 wo b j k = Some y ->
  y == weighted_sum ws xs k.
Proof.
  intros Hr Hz Hno Hw Hwok Hargs Hb Hj Hcalls Hws Hxs Hwo Hy.
  destruct (weighted_output_after_run n s d self w a rest self' Ls ws xs b j
              Hr Hz Hno Hw Hwok Hargs Hb Hj Hcalls Hws Hxs)
    as (wo' & Hwo' & Hsum).
  rewrite Hwo in Hwo'. injection Hwo' as <-.
  by apply Hsum.
Qed.





End Outputs.

Lemma long_calls_ok : Forall (arg_ok 1 2 1) long_calls.
Proof. unfold long_calls, tokens0. shape. Qed.

Lemma plain_calls_ok : Forall (arg_ok 1 2 1) plain_calls.
Proof. unfold plain_calls, tokens0. shape. Qed.

Lemma X1_halting_is_permanent_witness :
  exists self' Ls Li Lk,
    calls softsign_sigmoid layer0 long_calls = Ok (self', Ls) /\
    Ls !! 2%nat = Some Li /\ Ls !! 3%nat = Some Lk /\
    at2 (l_step_is_active Li) 0 0 = Some false /\
    at2 (l_step_is_active Lk) 0 0 = Some false /\
    at2 (l_halting_prob Lk) 0 0 = Some 0.
Proof.
  eexists _, _, _, _.
  split; [vm_compute; reflexivity|].
  split; [reflexivity|]. split; [reflexivity|].
  split; [vm_compute; reflexivity|].
  eapply (X1_halting_is_permanent softsign_sigmoid softsign_sigmoid_nonneg
           1 2 1 layer0 weights0 long_calls _ _ 0 0 2 3 _ _).
  - exact I.
  - reflexivity.
  - by split.
  - exact long_calls_ok.
  - lia.
  - lia.
  - vm_compute; reflexivity.
  - reflexivity.
  - reflexivity.
  - lia.
  - vm_compute; reflexivity.
Defined.

Lemma X2_budget_exhausted_once_witness :
  exists self' Ls L,
    calls softsign_sigmoid layer0 long_calls = Ok (self', Ls) /\
    Ls !! 1%nat = Some L /\ exhausting 0 0 L /\ 1%nat = 1%nat.
Proof.
  eexists _, _, _.
  split; [vm_compute; reflexivity|].
  split; [reflexivity|].
  split; [split; vm_compute; reflexivity|].
  eapply (X2_budget_exhausted_once softsign_sigmoid softsign_sigmoid_nonneg
           1 2 1 layer0 weights0 long_calls _ _ 0 0 1 1 _ _).
  - exact I.
  - reflexivity.
  - by split.
  - exact long_calls_ok.
  - lia.
  - lia.
  - vm_compute; reflexivity.
  - reflexivity.
  - reflexivity.
  - split; vm_compute; reflexivity.
  - split; vm_compute; reflexivity.
Defined.

Lemma X3_final_weight_bounds_witness :
  exists self' Ls L p wt,
    calls softsign_sigmoid layer0 plain_calls = Ok (self', Ls) /\
    Ls !! 1%nat = Some L /\ exhausting 0 0 L /\
    at2 (l_halting L) 0 0 = Some p /\
    at2 (l_halting_prob L) 0 0 = Some wt /\
    halt_epsilon layer0 < wt /\ wt <= p + halt_epsilon layer0.
Proof.
  eexists _, _, _, _, _.
  split; [vm_compute; reflexivity|].
  split; [reflexivity|].
  split; [split; vm_compute; reflexivity|].
  split; [vm_compute; reflexivity|].
  split; [vm_compute; reflexivity|].
  eapply (X3_final_weight_bounds softsign_sigmoid softsign_sigmoid_nonneg
           1 2 1 layer0 weights0 plain_calls _ _ 0 0 1 _ _ _).
  - exact I.
  - reflexivity.
  - by split.
  - exact plain_calls_ok.
  - unfold plain_calls. shape.
  - lia.
  - lia.
  - vm_compute; reflexivity.
  - reflexivity.
  - split; vm_compute; reflexivity.
  - vm_compute; reflexivity.
  - vm_compute; reflexivity.
Defined.

Lemma X4_weights_bounded_witness :
  exists self' Ls ws,
    calls softsign_sigmoid layer0 plain_calls = Ok (self', Ls) /\
    weights_at 0 0 Ls ws /\
    Forall (fun x => 0 <= x) ws /\ Qsum ws <= 1.
Proof.
  eexists _, _, _.
  split; [vm_compute; reflexivity|].
  split.
  { constructor; [vm_compute; reflexivity|].
    constructor; [vm_compute; reflexivity|]. constructor. }
  eapply (X4_weights_bounded softsign_sigmoid softsign_sigmoid_nonneg
           1 2 1 layer0 weights0 plain_calls _ _ _ 0 0).
  - exact I.
  - reflexivity.
  - by split.
  - vm_compute. discriminate.
  - exact plain_calls_ok.
  - unfold plain_calls. shape.
  - lia.
  - lia.
  - vm_compute; reflexivity.
  - constructor; [vm_compute; reflexivity|].
    constructor; [vm_compute; reflexivity|]. constructor.
Defined.

Lemma X6_active_steps_count_witness :
  exists self' Ls L a,
    calls softsign_sigmoid layer0 long_calls = Ok (self', Ls) /\
    actives_at 0 0 Ls [true; true; false; false] /\
    last Ls = Some L /\
    at2 (l_active_steps L) 0 0 = Some a /\
    a == Qsum (indicator <$> [true; true; false; false]).
Proof.
  eexists _, _, _, _.
  split; [vm_compute; reflexivity|].
  split.
  { repeat (constructor; [vm_compute; reflexivity|]). constructor. }
  split; [reflexivity|].
  split; [vm_compute; reflexivity|].
  eapply (X6_active_steps_count softsign_sigmoid softsign_sigmoid_nonneg
           1 2 1 layer0 weights0 long_calls _ _ _ 0 0 _ _).
  - exact I.
  - reflexivity.
  - by split.
  - exact long_calls_ok.
  - unfold long_calls. shape.
  - lia.
  - lia.
  - vm_compute; reflexivity.
  - repeat (constructor; [vm_compute; reflexivity|]). constructor.
  - reflexivity.
  - vm_compute; reflexivity.
Defined.

Lemma X7_ponder_cost_nonneg_witness :
  exists self' Ls L pc,
    calls softsign_sigmoid layer0 plain_calls = Ok (self', Ls) /\
    Ls !! 1%nat = Some L /\
    l_ponder_cost L !! 0%nat = Some pc /\
    0 <= pc.
Proof.
  eexists _, _, _, _.
  split; [vm_compute; reflexivity|].
  split; [reflexivity|].
  split; [vm_compute; reflexivity|].
  eapply (X7_ponder_cost_nonneg softsign_sigmoid softsign_sigmoid_nonneg
           1 2 1 layer0 weights0 plain_calls _ _ None 0 1 _ _).
  - exact I.
  - reflexivity.
  - by split.
  - vm_compute. discriminate.
  - vm_compute. discriminate.
  - exact plain_calls_ok.
  - unfold plain_calls. shape.
  - lia.
  - lia.
  - vm_compute; reflexivity.
  - reflexivity.
  - vm_compute; reflexivity.
Defined.

Lemma X8_weighted_output_is_weighted_sum_witness :
  exists self' Ls ws wo y,
    calls softsign_sigmoid layer0 plain_calls = Ok (self', Ls) /\
    weights_at 0 0 Ls ws /\
    tokens_at 0 0 plain_calls [[-1 # 10]; [-1 # 10]] /\
    weighted_output self' = Some wo /\
    at3 wo 0 0 0 = Some y /\
    y == weighted_sum ws [[-1 # 10]; [-1 # 10]] 0.
Proof.
  assert (Ht : tokens_at 0 0 plain_calls [[-1 # 10]; [-1 # 10]]).
  { constructor; [by eexists _, _|].
    constructor; [by eexists _, _|]. constructor. }
  eexists _, _, _, _, _.
  split; [vm_compute; reflexivity|].
  split.
  { constructor; [vm_compute; reflexivity|].
    constructor; [vm_compute; reflexivity|]. constructor. }
  split; [exact Ht|].
  split; [vm_compute; reflexivity|].
  split; [vm_compute; reflexivity|].
  eapply (X8_weighted_output_is_weighted_sum softsign_sigmoid 1 2 1 layer0
            weights0 (ArgTensor3 tokens0) [ArgTensor3 tokens0]
            _ _ _ [[-1 # 10]; [-1 # 10]] _ 0 0 0).
  - exact I.
  - intros z Hz. discriminate Hz.
  - exact I.
  - reflexivity.
  - by split.
  - exact plain_calls_ok.
  - lia.
  - lia.
  - vm_compute; reflexivity.
  - constructor; [vm_compute; reflexivity|].
    constructor; [vm_compute; reflexivity|]. constructor.
  - exact Ht.
  - vm_compute; reflexivity.
  - vm_compute; reflexivity.
Defined.


Lemma X5_weights_below_budget_witness :
  exists self' Ls ws,
    calls softsign_sigmoid layer0 [ArgTensor3 tokens0] = Ok (self', Ls) /\
    weights_at 0 0 Ls ws /\
    ~ Exists (exhausting 0 0) Ls /\
    Qsum ws < 1 - halt_epsilon layer0.
Proof.
  assert (Hne : forall L,
            at2 (l_no_further_steps L) 0 0 = Some false ->
            ~ Exists (exhausting 0 0) [L]).
  { intros L HL Hex. apply Exists_cons in Hex as [[_ He]|Hex].
    - congruence.
    - by apply Exists_nil in Hex. }
  eexists _, _, _.
  split; [vm_compute; reflexivity|].
  split; [constructor; [vm_compute; reflexivity|constructor]|].
  split; [apply Hne; vm_compute; reflexivity|].
  eapply (X5_weights_below_budget softsign_sigmoid softsign_sigmoid_nonneg
            1 2 1 layer0 weights0 [ArgTensor3 tokens0] _ _ _ 0 0).
  - exact I.
  - reflexivity.
  - by split.
  - vm_compute. reflexivity.
  - unfold tokens0. shape.
  - lia.
  - lia.
  - vm_compute; reflexivity.
  - constructor; [vm_compute; reflexivity|constructor].
  - apply Hne. vm_compute. reflexivity.
Defined.

(** ** Output shapes and config *)

(** X12: [get_config] stores halt_epsilon and time_penalty but not
    return_step: the layer made from the config of a layer with
    [return_step=True] has [return_step=False] (the base config has no such
    entry). *)
Theorem X12_config_loses_return_step (base_config : config) eps tp rs :
  base_config !! "return_step" = None ->
  from_config (get_config base_config (__init__ eps tp rs))
  = Some (__init__ eps tp false).
Proof.
  intros Hb.
  set (c := get_config base_config (__init__ eps tp rs)).
  assert (H1 : c !! "halt_epsilon" = Some (CfgFloat eps)).
  { unfold c, get_config. rewrite lookup_insert_ne by discriminate.
    apply lookup_insert_eq. }
  assert (H2 : c !! "time_penalty" = Some (CfgFloat tp)).
  { unfold c, get_config. apply lookup_insert_eq. }
  assert (H3 : c !! "return_step" = None).
  { unfold c, get_config. by rewrite !lookup_insert_ne by discriminate. }
  unfold from_config. by rewrite H1, H2, H3.
Qed.

Lemma X12_config_loses_return_step_witness :
  from_config (get_config (<["name" := CfgOther "act"]> ∅)
                 (__init__ (1 # 100) (1 # 100) true))
  = Some (__init__ (1 # 100) (1 # 100) false).
Proof.
  apply (X12_config_loses_return_step (<["name" := CfgOther "act"]> ∅)).
  by rewrite lookup_insert_ne by discriminate.
Defined.

Section Shapes.

Variable sigmoid : Q -> Q.

(** X11: [build] and [call] accept a single rank-3 tensor and its shape, but
    [compute_output_shape] raises UnboundLocalError on every single shape:
    its second branch never assigns [result]. *)
Theorem X11_single_tensor_has_no_output_shape {dim} self (n s d : nat) glorot
    input (shape : list dim) :
  has_shape3 n s d input ->
  exists self1 self2 outs,
    build self (OneShape [n; s; d]) glorot = Ok self1 /\
    call sigmoid self1 (ArgTensor3 input) = Ok (self2, outs) /\
    compute_output_shape self2 (ShapeTuple shape) = inl UnboundLocalError.
Proof.
  intros _.
  destruct (build self (OneShape [n; s; d]) glorot) as [self1|] eqn:Hb;
    [|done].
  assert (Hw : exists w, weights self1 = Some w).
  { simpl in Hb. injection Hb as <-. by eexists. }
  destruct Hw as [w Hw].
  destruct (call_Ok sigmoid self1 w input None (ArgTensor3 input) eq_refl Hw)
    as [outs Hcall].
  by eexists _, _, _.
Qed.

(** X10: with [return_step], [call] returns four tensors, but
    [compute_output_shape] returns five entries: the three shapes followed
    by the batch size and the sequence length as two bare dimensions, not a
    fourth shape. *)
Theorem X10_return_step_shape_mismatch {dim} self input lengths self' outs
    (d0 d1 d2 : dim) ls :
  return_step self = true ->
  call sigmoid self (ArgList2 input lengths) = Ok (self', outs) ->
  length outs = 4%nat /\
  compute_output_shape self' (ShapeList ([d0; d1; d2] :: ls))
  = inr [Shape [d0; d1; d2]; Shape [d0; d1; d2]; Shape [d0]; Dim d0; Dim d1].
Proof.
  intros Hrs Hcall.
  destruct (call_inv sigmoid _ _ _ _ Hcall)
    as (input' & lengths' & w & Hun & Hw & Hself & _).
  unfold call in Hcall. rewrite Hun, Hw in Hcall. simpl in Hcall.
  rewrite Hrs in Hcall. injection Hcall as _ <-.
  split; [done|].
  unfold compute_output_shape. rewrite Hself. cbn [store_locals return_step].
  by rewrite Hrs.
Qed.

Lemma ponder_cost_length n s d self w input lengths :
  let L := call_locals sigmoid self w input lengths in
  ready n s self -> weights_ok w -> has_shape3 n s d input ->
  lengths_ok n lengths -> (0 < s)%nat ->
  length (l_ponder_cost L) = n.
Proof.
  intros L Hr Hwok Hin Hl Hs.
  pose proof (l_control_ok sigmoid n s d self w input lengths Hr Hin Hs Hwok)
    as Hc.
  fold L in Hc. destruct Hc as [Hcb Hcr Hcs Hcz Hco _ _ _].
  assert (Hsum : has_shape2 n s
                   (t2_add (l_masked_remainder L) (l_active_steps L))).
  { apply has_shape2_ew2.
    - unfold L. rewrite l_masked_remainder_eq.
      by apply has_shape2_mask_length_if_provided.
    - unfold L. rewrite l_active_steps_eq.
      apply has_shape2_mask_length_if_provided; [|done].
      apply has_shape2_ew2; [done|].
      apply has_shape2_K_switch; [|done|done].
      rewrite l_step_is_active_eq. by apply has_shape2_ew1. }
  unfold L. rewrite l_ponder_cost_eq. fold L.
  unfold t1_scale, K_mean_axis1. rewrite !length_fmap. by destruct Hsum.
Qed.

(** X9: without [return_step], a call on a list [input, lengths] returns
    three tensors of the shapes of the input, of the input and (batch,),
    which are the three shapes [compute_output_shape] gives for the list of
    the input shapes. *)
Theorem X9_output_shapes_as_declared n s d self w input lengths self' outs ls :
  ready n s self -> zeros_input_ok self -> output_ok n s d self ->
  weights self = Some w -> weights_ok w -> return_step self = false ->
  has_shape3 n s d input -> has_shape2 n 1 lengths -> (0 < s)%nat ->
  call sigmoid self (ArgList2 input lengths) = Ok (self', outs) ->
  exists out wo pc,
    outs = [Rank3 out; Rank3 wo; Rank1 pc] /\
    has_shape3 n s d out /\ has_shape3 n s d wo /\ length pc = n /\
    compute_output_shape self' (ShapeList ([n; s; d] :: ls))
    = inr [Shape [n; s; d]; Shape [n; s; d]; Shape [n]].
Proof.
  intros Hr Hz Ho Hw Hwok Hrs Hin Hl Hs Hcall.
  destruct (call_inv sigmoid _ _ _ _ Hcall)
    as (input' & lengths' & w' & Hun & Hw' & Hself & _).
  injection Hun as <- <-. rewrite Hw in Hw'. injection Hw' as <-.
  unfold call in Hcall. simpl in Hcall. rewrite Hw in Hcall.
  simpl in Hcall. rewrite Hrs in Hcall. injection Hcall as _ <-.
  exists input,
    (l_weighted_output (call_locals sigmoid self w input (Some lengths))),
    (l_ponder_cost (call_locals sigmoid self w input (Some lengths))).
  split_and!; try done.
  - by apply weighted_output_shape.
  - by apply (ponder_cost_length n s d).
  - unfold compute_output_shape. rewrite Hself.
    cbn [store_locals return_step]. by rewrite Hrs.
Qed.

End Shapes.

Lemma X11_single_tensor_has_no_output_shape_witness :
  exists self1 self2 outs,
    build (__init__ default_halt_epsilon default_time_penalty false)
      (OneShape [1; 2; 1]%nat) (fun _ _ => [[1]]) = Ok self1 /\
    call softsign_sigmoid self1 (ArgTensor3 tokens0) = Ok (self2, outs) /\
    compute_output_shape self2 (ShapeTuple [1; 2; 1]%nat)
    = inl UnboundLocalError.
Proof.
  apply (X11_single_tensor_has_no_output_shape softsign_sigmoid
           (__init__ default_halt_epsilon default_time_penalty false)
           1 2 1 (fun _ _ => [[1]]) tokens0 [1; 2; 1]%nat).
  unfold tokens0. shape.
Defined.

Lemma X10_return_step_shape_mismatch_witness :
  exists self' outs,
    build (__init__ default_halt_epsilon default_time_penalty true)
      (TwoShapes [1; 2; 1]%nat [1; 1]%nat) (fun _ _ => [[1]])
    = Ok layer0_with_steps /\
    call softsign_sigmoid layer0_with_steps (ArgList2 tokens0 [[2%Z]])
    = Ok (self', outs) /\
    length outs = 4%nat /\
    compute_output_shape self' (ShapeList [[1; 2; 1]%nat; [1; 1]%nat])
    = inr [Shape [1; 2; 1]%nat; Shape [1; 2; 1]%nat; Shape [1%nat];
           Dim 1%nat; Dim 2%nat].
Proof.
  eexists _, _. split; [reflexivity|]. split; [vm_compute; reflexivity|].
  eapply (X10_return_step_shape_mismatch softsign_sigmoid layer0_with_steps
            tokens0 [[2%Z]]).
  - reflexivity.
  - vm_compute; reflexivity.
Defined.

Lemma X9_output_shapes_as_declared_witness :
  exists self' out wo pc,
    call softsign_sigmoid layer0 (ArgList2 tokens0 [[2%Z]])
    = Ok (self', [Rank3 out; Rank3 wo; Rank1 pc]) /\
    has_shape3 1 2 1 out /\ has_shape3 1 2 1 wo /\ length pc = 1%nat /\
    compute_output_shape self' (ShapeList [[1; 2; 1]%nat; [1; 1]%nat])
    = inr [Shape [1; 2; 1]%nat; Shape [1; 2; 1]%nat; Shape [1%nat]].
Proof.
  destruct (X9_output_shapes_as_declared softsign_sigmoid 1 2 1 layer0 weights0
              tokens0 [[2%Z]]
              (store_locals layer0
                 (call_locals softsign_sigmoid layer0 weights0 tokens0
                    (Some [[2%Z]])))
              [Rank3 tokens0;
               Rank3 (l_weighted_output
                        (call_locals softsign_sigmoid layer0 weights0 tokens0
                           (Some [[2%Z]])));
               Rank1 (l_ponder_cost
                        (call_locals softsign_sigmoid layer0 weights0 tokens0
                           (Some [[2%Z]])))]
              [[1; 1]%nat])
    as (out & wo & pc & Houts & H1 & H2 & H3 & H4).
  - exact I.
  - intros z Hz. discriminate Hz.
  - exact I.
  - reflexivity.
  - by split.
  - reflexivity.
  - unfold tokens0. shape.
  - shape.
  - lia.
  - reflexivity.
  - injection Houts as <- <- <-. eexists _, _, _, _.
    split; [reflexivity|]. split_and!; assumption.
Defined.

End ACTRuns.

(** * gelu, the layers of a block, and blocks under calls *)

Module BlockLayers.

Import Tensor Block BlockProofs.

#[local] Open Scope R_scope.

(** ** gelu *)

Lemma tanh_opp x : tanh (- x) = - tanh x.
Proof.
  unfold tanh, sinh, cosh. rewrite Ropp_involutive.
  pose proof (exp_pos x). pose proof (exp_pos (- x)). field. lra.
Qed.

Lemma tanh_bounds x : -1 < tanh x < 1.
Proof.
  pose proof (exp_pos x) as Ha. pose proof (exp_pos (- x)) as Hb.
  assert (Hs : 0 < exp x + exp (- x)) by lra.
  assert (H1 : tanh x = 1 - 2 * exp (- x) / (exp x + exp (- x))).
  { unfold tanh, sinh, cosh. field. lra. }
  assert (H2 : tanh x = -1 + 2 * exp x / (exp x + exp (- x))).
  { unfold tanh, sinh, cosh. field. lra. }
  assert (0 < 2 * exp (- x) / (exp x + exp (- x))).
  { apply Rdiv_lt_0_compat; lra. }
  assert (0 < 2 * exp x / (exp x + exp (- x))).
  { apply Rdiv_lt_0_compat; lra. }
  lra.
Qed.

(** X13: gelu(x) - gelu(-x) = x for every real x, since tanh is odd and so
    is the cubic inside it. *)
Theorem X13_gelu_minus_reflection x : gelu x - gelu (- x) = x.
Proof.
  unfold gelu.
  replace (sqrt (2 / PI) * (- x + 0.044715 * (- x) ^ 3))
    with (- (sqrt (2 / PI) * (x + 0.044715 * x ^ 3))) by ring.
  rewrite tanh_opp. lra.
Qed.

(** X14: gelu(x) lies between 0 and x: it has the sign of x and is no
    larger in absolute value, because 1 + tanh is between 0 and 2. *)
Theorem X14_gelu_between_zero_and_x x :
  0 <= x * gelu x /\ Rabs (gelu x) <= Rabs x.
Proof.
  unfold gelu.
  pose proof (tanh_bounds (sqrt (2 / PI) * (x + 0.044715 * x ^ 3))) as Ht.
  set (t := tanh _) in *.
  split.
  - replace (x * (0.5 * x * (1 + t))) with (x * x * (0.5 * (1 + t))) by ring.
    apply Rmult_le_pos; [apply Rle_0_sqr|lra].
  - replace (0.5 * x * (1 + t)) with (x * (0.5 * (1 + t))) by ring.
    rewrite Rabs_mult. rewrite (Rabs_pos_eq (0.5 * (1 + t))) by lra.
    rewrite <- (Rmult_1_r (Rabs x)) at 2.
    apply Rmult_le_compat_l; [apply Rabs_pos|lra].
Qed.

(** ** LayerNormalization *)

Lemma bzip_singleton_l {A B C} (f : A -> B -> C) a k :
  bzip f [a] k = (fun b => f a b) <$> k.
Proof. by destruct k as [|b [|b' k]]. Qed.

Lemma zip_with_fmap2 {A B C D} (f : B -> C -> D) (g : A -> B) (h : A -> C)
    l :
  zip_with f (g <$> l) (h <$> l) = (fun a => f (g a) (h a)) <$> l.
Proof. induction l as [|a l IH]; csimpl; [done|]. by rewrite IH. Qed.

Lemma ew1_ew1 {A B C} (f : B -> C) (g : A -> B) (t : list (list A)) :
  ew1 f (ew1 g t) = ew1 (fun a => f (g a)) t.
Proof.
  unfold ew1. rewrite <- list_fmap_compose. apply list_fmap_ext.
  intros _ row _. simpl. by rewrite <- list_fmap_compose.
Qed.

Lemma bcast3_ew1_ew1 (f : R -> R -> R) (g h : list R -> list R)
    (x : rtensor3) :
  bcast3 f (ew1 g x) (ew1 h x) = ew1 (fun v => bzip f (g v) (h v)) x.
Proof.
  unfold bcast3, ew1.
  rewrite bzip_same_length by (by rewrite !length_fmap).
  rewrite zip_with_fmap2. apply list_fmap_ext. intros _ m _.
  rewrite bzip_same_length by (by rewrite !length_fmap).
  by rewrite zip_with_fmap2.
Qed.

(** With [axis = -1] the layer maps every position by [norm_token]. *)
Lemma LayerNormalization_call_tokens self gain bias (x : rtensor3) :
  ln_weights self = Some (gain, bias) ->
  (axis self = -1 \/ axis self = 2)%Z ->
  LayerNormalization_call self x = Ok (ew1 (norm_token gain bias) x).
Proof.
  intros Hw Hax. unfold LayerNormalization_call. rewrite Hw.
  cbn [mbind result_bind].
  unfold K_mean. destruct (decide (axis self = -1 \/ axis self = 2)%Z);
    [|done].
  cbn [mbind result_bind]. rewrite !centred_inputs. f_equal.
  unfold K_sqrt, K_square, K_mean_last, t3_map.
  rewrite !ew1_ew1. rewrite bcast3_ew1_ew1.
  unfold bcast3, expand3. rewrite bzip_singleton_l, bzip_singleton_r.
  unfold ew1. rewrite <- !list_fmap_compose. apply list_fmap_ext.
  intros _ m _. cbn -[bzip].
  rewrite bzip_singleton_l, bzip_singleton_r.
  rewrite <- !list_fmap_compose. apply list_fmap_ext.
  intros _ v _. cbn -[bzip]. unfold norm_token.
  by rewrite bzip_singleton_r.
Qed.

(** X15: normalised over the feature axis, the layer acts on every position
    on its own: the output at a position is the output of the layer on the
    tensor that holds only the vector of that position. *)
Theorem X15_layer_norm_acts_per_position self (x y : rtensor3) (b j : nat) v :
  (axis self = -1 \/ axis self = 2)%Z ->
  LayerNormalization_call self x = Ok y ->
  at2 x b j = Some v ->
  exists o,
    LayerNormalization_call self [[v]] = Ok [[o]] /\ at2 y b j = Some o.
Proof.
  intros Hax Hy Hv.
  destruct (ln_weights self) as [[gain bias]|] eqn:Hw.
  - rewrite (LayerNormalization_call_tokens self gain bias x Hw Hax) in Hy.
    injection Hy as <-.
    exists (norm_token gain bias v). split.
    + by rewrite (LayerNormalization_call_tokens self gain bias _ Hw Hax).
    + by rewrite ACTProofs.at2_ew1, Hv.
  - unfold LayerNormalization_call in Hy. by rewrite Hw in Hy.
Qed.

Lemma Rsum_repeat k (d : nat) : Rsum (repeat k d) = INR d * k.
Proof.
  induction d as [|d IH]; [simpl; lra|].
  change (Rsum (repeat k (S d))) with (k + Rsum (repeat k d)).
  rewrite IH, S_INR. lra.
Qed.

Lemma fmap_repeat_R {A B} (f : A -> B) a (d : nat) :
  f <$> repeat a d = repeat (f a) d.
Proof. induction d as [|d IH]; csimpl; [done|]. by rewrite IH. Qed.

Lemma centre_repeat k (d : nat) :
  (0 < d)%nat -> centre (repeat k d) = repeat 0 d.
Proof.
  intros Hd. unfold centre. rewrite fmap_repeat_R. f_equal.
  unfold mean. rewrite Rsum_repeat, repeat_length.
  assert (INR d <> 0) by (apply not_0_INR; lia).
  field. done.
Qed.

Lemma zip_with_Rmult_zeros (gain : list R) :
  zip_with Rmult gain (repeat 0 (length gain)) = repeat 0 (length gain).
Proof.
  induction gain as [|g gain IH]; csimpl; [done|].
  rewrite IH. f_equal. lra.
Qed.

Lemma zip_with_Rplus_zeros (bias : list R) :
  zip_with Rplus (repeat 0 (length bias)) bias = bias.
Proof.
  induction bias as [|g bias IH]; csimpl; [done|].
  rewrite IH. f_equal. lra.
Qed.

Lemma norm_token_constant gain bias k :
  length gain = length bias -> (0 < length bias)%nat ->
  norm_token gain bias (repeat k (length bias)) = bias.
Proof.
  intros Hg Hd. unfold norm_token. rewrite centre_repeat by done.
  set (sd := sqrt _).
  assert (Hn : (fun a => a / sd) <$> repeat 0 (length bias)
               = repeat 0 (length bias)).
  { rewrite fmap_repeat_R. f_equal. unfold Rdiv. by rewrite Rmult_0_l. }
  rewrite Hn.
  rewrite (bzip_same_length Rmult) by (by rewrite repeat_length).
  rewrite <- Hg, zip_with_Rmult_zeros, Hg.
  rewrite bzip_same_length by (by rewrite repeat_length).
  apply zip_with_Rplus_zeros.
Qed.

(** X16: over the reals (exact arithmetic; the rounding of float32, which
    can leave a mean that differs from equal features, is not modelled), a
    position whose features are all equal is mapped to the bias, whatever
    the gain: its centred vector is 0 and, epsilon being positive, nothing
    is divided by 0. *)
Theorem X16_layer_norm_constant_token self gain bias (x y : rtensor3)
    (b j : nat) k :
  ln_weights self = Some (gain, bias) ->
  (axis self = -1 \/ axis self = 2)%Z ->
  length gain = length bias -> (0 < length bias)%nat ->
  LayerNormalization_call self x = Ok y ->
  at2 x b j = Some (repeat k (length bias)) ->
  at2 y b j = Some bias.
Proof.
  intros Hw Hax Hg Hd Hy Hv.
  rewrite (LayerNormalization_call_tokens self gain bias x Hw Hax) in Hy.
  injection Hy as <-.
  rewrite ACTProofs.at2_ew1, Hv. simpl. by rewrite norm_token_constant.
Qed.

Lemma K_int_shape3_rect {A} n s d (t : list (list (list A))) :
  has_shape3 n s d t -> (0 < n)%nat -> (0 < s)%nat ->
  K_int_shape3 t = (n, s, d).
Proof.
  intros [Hl Hr] Hn Hs. unfold K_int_shape3.
  destruct t as [|m t]; simpl in *; [lia|].
  apply Forall_cons in Hr as [[Hm Hv] _]. rewrite Hl, Hm.
  destruct m as [|v m]; simpl in *; [lia|].
  apply Forall_cons in Hv as [Hv _]. by rewrite Hv.
Qed.

Lemma Rsum_scale (l : list R) c :
  Rsum ((fun a => a / c) <$> l) = Rsum l / c.
Proof.
  induction l as [|a l IH]; [simpl; unfold Rdiv; lra|].
  change (Rsum ((fun a => a / c) <$> a :: l))
    with (a / c + Rsum ((fun a => a / c) <$> l)).
  change (Rsum (a :: l)) with (a + Rsum l).
  rewrite IH. unfold Rdiv. lra.
Qed.

Lemma Rsum_centre (v : list R) : Rsum (centre v) = 0.
Proof.
  destruct (decide (v = [])) as [->|Hv]; [done|].
  unfold centre.
  change (Rsum ((fun a => a - mean v) <$> v))
    with (Rsum ((fun a => a + - mean v) <$> v)).
  rewrite Rsum_shift. unfold mean.
  assert (INR (length v) <> 0) by (apply not_0_INR; by destruct v).
  field. done.
Qed.

Lemma Rsum_sq_nonneg (l : list R) : 0 <= Rsum ((fun a => a * a) <$> l).
Proof.
  induction l as [|a l IH]; [simpl; lra|].
  change (Rsum ((fun a => a * a) <$> a :: l))
    with (a * a + Rsum ((fun a => a * a) <$> l)).
  pose proof (Rle_0_sqr a) as Ha. unfold Rsqr in Ha. lra.
Qed.

Lemma Rsum_sq_scale (l : list R) c :
  Rsum ((fun a => a * a) <$> ((fun a => a / c) <$> l))
  = Rsum ((fun a => a * a) <$> l) / (c * c).
Proof.
  destruct (Req_dec c 0) as [->|Hc].
  { rewrite Rmult_0_l. unfold Rdiv. rewrite Rinv_0, Rmult_0_r.
    induction l as [|a l IH]; [done|].
    change (Rsum ((fun a => a * a) <$> ((fun a => a * 0) <$> a :: l)))
      with (a * 0 * (a * 0)
            + Rsum ((fun a => a * a) <$> ((fun a => a * 0) <$> l))).
    rewrite IH. lra. }
  induction l as [|a l IH]; [simpl; unfold Rdiv; lra|].
  change (Rsum ((fun a => a * a) <$> ((fun a => a / c) <$> a :: l)))
    with (a / c * (a / c)
          + Rsum ((fun a => a * a) <$> ((fun a => a / c) <$> l))).
  change (Rsum ((fun a => a * a) <$> a :: l))
    with (a * a + Rsum ((fun a => a * a) <$> l)).
  rewrite IH. field. done.
Qed.

Lemma zip_with_Rmult_ones (v : list R) :
  zip_with Rmult (repeat 1 (length v)) v = v.
Proof.
  induction v as [|a v IH]; csimpl; [done|].
  rewrite IH. f_equal. lra.
Qed.

Lemma zip_with_Rplus_zeros_r (v : list R) :
  zip_with Rplus v (repeat 0 (length v)) = v.
Proof.
  induction v as [|a v IH]; csimpl; [done|].
  rewrite IH. f_equal. lra.
Qed.

(** With the weights [build] makes, a position is mapped to its centred
    vector divided by the standard deviation. *)
Lemma norm_token_built (v : list R) :
  norm_token (repeat 1 (length v)) (repeat 0 (length v)) v
  = (fun a => a / sqrt (mean ((fun a => a * a) <$> centre v) + 1e-5))
      <$> centre v.
Proof.
  unfold norm_token.
  set (nv := (fun a => a / sqrt (mean ((fun a => a * a) <$> centre v) + 1e-5))
               <$> centre v).
  assert (Hl : length nv = length v).
  { unfold nv, centre. by rewrite !length_fmap. }
  rewrite (bzip_same_length Rmult) by (by rewrite repeat_length).
  rewrite <- Hl at 1. rewrite zip_with_Rmult_ones.
  rewrite bzip_same_length by (by rewrite repeat_length).
  rewrite <- Hl. apply zip_with_Rplus_zeros_r.
Qed.

(** X17: over the reals (exact arithmetic; the rounding of float32 is not
    modelled), a new layer, built by its first use on a tensor of shape
    (n, s, d), gives at every position a vector whose entries add up to 0
    and whose squares add up to at most d (mean 0, variance at most 1). *)
Theorem X17_layer_norm_standardises name (x y : rtensor3) self' n s d
    (b j : nat) o :
  has_shape3 n s d x ->
  LayerNormalization_apply (LayerNormalization_init (-1) name) x
  = Ok (self', y) ->
  at2 y b j = Some o ->
  Rsum o = 0 /\ Rsum ((fun a => a * a) <$> o) <= INR d.
Proof.
  intros Hx Happ Ho. unfold LayerNormalization_apply in Happ.
  cbn [LayerNormalization_init ln_weights] in Happ.
  set (self1 := LayerNormalization_build _ _) in Happ.
  destruct (LayerNormalization_call self1 x) as [y'|] eqn:Hcall; [|done].
  cbn [mbind result_bind] in Happ. injection Happ as _ <-.
  rewrite (LayerNormalization_call_tokens self1 _ _ x eq_refl
             ltac:(by left)) in Hcall.
  injection Hcall as <-.
  rewrite ACTProofs.at2_ew1 in Ho.
  destruct (at2 x b j) as [v|] eqn:Hv; [|done].
  simpl in Ho. injection Ho as <-.
  assert (Hb : (b < n)%nat /\ (j < s)%nat /\ length v = d).
  { destruct Hx as [Hl Hr]. unfold at2 in Hv.
    destruct (x !! b) as [m|] eqn:Hm; [|done]. simpl in Hv.
    rewrite Forall_lookup in Hr. destruct (Hr _ _ Hm) as [Hml Hmv].
    rewrite Forall_lookup in Hmv.
    apply lookup_lt_Some in Hm. apply lookup_lt_Some in Hv as Hj.
    split_and!; [lia|lia|eauto]. }
  destruct Hb as (Hb & Hj & Hd).
  pose proof (K_int_shape3_rect n s d x Hx ltac:(lia) ltac:(lia)) as Hk.
  unfold K_int_shape3 in Hk. injection Hk as _ _ Hk. rewrite Hk.
  rewrite <- Hd, norm_token_built.
  set (V := mean ((fun a => a * a) <$> centre v)).
  split.
  - rewrite Rsum_scale, Rsum_centre. unfold Rdiv. lra.
  - rewrite Rsum_sq_scale.
    pose proof (Rsum_sq_nonneg (centre v)) as Hsq.
    destruct (decide (v = [])) as [->|Hne].
    { simpl. unfold Rdiv. lra. }
    assert (Hlen : 0 < INR (length v)).
    { apply lt_0_INR. destruct v; [done|simpl; lia]. }
    assert (HV : 0 <= V).
    { unfold V, mean. rewrite length_fmap. unfold centre at 2.
      rewrite length_fmap. apply Rmult_le_pos; [done|].
      left. by apply Rinv_0_lt_compat. }
    rewrite sqrt_sqrt by lra.
    assert (Hsum : Rsum ((fun a => a * a) <$> centre v)
                   = INR (length v) * V).
    { unfold V, mean. rewrite length_fmap. unfold centre at 3.
      rewrite length_fmap. field. lra. }
    rewrite Hsum.
    apply (Rmult_le_reg_r (V + 1e-5)); [lra|].
    unfold Rdiv. rewrite Rmult_assoc, Rinv_l by lra.
    nra.
Qed.

(** ** TransformerTransition *)

Lemma chunks_fmap {A B} (f : A -> B) n (l : list A) :
  chunks n (f <$> l) = (fun c : list A => f <$> c) <$> chunks n l.
Proof.
  unfold chunks. rewrite length_fmap, <- list_fmap_compose.
  apply list_fmap_ext. intros _ i _. simpl.
  by rewrite fmap_take, fmap_drop.
Qed.

Lemma chunks_concat {A} d (l : list (list A)) :
  (0 < d)%nat -> Forall (fun v => length v = d) l ->
  chunks d (concat l) = l.
Proof.
  intros Hd Hl. unfold chunks.
  assert (Hlen : length (concat l) = (length l * d)%nat).
  { induction Hl as [|v l Hv _ IH]; [done|].
    simpl. rewrite length_app, IH, Hv. lia. }
  rewrite Hlen, Nat.div_mul by lia. clear Hlen.
  induction Hl as [|v l Hv Hl IH]; [done|].
  csimpl. f_equal.
  - rewrite drop_0, take_app_length'; done.
  - rewrite <- fmap_S_seq, <- list_fmap_compose.
    rewrite <- IH at 2.
    apply list_fmap_ext. intros _ i _. simpl.
    rewrite <- Hv at 2. by rewrite drop_app_add.
Qed.

Lemma transition_call_tokens self w (x : rtensor3) n s d :
  tt_weights self = Some w ->
  has_shape3 n s d x -> (0 < n)%nat -> (0 < s)%nat -> (0 < d)%nat ->
  length (default [] (head (weights2 w))) = d ->
  length (biases2 w) = d ->
  TransformerTransition_call self x
  = Ok (ew1 (transition_token (tt_activation self) w) x).
Proof.
  intros Hw Hx Hn Hs Hd Hw2 Hb2. unfold TransformerTransition_call.
  rewrite Hw. cbn [mbind result_bind].
  rewrite (K_int_shape3_rect n s d x Hx Hn Hs). f_equal.
  unfold K_bias_add, K_dot. rewrite <- !list_fmap_compose.
  set (tok := _ ∘ _).
  assert (Htok : forall v, tok v = transition_token (tt_activation self) w v)
    by done.
  assert (Hlen : forall v, length (tok v) = d).
  { intros v. unfold tok. simpl.
    rewrite length_zip_with, length_fmap, length_seq. lia. }
  rewrite chunks_concat; [|done|].
  2:{ apply Forall_fmap, Forall_forall. intros v _. apply Hlen. }
  rewrite chunks_fmap. destruct Hx as [_ Hrows].
  rewrite chunks_concat; [|done|].
  2:{ eapply Forall_impl; [exact Hrows|]. by intros m [? _]. }
  unfold ew1. apply list_fmap_ext. intros _ m _.
  apply list_fmap_ext. intros _ v _. apply Htok.
Qed.

(** X18: the transition layer acts on every position on its own: reshaping
    to B*S rows, the two dense layers and reshaping back give, at a
    position, the output of the layer on the tensor that holds only the
    vector of that position (with weights that map back to d features). *)
Theorem X18_transition_acts_per_position self w (x y : rtensor3) n s d
    (b j : nat) v :
  tt_weights self = Some w -> has_shape3 n s d x -> (0 < d)%nat ->
  length (default [] (head (weights2 w))) = d ->
  length (biases2 w) = d ->
  TransformerTransition_call self x = Ok y ->
  at2 x b j = Some v ->
  exists o,
    TransformerTransition_call self [[v]] = Ok [[o]] /\ at2 y b j = Some o.
Proof.
  intros Hw Hx Hd Hw2 Hb2 Hy Hv.
  assert (Hb : (b < n)%nat /\ (j < s)%nat /\ length v = d).
  { destruct Hx as [Hl Hr]. unfold at2 in Hv.
    destruct (x !! b) as [m|] eqn:Hm; [|done]. simpl in Hv.
    rewrite Forall_lookup in Hr. destruct (Hr _ _ Hm) as [Hml Hmv].
    rewrite Forall_lookup in Hmv.
    apply lookup_lt_Some in Hm. apply lookup_lt_Some in Hv as Hj.
    split_and!; [lia|lia|eauto]. }
  destruct Hb as (Hb & Hj & Hlv).
  rewrite (transition_call_tokens self w x n s d) in Hy by (done || lia).
  injection Hy as <-.
  exists (transition_token (tt_activation self) w v). split.
  - rewrite (transition_call_tokens self w [[v]] 1 1 d); try done; try lia.
    split; [done|]. constructor; [|done]. split; [done|].
    by constructor.
  - by rewrite ACTProofs.at2_ew1, Hv.
Qed.

(** ** TransformerBlock *)

Section BlockRuns.

Variable keras_activation : string -> R -> R.
Variable glorot_uniform : nat -> nat -> rtensor2.
Variable Dropout : R -> string -> rtensor3 -> rtensor3.
Variable Conv1D : nat -> nat -> string -> activation_arg ->
                  rtensor3 -> rtensor3.
Variable tensors_have_len : bool.
Variable MultiHeadSelfAttention :
  nat -> nat -> bool -> R -> option nat -> option nat -> string -> attention.

#[local] Abbreviation call :=
  (__call__ glorot_uniform Conv1D tensors_have_len).
#[local] Abbreviation calls :=
  (call_many glorot_uniform Conv1D tensors_have_len).

Lemma LayerNormalization_apply_inv self x self' y :
  LayerNormalization_apply self x = Ok (self', y) ->
  is_Some (ln_weights self') /\
  (is_Some (ln_weights self) -> self' = self).
Proof.
  unfold LayerNormalization_apply. intros H.
  destruct (ln_weights self) as [w|] eqn:Hw.
  - destruct (LayerNormalization_call self x); [|done].
    cbn [mbind result_bind] in H. injection H as <- _.
    rewrite Hw. by split; [eexists|].
  - destruct (LayerNormalization_call _ x); [|done].
    cbn [mbind result_bind] in H. injection H as <- _.
    split; [by eexists|]. by intros [? ?].
Qed.

Lemma transition_apply_inv t x t' y :
  transition_apply glorot_uniform t x = Ok (t', y) ->
  match t with
  | Some (DotTransition l) =>
      exists l', t' = Some (DotTransition l') /\ is_Some (tt_weights l') /\
                 (is_Some (tt_weights l) -> l' = l)
  | Some (CnnTransition conv) => t' = t
  | None => False
  end.
Proof.
  unfold transition_apply. destruct t as [[l|conv]|]; intros H; [| |done].
  - unfold TransformerTransition_apply in H.
    destruct (tt_weights l) as [w|] eqn:Hw.
    + destruct (TransformerTransition_call l x); [|done].
      cbn [mbind result_bind] in H. injection H as <- _.
      exists l. rewrite Hw. by split_and!; [|eexists|].
    + destruct (TransformerTransition_call _ x); [|done].
      cbn [mbind result_bind] in H. injection H as <- _.
      eexists. split_and!; [done|by eexists|]. by intros [? ?].
  - by injection H as <- _.
Qed.

(** What a call that returns has done to the block. *)
Lemma block_call_inv self x self' out :
  call self x = Ok (self', out) ->
  exists input lengths output n1 n2 t2 y1 y2 z1 z2,
    unpack_input tensors_have_len x = Ok (input, lengths) /\
    attention_layer self input lengths = Ok output /\
    LayerNormalization_apply (norm1_layer self) y1 = Ok (n1, z1) /\
    transition_apply glorot_uniform
      match transition_layer self with
      | None =>
          if decide (transition_type self = "cnn")
          then Some (CnnTransition
                       (Conv1D (K_int_shape3 output).2 (size_multiplier self)
                          (name self +:+ "_transition") (activation self)))
          else None
      | Some t => Some t
      end z1 = Ok (t2, z2) /\
    LayerNormalization_apply (norm2_layer self) y2 = Ok (n2, out) /\
    self' = {| size_multiplier := size_multiplier self;
               name := name self;
               activation := activation self;
               attention_layer := attention_layer self;
               norm1_layer := n1;
               dropout_layer := dropout_layer self;
               norm2_layer := n2;
               transition_type := transition_type self;
               transition_layer := t2;
               vanilla_wiring := vanilla_wiring self |}.
Proof.
  unfold __call__. intros H.
  destruct (unpack_input tensors_have_len x) as [[input lengths]|] eqn:Hun;
    [|done]. cbn [mbind result_bind] in H.
  destruct (attention_layer self input lengths) as [output|] eqn:Hatt;
    [|done].
  cbn [mbind result_bind] in H.
  match type of H with
  | mbind _ ?m = _ => destruct m as [y1|]; [|done]
  end. cbn [mbind result_bind] in H.
  destruct (LayerNormalization_apply (norm1_layer self) y1) as [[n1 z1]|]
    eqn:Hn1; [|done]. cbn [mbind result_bind] in H.
  match type of H with
  | mbind _ ?m = _ => destruct m as [[t2 z2]|] eqn:Ht; [|done]
  end. cbn [mbind result_bind] in H.
  match type of H with
  | mbind _ ?m = _ => destruct m as [y2|]; [|done]
  end. cbn [mbind result_bind] in H.
  destruct (LayerNormalization_apply (norm2_layer self) y2) as [[n2 z3]|]
    eqn:Hn2; [|done]. cbn [mbind result_bind] in H.
  injection H as <- <-.
  by exists input, lengths, output, n1, n2, t2, y1, y2, z1, z2.
Qed.

Lemma call_builds self x self' out :
  call self x = Ok (self', out) -> block_built self'.
Proof.
  intros H.
  destruct (block_call_inv _ _ _ _ H)
    as (input & lengths & output & n1 & n2 & t2 & y1 & y2 & z1 & z2
        & _ & _ & Hn1 & Ht & Hn2 & ->).
  unfold block_built. cbn [norm1_layer norm2_layer transition_layer].
  destruct (LayerNormalization_apply_inv _ _ _ _ Hn1) as [H1 _].
  destruct (LayerNormalization_apply_inv _ _ _ _ Hn2) as [H2 _].
  split_and!; try done.
  apply transition_apply_inv in Ht.
  destruct (transition_layer self) as [[l|conv]|].
  - destruct Ht as (l' & -> & Hl' & _). done.
  - by rewrite Ht.
  - destruct (decide (transition_type self = "cnn")); [|done].
    by rewrite Ht.
Qed.

Lemma call_built_same self x self' out :
  block_built self -> call self x = Ok (self', out) -> self' = self.
Proof.
  intros (B1 & B2 & B3) H.
  destruct (block_call_inv _ _ _ _ H)
    as (input & lengths & output & n1 & n2 & t2 & y1 & y2 & z1 & z2
        & _ & _ & Hn1 & Ht & Hn2 & ->).
  destruct (LayerNormalization_apply_inv _ _ _ _ Hn1) as [_ H1].
  destruct (LayerNormalization_apply_inv _ _ _ _ Hn2) as [_ H2].
  rewrite (H1 B1), (H2 B2).
  apply transition_apply_inv in Ht.
  assert (t2 = transition_layer self) as ->.
  { destruct (transition_layer self) as [[l|conv]|]; [| |done].
    - destruct Ht as (l' & -> & _ & Hl). by rewrite (Hl B3).
    - done. }
  by destruct self.
Qed.

(** X19: a block changes in its first call that returns and never after:
    that call builds the normalisation and transition layers (or makes the
    convolution), and every later sequence of calls that returns leaves the
    block as it was. *)
Theorem X19_block_changes_in_first_call_only self x self1 out rest self2 outs :
  call self x = Ok (self1, out) ->
  calls self1 rest = Ok (self2, outs) ->
  self2 = self1.
Proof.
  intros H1 H2. apply call_builds in H1. clear self x out.
  revert self1 self2 outs H1 H2.
  induction rest as [|x rest IH]; intros self1 self2 outs Hb H.
  - by injection H as <- _.
  - cbn [call_many] in H.
    destruct (call self1 x) as [[self1' out]|] eqn:Hc; [|done].
    cbn [mbind result_bind] in H.
    destruct (calls self1' rest) as [[self2' outs']|] eqn:Hr; [|done].
    cbn [mbind result_bind] in H. injection H as <- _.
    pose proof (call_built_same _ _ _ _ Hb Hc) as ->.
    by apply (IH self1 self2' outs').
Qed.

(** X20: a block constructed with the transition type 'cnn' has no
    transition layer until its first call, which makes the [Conv1D] with as
    many filters as the attention output has features, [size_multiplier] as
    kernel size, and the name and activation of the block. *)
Theorem X20_cnn_transition_made_by_first_call name_ d_model num_heads rd ad act
    cws sm um lm vw self x self1 out :
  __init__ keras_activation Dropout MultiHeadSelfAttention
    name_ d_model num_heads "cnn" rd ad act cws sm um lm vw = Ok self ->
  call self x = Ok (self1, out) ->
  exists input lengths output,
    unpack_input tensors_have_len x = Ok (input, lengths) /\
    attention_layer self input lengths = Ok output /\
    transition_layer self1
    = Some (CnnTransition
              (Conv1D (K_int_shape3 output).2 sm (name_ +:+ "_transition")
                 act)).
Proof.
  intros Hinit H.
  unfold __init__ in Hinit. cbn in Hinit. injection Hinit as <-.
  destruct (block_call_inv _ _ _ _ H)
    as (input & lengths & output & n1 & n2 & t2 & y1 & y2 & z1 & z2
        & Hun & Hatt & _ & Ht & _ & ->).
  cbn [transition_layer transition_type size_multiplier name activation]
    in Ht.
  exists input, lengths, output. split_and!; try done.
  cbn [transition_layer]. apply transition_apply_inv in Ht.
  destruct (decide ("cnn" = "cnn")); [|done]. done.
Qed.

End BlockRuns.

(** *** The properties on concrete layers *)

Ltac run_reals :=
  cbv -[Rplus Rminus Rmult Rdiv Rinv Ropp sqrt tanh exp INR IZR PI pow];
  reflexivity.

Lemma X15_layer_norm_acts_per_position_witness :
  exists y o,
    LayerNormalization_call norm0 [[ [1; 2]; [4; 0] ]] = Ok y /\
    LayerNormalization_call norm0 [[ [4; 0] ]] = Ok [[o]] /\
    at2 y 0 1 = Some o.
Proof.
  assert (Hy : exists y,
            LayerNormalization_call norm0 [[ [1; 2]; [4; 0] ]] = Ok y).
  { eexists. run_reals. }
  destruct Hy as [y Hy].
  destruct (X15_layer_norm_acts_per_position norm0 [[ [1; 2]; [4; 0] ]] y 0 1
              [4; 0]) as (o & Ho & Hat).
  - left. reflexivity.
  - exact Hy.
  - reflexivity.
  - by exists y, o.
Defined.

Lemma X16_layer_norm_constant_token_witness :
  exists y,
    LayerNormalization_call norm0 [[ [1; 2]; [7; 7] ]] = Ok y /\
    at2 y 0 1 = Some [1; 0].
Proof.
  assert (Hy : exists y,
            LayerNormalization_call norm0 [[ [1; 2]; [7; 7] ]] = Ok y).
  { eexists. run_reals. }
  destruct Hy as [y Hy]. exists y. split; [done|].
  apply (X16_layer_norm_constant_token norm0 [2; 3] [1; 0]
           [[ [1; 2]; [7; 7] ]] y 0 1 7).
  - reflexivity.
  - left. reflexivity.
  - reflexivity.
  - simpl. lia.
  - exact Hy.
  - reflexivity.
Defined.

Lemma X17_layer_norm_standardises_witness :
  exists self' y o,
    LayerNormalization_apply (LayerNormalization_init (-1) "n")
      [[ [1; 2]; [4; 0] ]] = Ok (self', y) /\
    at2 y 0 1 = Some o /\
    Rsum o = 0 /\ Rsum ((fun a => a * a) <$> o) <= INR 2.
Proof.
  assert (Hy : exists self' y o,
            LayerNormalization_apply (LayerNormalization_init (-1) "n")
              [[ [1; 2]; [4; 0] ]] = Ok (self', y) /\
            at2 y 0 1 = Some o).
  { eexists _, _, _. split; run_reals. }
  destruct Hy as (self' & y & o & Hy & Ho).
  exists self', y, o. split; [done|]. split; [done|].
  apply (X17_layer_norm_standardises "n" [[ [1; 2]; [4; 0] ]] y self'
           1 2 2 0 1 o).
  - split; [done|]. constructor; [|done]. split; [done|].
    by repeat constructor.
  - exact Hy.
  - exact Ho.
Defined.

Lemma X18_transition_acts_per_position_witness :
  exists y o,
    TransformerTransition_call transition0 [[ [1]; [2] ]] = Ok y /\
    TransformerTransition_call transition0 [[ [2] ]] = Ok [[o]] /\
    at2 y 0 1 = Some o.
Proof.
  assert (Hy : exists y,
            TransformerTransition_call transition0 [[ [1]; [2] ]] = Ok y).
  { eexists. run_reals. }
  destruct Hy as [y Hy].
  destruct (X18_transition_acts_per_position transition0 _ [[ [1]; [2] ]] y
              1 2 1 0 1 [2] eq_refl) as (o & Ho & Hat).
  - split; [done|]. constructor; [|done]. split; [done|].
    by repeat constructor.
  - lia.
  - reflexivity.
  - reflexivity.
  - exact Hy.
  - reflexivity.
  - by exists y, o.
Defined.

Lemma init0_cnn_block0 : init0_cnn = Ok block0_cnn.
Proof.
  unfold init0_cnn, __init__. destruct (Rlt_dec 0 0) as [H|_]; [lra|].
  reflexivity.
Qed.

Lemma X19_block_changes_in_first_call_only_witness :
  exists self1 out self2 outs,
    __call__ (fun n m => repeat (repeat 0.5 m) n) (fun _ _ _ _ t => t) false
      (block0 false) input0 = Ok (self1, out) /\
    call_many (fun n m => repeat (repeat 0.5 m) n) (fun _ _ _ _ t => t) false
      self1 [input0; input0] = Ok (self2, outs) /\
    self2 = self1.
Proof.
  assert (H : exists self1 out self2 outs,
            __call__ (fun n m => repeat (repeat 0.5 m) n)
              (fun _ _ _ _ t => t) false (block0 false) input0
            = Ok (self1, out) /\
            call_many (fun n m => repeat (repeat 0.5 m) n)
              (fun _ _ _ _ t => t) false self1 [input0; input0]
            = Ok (self2, outs)).
  { eexists _, _, _, _. split; run_reals. }
  destruct H as (self1 & out & self2 & outs & H1 & H2).
  exists self1, out, self2, outs. split; [done|]. split; [done|].
  exact (X19_block_changes_in_first_call_only _ _ _ _ _ _ _ _ _ _ H1 H2).
Defined.

Lemma X20_cnn_transition_made_by_first_call_witness :
  exists self1 out input lengths output,
    __call__ (fun n m => repeat (repeat 0.5 m) n) (fun _ _ _ _ t => t) false
      block0_cnn input0 = Ok (self1, out) /\
    unpack_input false input0 = Ok (input, lengths) /\
    attention_layer block0_cnn input lengths = Ok output /\
    transition_layer self1
    = Some (CnnTransition
              ((fun _ _ _ _ t => t) (K_int_shape3 output).2 4%nat
                 ("block" +:+ "_transition") (ActName "gelu"))).
Proof.
  assert (H : exists self1 out,
            __call__ (fun n m => repeat (repeat 0.5 m) n)
              (fun _ _ _ _ t => t) false block0_cnn input0
            = Ok (self1, out)).
  { eexists _, _. run_reals. }
  destruct H as (self1 & out & H1).
  destruct (X20_cnn_transition_made_by_first_call (fun _ x => x)
              (fun n m => repeat (repeat 0.5 m) n) (fun _ _ t => t)
              (fun _ _ _ _ t => t) false (fun _ _ _ _ _ _ _ => attention0)
              "block" 2 1 0 0 (ActName "gelu") None 4 true None false
              block0_cnn input0 self1 out init0_cnn_block0 H1)
    as (input & lengths & output & Hun & Hatt & Ht).
  by exists self1, out, input, lengths, output.
Defined.

End BlockLayers.

(** * The halting unit of TransformerACT, token by token *)

Module HaltingUnit.

Import Tensor ACT ACTProofs.

#[local] Open Scope Q_scope.

Lemma concat_fmap_singleton {A B} (f : A -> B) (l : list A) :
  concat ((fun a => [f a]) <$> l) = f <$> l.
Proof. induction l as [|a l IH]; csimpl; [done|]. by rewrite IH. Qed.

(** The halting unit maps every token by one function. *)
Lemma halting_unit_tokens sigmoid n s d w (input : tensor3) :
  has_shape3 n s d input -> (0 < n)%nat -> (0 < s)%nat -> weights_ok w ->
  halting_unit sigmoid w input
  = ew1 (fun x => sigmoid (dot_vec x (column (halting_kernel w) 0)
                           + default 0 (head (halting_biases w))))
      input.
Proof.
  intros Hin Hn Hs [Hk Hb]. unfold halting_unit.
  destruct (K_int_shape3_has_shape3 n s d input Hin Hn) as [d' ->].
  unfold K_sigmoid, K_reshape_tokens, K_bias_add, K_dot. rewrite Hk.
  destruct (halting_biases w) as [|b0 [|b1 bs]]; try done. clear Hb.
  rewrite <- list_fmap_compose.
  change (K_reshape_rows ?a s) with (Block.chunks s (concat a)).
  rewrite (concat_fmap_singleton
             (fun x => dot_vec x (column (halting_kernel w) 0) + b0)).
  rewrite BlockLayers.chunks_fmap. destruct Hin as [_ Hrows].
  rewrite BlockLayers.chunks_concat; [|done|].
  2:{ eapply Forall_impl; [exact Hrows|]. by intros m [? _]. }
  unfold ew1. rewrite <- list_fmap_compose. apply list_fmap_ext.
  intros _ m _. simpl. by rewrite <- list_fmap_compose.
Qed.

(** X21: the halting value of a token is the logistic function of the dot
    product of the token with the halting kernel plus the halting bias; the
    two reshapes put it at the position of the token, and no other token
    of the batch enters it. *)
Theorem X21_halting_value_of_token sigmoid n s d w (input : tensor3)
    (b j : nat) x :
  has_shape3 n s d input -> weights_ok w ->
  at2 input b j = Some x ->
  at2 (halting_unit sigmoid w input) b j
  = Some (sigmoid (dot_vec x (column (halting_kernel w) 0)
                   + default 0 (head (halting_biases w)))).
Proof.
  intros Hin Hwok Hx.
  assert (Hb : (b < n)%nat /\ (j < s)%nat).
  { destruct Hin as [Hl Hr]. unfold at2 in Hx.
    destruct (input !! b) as [m|] eqn:Hm; [|done]. simpl in Hx.
    rewrite Forall_lookup in Hr. destruct (Hr _ _ Hm) as [Hml _].
    apply lookup_lt_Some in Hm. apply lookup_lt_Some in Hx. lia. }
  rewrite (halting_unit_tokens sigmoid n s d w input Hin) by (done || lia).
  by rewrite at2_ew1, Hx.
Qed.

Lemma X21_halting_value_of_token_witness :
  at2 (halting_unit softsign_sigmoid weights0 tokens0) 0 1
  = Some (softsign_sigmoid
            (dot_vec [-1 # 10] (column (halting_kernel weights0) 0)
             + default 0 (head (halting_biases weights0)))).
Proof.
  apply (X21_halting_value_of_token softsign_sigmoid 1 2 1 weights0 tokens0
           0 1 [-1 # 10]).
  - unfold tokens0. shape.
  - by split.
  - reflexivity.
Defined.

End HaltingUnit.

(** * One call of TransformerACT, from the stored state and the input *)

Module CallEffects.

Import Tensor ACT ACTProofs ACTRuns.

#[local] Open Scope Q_scope.

Ltac lra := Lqa.lra.

Section OneCall.

Variable sigmoid : Q -> Q.

(** One call of a ready layer, from the state the layer has stored and the
    token the call gets at position (b, j). *)
Lemma call_from_state n s d self w a input lengths (b j : nat) x :
  ready n s self -> weights self = Some w -> weights_ok w ->
  arg_ok n s d a -> (b < n)%nat -> (j < s)%nat ->
  unpack_input a = Ok (input, lengths) -> at2 input b j = Some x ->
  exists L c self1 outs ctl1,
    the_locals sigmoid self a = Ok L /\
    call sigmoid self a = Ok (self1, outs) /\
    starts_from self n b j c /\
    link_full b j L (c, (arg_len_at a b, halting_value sigmoid w x)) /\
    control self1 = Some ctl1 /\
    cell_of ctl1 b j
    = Some (cell_step (arg_len_at a b) j c (halting_value sigmoid w x)).
Proof.
  intros Hr Hw Hwok Ha Hb Hj Hun Hx.
  destruct (call_step_full sigmoid n s d w b j self a Hr Hw Hwok Ha Hb Hj)
    as (L & c & self1 & outs & ctl1 & HL & Hcall & Hc & Hlink & Hctl1 & _
        & Hc1 & _).
  destruct (arg_ok_unpack _ _ _ _ Ha) as (i' & l' & Hun' & Hin & _).
  rewrite Hun in Hun'. injection Hun' as <- <-.
  assert (Hst : step_of sigmoid w b j a
                = (arg_len_at a b, halting_value sigmoid w x)).
  { assert (Hat : at2 (halting_unit sigmoid w input) b j
                    = Some (halting_value sigmoid w x)).
    { rewrite (HaltingUnit.halting_unit_tokens sigmoid n s d w input Hin)
        by (done || lia).
      by rewrite at2_ew1, Hx. }
    pose proof (step_of_unpack sigmoid w b j a input lengths _ Hun Hat)
      as Hst.
    pose proof (step_of_len sigmoid w b j a) as Hlen.
    rewrite Hst in Hlen. cbn [fst] in Hlen. by rewrite Hlen in Hst. }
  rewrite Hst in Hlink, Hc1. cbn [fst snd] in Hc1.
  exists L, c, self1, outs, ctl1. split_and!; try done.
  split.
  - intros ctl Hctl Hbs.
    by rewrite <- (the_locals_settled sigmoid self a L ctl n s d HL Ha Hctl Hbs).
  - intros Hf. apply (fresh_cell sigmoid n s d self a L b j c Hf Ha HL Hc).
Qed.

(** C2: in every call, at every position, the effective halting weight is
    decided by the budget the layer has for the position when the call
    begins (the stored one, or the whole budget when the call makes the
    control tensors) and by the halting value p of the token the call gets
    there: it is the current remainder when the budget is positive and p
    uses it up, p when the budget is positive and is not used up, and 0 when
    the budget is not positive.  It is the weight the step uses: the output
    the call adds for the position is the token times this weight. *)
Theorem C2_effective_halting_weight n s d self w a input lengths L
    (b j : nat) x :
  ready n s self -> zeros_input_ok self ->
  weights self = Some w -> weights_ok w ->
  arg_ok n s d a -> (b < n)%nat -> (j < s)%nat ->
  unpack_input a = Ok (input, lengths) -> at2 input b j = Some x ->
  the_locals sigmoid self a = Ok L ->
  exists c wt v,
    starts_from self n b j c /\
    at2 (l_halting_prob L) b j = Some wt /\
    at2 (l_step_weighted_output L) b j = Some v /\
    Qvec_eq v (Qmult wt <$> x) /\
    (0 < c_budget c -> c_budget c - halting_value sigmoid w x <= 0 ->
     wt = c_remainder c) /\
    (0 < c_budget c -> 0 < c_budget c - halting_value sigmoid w x ->
     wt = halting_value sigmoid w x) /\
    (c_budget c <= 0 -> wt = 0).
Proof.
  intros Hr Hz Hw Hwok Ha Hb Hj Hun Hx HL.
  destruct (call_from_state n s d self w a input lengths b j x
              Hr Hw Hwok Ha Hb Hj Hun Hx)
    as (L' & c & self1 & outs & ctl1 & HL' & _ & Hfrom & Hlink & _).
  rewrite HL in HL'. injection HL' as <-.
  destruct Hlink as ((_ & _ & _ & _ & Hhp) & _). cbn [fst snd] in Hhp.
  destruct (step_weighted_output_at sigmoid n s d self w a L b j
              Hr Hz Hw Hwok Ha Hb Hj HL)
    as (input' & lengths' & x' & wt' & v & Hun' & Hx' & Hwt' & Hv & Heq).
  rewrite Hun in Hun'. injection Hun' as <- <-.
  rewrite Hx in Hx'. injection Hx' as <-.
  rewrite Hhp in Hwt'. injection Hwt' as <-.
  set (p := halting_value sigmoid w x) in *.
  exists c, (cell_weight c p), v.
  split_and!; try done; unfold cell_weight, cell_active, cell_exhausts.
  - intros Hpos Hex. apply Qgtb_true in Hpos. apply Qle_bool_iff in Hex.
    by rewrite Hpos, Hex.
  - intros Hpos Hnex. apply Qgtb_true in Hpos. rewrite Hpos.
    destruct (Qle_bool (c_budget c - p) 0) eqn:He; [|done].
    apply Qle_bool_iff in He. lra.
  - intros Hneg. apply Qgtb_false in Hneg. by rewrite Hneg.
Qed.

(** C3: the remainder and the budget a call stores for a position come from
    those the layer had for it when the call began (or the initial ones)
    and the halting value p of the token: the remainder, as the ponder cost
    saw it (length-masked, so unchanged at a position that is not padding),
    is kept where budget - p <= 0 and loses p elsewhere; the budget loses p
    at every position, whatever its sign. *)
Theorem C3_remainder_and_budget_update n s d self w a input lengths
    self' outs (b j : nat) x :
  ready n s self -> weights self = Some w -> weights_ok w ->
  arg_ok n s d a -> (b < n)%nat -> (j < s)%nat ->
  unpack_input a = Ok (input, lengths) -> at2 input b j = Some x ->
  call sigmoid self a = Ok (self', outs) ->
  exists c ctl' r' hb',
    starts_from self n b j c /\
    control self' = Some ctl' /\
    at2 (remainder ctl') b j = Some r' /\
    at2 (halt_budget ctl') b j = Some hb' /\
    (visible (arg_len_at a b) j ->
     masked (c_remainder c) (arg_len_at a b) j == c_remainder c) /\
    (c_budget c - halting_value sigmoid w x <= 0 ->
     r' = masked (c_remainder c) (arg_len_at a b) j) /\
    (0 < c_budget c - halting_value sigmoid w x ->
     r' = masked (c_remainder c) (arg_len_at a b) j
          - halting_value sigmoid w x) /\
    hb' = c_budget c - halting_value sigmoid w x.
Proof.
  intros Hr Hw Hwok Ha Hb Hj Hun Hx Hcall.
  destruct (call_from_state n s d self w a input lengths b j x
              Hr Hw Hwok Ha Hb Hj Hun Hx)
    as (L & c & self1 & outs1 & ctl1 & _ & Hcall' & Hfrom & _ & Hctl1 & Hc1).
  rewrite Hcall in Hcall'. injection Hcall' as <- <-.
  destruct (cell_of_Some _ _ _ _ Hc1) as (Ehb' & Er' & _).
  set (p := halting_value sigmoid w x) in *.
  eexists c, ctl1, _, _. split_and!; try eassumption.
  - apply masked_visible.
  - intros Hex. cbn [cell_step c_remainder]. unfold cell_exhausts.
    apply Qle_bool_iff in Hex. by rewrite Hex.
  - intros Hnex. cbn [cell_step c_remainder]. unfold cell_exhausts.
    destruct (Qle_bool (c_budget c - p) 0) eqn:He; [|done].
    apply Qle_bool_iff in He. lra.
  - reflexivity.
Qed.

(** C4: every call sets the ponder cost, whatever it was before, to
    time_penalty times the row means of remainder + active_steps, one number
    per batch row, and returns it as its third output.  The remainder is
    the one the layer has when the call begins (or the initial one), before
    this call updates it; the active steps are already counted; both are
    length-masked.  [finalize] adds one loss, the ponder cost the last call
    left. *)
Theorem C4_ponder_cost n s d self w a self' outs :
  ready n s self -> weights self = Some w -> weights_ok w ->
  time_penalty_t w = time_penalty self ->
  arg_ok n s d a -> (0 < s)%nat ->
  call sigmoid self a = Ok (self', outs) ->
  exists pc,
    ponder_cost self' = Some pc /\
    outs !! 2%nat = Some (Rank1 pc) /\
    length pc = n /\
    (forall b : nat, (b < n)%nat ->
       exists row,
         length row = s /\
         pc !! b
         = Some (time_penalty self * (Qsum row / inject_Z (Z.of_nat s))) /\
         forall j : nat, (j < s)%nat ->
           exists c,
             starts_from self n b j c /\
             row !! j
             = Some (masked (c_remainder c) (arg_len_at a b) j
                     + masked (c_steps c + (if cell_active c then 1 else 0))
                         (arg_len_at a b) j)) /\
    (forall pc0 self2 outs2,
       call sigmoid (with_ponder_cost pc0 self) a = Ok (self2, outs2) ->
       ponder_cost self2 = Some pc) /\
    losses (finalize self') = losses self ++ [Some pc].
Proof.
  intros Hr Hw Hwok Htp Ha Hs Hcall.
  destruct (call_inv sigmoid _ _ _ _ Hcall)
    as (input & lengths & w' & Hun & Hw' & Hself & HL).
  rewrite Hw in Hw'. injection Hw' as <-.
  set (L := call_locals sigmoid self w input lengths) in *.
  destruct (ponder_cost_of_locals sigmoid n s d self w a L self' outs
              Hr Hw Hwok Htp Ha Hs HL Hcall)
    as (pc & Hpc & Hlen & Hrows & Hover & Hfin).
  assert (Epc : pc = l_ponder_cost L).
  { rewrite Hself in Hpc. cbn [store_locals ponder_cost] in Hpc.
    by injection Hpc as <-. }
  exists pc. split_and!; try done.
  - unfold call in Hcall. rewrite Hun in Hcall. simpl in Hcall.
    rewrite Hw in Hcall. simpl in Hcall. fold L in Hcall. rewrite Epc.
    destruct (return_step self); by injection Hcall as _ <-.
  - intros b Hb. destruct (Hrows b Hb) as (row & Hrl & Hrow & Hcells).
    exists row. split_and!; try done.
    intros j Hj. destruct (Hcells j Hj) as (c & Hc & Hrj).
    destruct (arg_ok_unpack _ _ _ _ Ha) as (i' & l' & Hun' & Hin & _).
    rewrite Hun in Hun'. injection Hun' as <- <-.
    destruct (has_shape3_at2_is_Some n s d input b j Hin Hb Hj) as [x Hx].
    destruct (call_from_state n s d self w a input lengths b j x
                Hr Hw Hwok Ha Hb Hj Hun Hx)
      as (L' & c' & _ & _ & _ & HL' & _ & Hfrom & Hlink & _).
    rewrite HL in HL'. injection HL' as <-.
    destruct Hlink as ((Hc' & _) & _). cbn [fst] in Hc'.
    rewrite Hc in Hc'. injection Hc' as <-.
    by exists c.
Qed.

End OneCall.
(** *** The claims on the second call of a layer *)

(** [layer1] is [layer0] after its first call, so that the call on it works
    with the stored control tensors: budget 49/100, remainder 1/2, one
    step. *)
Lemma layer1_called :
  call softsign_sigmoid layer0 (ArgTensor3 tokens0)
  = Ok (layer1, [Rank3 tokens0; Rank3 (l_weighted_output locals0);
                 Rank1 (l_ponder_cost locals0)]).
Proof. reflexivity. Qed.

Lemma layer1_ready : ready 1 2 layer1.
Proof.
  assert (Ha : arg_ok 1 2 1 (ArgTensor3 tokens0))
    by (unfold tokens0; shape).
  assert (Hs : (0 < 2)%nat) by lia.
  destruct (call_ready softsign_sigmoid 1 2 1 layer0 weights0
              (ArgTensor3 tokens0) layer1 _ I eq_refl
              (conj eq_refl eq_refl) Ha Hs layer1_called) as [H _].
  exact H.
Qed.

Lemma layer1_zeros_input_ok : zeros_input_ok layer1.
Proof.
  apply (call_zeros_input_ok softsign_sigmoid layer0 (ArgTensor3 tokens0)
           layer1 _ ltac:(intros z Hz; discriminate Hz) layer1_called).
Qed.

Lemma C2_effective_halting_weight_witness :
  exists c wt v,
    starts_from layer1 1 0 0 c /\
    at2 (l_halting_prob locals1) 0 0 = Some wt /\
    at2 (l_step_weighted_output locals1) 0 0 = Some v /\
    Qvec_eq v (Qmult wt <$> [-1 # 10]) /\
    (0 < c_budget c ->
     c_budget c - halting_value softsign_sigmoid weights0 [-1 # 10] <= 0 ->
     wt = c_remainder c) /\
    (0 < c_budget c ->
     0 < c_budget c - halting_value softsign_sigmoid weights0 [-1 # 10] ->
     wt = halting_value softsign_sigmoid weights0 [-1 # 10]) /\
    (c_budget c <= 0 -> wt = 0).
Proof.
  apply (C2_effective_halting_weight softsign_sigmoid 1 2 1 layer1 weights0
           (ArgTensor3 tokens0) tokens0 None locals1 0 0 [-1 # 10]).
  - exact layer1_ready.
  - exact layer1_zeros_input_ok.
  - reflexivity.
  - by split.
  - unfold tokens0. shape.
  - lia.
  - lia.
  - reflexivity.
  - reflexivity.
  - reflexivity.
Defined.

Lemma C3_remainder_and_budget_update_witness :
  exists c ctl' r' hb',
    starts_from layer1 1 0 0 c /\
    control (store_locals layer1 locals1) = Some ctl' /\
    at2 (remainder ctl') 0 0 = Some r' /\
    at2 (halt_budget ctl') 0 0 = Some hb' /\
    (visible (arg_len_at (ArgTensor3 tokens0) 0) 0 ->
     masked (c_remainder c) (arg_len_at (ArgTensor3 tokens0) 0) 0
     == c_remainder c) /\
    (c_budget c - halting_value softsign_sigmoid weights0 [-1 # 10] <= 0 ->
     r' = masked (c_remainder c) (arg_len_at (ArgTensor3 tokens0) 0) 0) /\
    (0 < c_budget c - halting_value softsign_sigmoid weights0 [-1 # 10] ->
     r' = masked (c_remainder c) (arg_len_at (ArgTensor3 tokens0) 0) 0
          - halting_value softsign_sigmoid weights0 [-1 # 10]) /\
    hb' = c_budget c - halting_value softsign_sigmoid weights0 [-1 # 10].
Proof.
  apply (C3_remainder_and_budget_update softsign_sigmoid 1 2 1 layer1
           weights0 (ArgTensor3 tokens0) tokens0 None
           (store_locals layer1 locals1)
           [Rank3 tokens0; Rank3 (l_weighted_output locals1);
            Rank1 (l_ponder_cost locals1)] 0 0 [-1 # 10]).
  - exact layer1_ready.
  - reflexivity.
  - by split.
  - unfold tokens0. shape.
  - lia.
  - lia.
  - reflexivity.
  - reflexivity.
  - reflexivity.
Defined.

Lemma C4_ponder_cost_witness :
  exists pc,
    ponder_cost (store_locals layer1 locals1) = Some pc /\
    [Rank3 tokens0; Rank3 (l_weighted_output locals1);
     Rank1 (l_ponder_cost locals1)] !! 2%nat = Some (Rank1 pc) /\
    length pc = 1%nat /\
    (forall b : nat, (b < 1)%nat ->
       exists row,
         length row = 2%nat /\
         pc !! b
         = Some (time_penalty layer1
                 * (Qsum row / inject_Z (Z.of_nat 2))) /\
         forall j : nat, (j < 2)%nat ->
           exists c,
             starts_from layer1 1 b j c /\
             row !! j
             = Some (masked (c_remainder c)
                       (arg_len_at (ArgTensor3 tokens0) b) j
                     + masked (c_steps c + (if cell_active c then 1 else 0))
                         (arg_len_at (ArgTensor3 tokens0) b) j)) /\
    (forall pc0 self2 outs2,
       call softsign_sigmoid (with_ponder_cost pc0 layer1)
         (ArgTensor3 tokens0) = Ok (self2, outs2) ->
       ponder_cost self2 = Some pc) /\
    losses (finalize (store_locals layer1 locals1))
    = losses layer1 ++ [Some pc].
Proof.
  apply (C4_ponder_cost softsign_sigmoid 1 2 1 layer1 weights0
           (ArgTensor3 tokens0) (store_locals layer1 locals1)
           [Rank3 tokens0; Rank3 (l_weighted_output locals1);
            Rank1 (l_ponder_cost locals1)]).
  - exact layer1_ready.
  - reflexivity.
  - by split.
  - reflexivity.
  - unfold tokens0. shape.
  - lia.
  - reflexivity.
Defined.

(** On the second call the stored budget 49/100 is positive and the halting
    value 1/2 uses it up: the weight is the stored remainder, the remainder
    is kept and the budget becomes negative. *)
Example second_call_exhausts :
  exists ctl ctl' hb r wt r' hb',
    control layer1 = Some ctl /\
    at2 (halt_budget ctl) 0 0 = Some hb /\ hb == 49 # 100 /\
    at2 (remainder ctl) 0 0 = Some r /\ r == 1 # 2 /\
    halting_value softsign_sigmoid weights0 [-1 # 10] == 1 # 2 /\
    at2 (l_halting_prob locals1) 0 0 = Some wt /\ wt = r /\
    control (store_locals layer1 locals1) = Some ctl' /\
    at2 (remainder ctl') 0 0 = Some r' /\ r' = r /\
    at2 (halt_budget ctl') 0 0 = Some hb' /\ hb' == - (1 # 100).
Proof.
  eexists _, _, _, _, _, _, _.
  split_and!; try (vm_compute; reflexivity).
Qed.

End CallEffects.
